(** * The document cache of the PromQL language server

    A shallow embedding of [langserver/cache]: the [document] record, the
    [DocumentHandle] methods of [document.go] and the position conversions
    of [position.go], together with the parts of Go's runtime and standard
    library they run on ([int], [float64], [unicode/utf8], [unicode/utf16],
    [go/token], [context], [sync]).

    Conventions.
    - The standard library is embedded from its documented behaviour; the
      packages vendored into the repository but absent from the sources
      ([span], [protocol]) and the declarations of the package that are
      absent ([waitGroup], [CompiledQuery], [YamlDoc], [maxDocumentSize]) are
      modelled from the specification or taken as parameters, and say so.
    - Go's [int] and [token.Pos] are 64-bit: they are values of [Z], and the
      arithmetic of the methods goes through [wrap_int].
    - [float64] is Rocq's primitive binary64 [float]; Go's comparison [<=] is
      [PrimFloat.leb].
    - A Go [string] and a [[]byte] are a [list byte]; messages of errors are
      Rocq strings.
    - A method is a function of the state (the one document a handle points
      to, and the contexts created so far) to an [outcome]: it returns, it
      panics, or it blocks on the wait group or on the lock. *)

From Stdlib Require Import ZArith List String Strings.Byte Bool Lia Sorted.
From Stdlib Require Import Floats Uint63 DecimalString.
From stdpp Require Import base list.
Import ListNotations.
Open Scope Z_scope.

(** ** Go values *)

(** Two's complement wrap-around of a 64-bit [int]. *)
Definition wrap_int (z : Z) : Z := (z + 2 ^ 63) mod 2 ^ 64 - 2 ^ 63.

Definition int_add (a b : Z) : Z := wrap_int (a + b).
Definition int_sub (a b : Z) : Z := wrap_int (a - b).

(** [len] of a slice or a string. *)
Definition len {A : Type} (l : list A) : Z := Z.of_nat (length l).

Definition byte_val (b : byte) : Z := Z.of_N (Byte.to_N b).

(** [p[i]], read where the code has already checked [i < len(p)]. *)
Definition byte_at (p : list byte) (i : nat) : Z := byte_val (nth i p x00).

(** [s[i:]] and [s[:j]], for indices in range. *)
Definition slice_from {A : Type} (l : list A) (i : Z) : list A := drop (Z.to_nat i) l.
Definition slice_to {A : Type} (l : list A) (j : Z) : list A := take (Z.to_nat j) l.

(** [%d] of [fmt]. *)
Definition itoa (z : Z) : string := NilZero.string_of_int (Z.to_int z).

(** [float64(i)] for an [int] [i]: rounding to nearest even. *)
Definition float64_of_int (z : Z) : float :=
  if z =? - 2 ^ 63 then PrimFloat.opp (PrimFloat.mul (PrimFloat.of_uint63 (Uint63.of_Z (2 ^ 62))) 2)
  else if z <? 0 then PrimFloat.opp (PrimFloat.of_uint63 (Uint63.of_Z (- z)))
  else PrimFloat.of_uint63 (Uint63.of_Z z).

(** [int(f)] for a [float64] [f]: truncation towards zero.  Out of the range
    of [int] (and on NaN) Go leaves the result to the implementation; amd64
    gives the smallest [int]. *)
Definition int_of_float64 (f : float) : Z :=
  match Prim2SF f with
  | S754_zero _ => 0
  | S754_finite s m e =>
      let v := if 0 <=? e then Z.pos m * 2 ^ e else Z.pos m / 2 ^ (- e) in
      let v := if s then - v else v in
      if (- 2 ^ 63 <=? v) && (v <? 2 ^ 63) then v else - 2 ^ 63
  | S754_infinity _ | S754_nan => - 2 ^ 63
  end.

(** Go's [error] values, as far as the cache produces them:
    [jsonrpc2.NewErrorf] with its code, [errors.New], [fmt.Errorf], the
    errors of the runtime and [context.Canceled]. *)
Inductive error : Type :=
  | jsonrpc2_Error (code : Z) (msg : string)
  | errors_New (msg : string)
  | fmt_Errorf (msg : string)
  | runtime_Error (msg : string)
  | context_Canceled.

Definition CodeInvalidParams : Z := -32602.
Definition CodeInternalError : Z := -32603.

(** The value handed to [panic]: [go/token] panics with a string, the
    runtime with a [runtime.Error]. *)
Inductive panic_value : Type :=
  | panic_string (s : string)
  | panic_error (e : error).

(** A pure computation that may panic. *)
Inductive may_panic (A : Type) : Type :=
  | Value (a : A)
  | Panic (v : panic_value).
Arguments Value {A} a.
Arguments Panic {A} v.

(** ** [unicode/utf8] and [unicode/utf16] *)

Module utf8.

Definition RuneError : Z := 0xFFFD.

Definition maskx : Z := 0x3F.
Definition mask2 : Z := 0x1F.
Definition mask3 : Z := 0x0F.
Definition mask4 : Z := 0x07.

Definition locb : Z := 0x80.
Definition hicb : Z := 0xBF.

Definition xx : Z := 0xF1.
Definition as_ : Z := 0xF0.
Definition s1 : Z := 0x02.
Definition s2 : Z := 0x13.
Definition s3 : Z := 0x03.
Definition s4 : Z := 0x23.
Definition s5 : Z := 0x34.
Definition s6 : Z := 0x04.
Definition s7 : Z := 0x44.

(** The table [first]: information about the first byte of an encoding. *)
Definition first (b : Z) : Z :=
  if b <? 0x80 then as_
  else if b <? 0xC2 then xx
  else if b <? 0xE0 then s1
  else if b =? 0xE0 then s2
  else if b <? 0xED then s3
  else if b =? 0xED then s4
  else if b <? 0xF0 then s3
  else if b =? 0xF0 then s5
  else if b <? 0xF4 then s6
  else if b =? 0xF4 then s7
  else xx.

Record acceptRange : Type := { lo : Z; hi : Z }.

Definition acceptRanges (i : Z) : acceptRange :=
  if i =? 0 then {| lo := locb; hi := hicb |}
  else if i =? 1 then {| lo := 0xA0; hi := hicb |}
  else if i =? 2 then {| lo := locb; hi := 0x9F |}
  else if i =? 3 then {| lo := 0x90; hi := hicb |}
  else if i =? 4 then {| lo := locb; hi := 0x8F |}
  else {| lo := 0; hi := 0 |}.

(** [DecodeRune(p)]: the first rune of [p] and its width in bytes;
    [(RuneError, 0)] on empty input, [(RuneError, 1)] on an invalid
    encoding. *)
Definition DecodeRune (p : list byte) : Z * Z :=
  let n := len p in
  if n <? 1 then (RuneError, 0) else
  let p0 := byte_at p 0 in
  let x := first p0 in
  if as_ <=? x then
    let mask := if Z.testbit x 0 then -1 else 0 in
    (Z.lor (Z.land p0 (Z.lnot mask)) (Z.land RuneError mask), 1)
  else
  let sz := Z.land x 7 in
  let accept := acceptRanges (Z.shiftr x 4) in
  if n <? sz then (RuneError, 1) else
  let b1 := byte_at p 1 in
  if (b1 <? lo accept) || (hi accept <? b1) then (RuneError, 1) else
  if sz <=? 2 then
    (Z.lor (Z.shiftl (Z.land p0 mask2) 6) (Z.land b1 maskx), 2)
  else
  let b2 := byte_at p 2 in
  if (b2 <? locb) || (hicb <? b2) then (RuneError, 1) else
  if sz <=? 3 then
    (Z.lor (Z.lor (Z.shiftl (Z.land p0 mask3) 12) (Z.shiftl (Z.land b1 maskx) 6))
           (Z.land b2 maskx), 3)
  else
  let b3 := byte_at p 3 in
  if (b3 <? locb) || (hicb <? b3) then (RuneError, 1) else
  (Z.lor (Z.lor (Z.lor (Z.shiftl (Z.land p0 mask4) 18) (Z.shiftl (Z.land b1 maskx) 12))
                (Z.shiftl (Z.land b2 maskx) 6))
         (Z.land b3 maskx), 4).

(** The conversion [[]rune(string(p))]: the runes of [p] in order, every
    invalid byte giving one [RuneError].  A rune takes at least one byte,
    so [length p] rounds are enough. *)
Fixpoint runes_fuel (fuel : nat) (p : list byte) : list Z :=
  match fuel with
  | O => []
  | S fuel' =>
      match p with
      | [] => []
      | _ :: _ =>
          let '(r, w) := DecodeRune p in
          r :: runes_fuel fuel' (slice_from p w)
      end
  end.

Definition runes (p : list byte) : list Z := runes_fuel (length p) p.

End utf8.

Module utf16.

Definition surr1 : Z := 0xd800.
Definition surr3 : Z := 0xe000.
Definition surrSelf : Z := 0x10000.
Definition maxRune : Z := 0x10FFFF.
Definition replacementChar : Z := 0xFFFD.

(** [Encode(s)]: the UTF-16 code units of the runes [s]. *)
Fixpoint Encode (s : list Z) : list Z :=
  match s with
  | [] => []
  | v :: s' =>
      if ((0 <=? v) && (v <? surr1)) || ((surr3 <=? v) && (v <? surrSelf)) then
        v :: Encode s'
      else if (surrSelf <=? v) && (v <=? maxRune) then
        let r := v - surrSelf in
        (surr1 + Z.land (Z.shiftr r 10) 0x3ff)
          :: (0xdc00 + Z.land r 0x3ff) :: Encode s'
      else replacementChar :: Encode s'
  end.

End utf16.

(** ** [go/token]: positions and the line table of a file *)

Module token.

(** [token.Pos]: the base of the file plus a byte offset; [NoPos] is 0. *)
Definition NoPos : Z := 0.

Record Position : Type :=
  { Filename : string; Offset : Z; Line : Z; Column : Z }.

(** [token.File].  [lines] holds the offset of the first byte of each
    line; line [i] (from 1) is [lines[i-1]]. *)
Record File : Type :=
  { name : string; base : Z; size : Z; lines : list Z }.

Definition Base (f : File) : Z := base f.

(** The loop of [SetLinesForContent]: [line] is the offset of a line start
    not yet recorded, or -1. *)
Fixpoint lines_for (content : list byte) (offset line : Z) (acc : list Z) : list Z :=
  match content with
  | [] => acc
  | b :: rest =>
      let acc := if 0 <=? line then acc ++ [line] else acc in
      let line := if byte_val b =? 10 then offset + 1 else -1 in
      lines_for rest (offset + 1) line acc
  end.

Definition SetLinesForContent (f : File) (content : list byte) : File :=
  {| name := name f; base := base f; size := size f;
     lines := lines_for content 0 0 [] |}.

(** [LineStart(line)] panics, with a string, when [line] is not the number
    of a line of the table. *)
Definition LineStart (f : File) (line : Z) : may_panic Z :=
  if line <? 1 then
    Panic (panic_string
             ("invalid line number " ++ itoa line ++ " (should be >= 1)"))
  else if len (lines f) <? line then
    Panic (panic_string
             ("invalid line number " ++ itoa line ++ " (should be < "
              ++ itoa (len (lines f)) ++ ")"))
  else Value (base f + nth (Z.to_nat (line - 1)) (lines f) 0).

(** [searchInts(a, x)]: the largest index [i] with [a[i] <= x], or -1;
    [a] is increasing. *)
Fixpoint searchInts_from (a : list Z) (x : Z) (i : Z) (best : Z) : Z :=
  match a with
  | [] => best
  | y :: a' => if y <=? x then searchInts_from a' x (i + 1) i else best
  end.

Definition searchInts (a : list Z) (x : Z) : Z := searchInts_from a x 0 (-1).

(** [Position(p)] for a file without line directives: the zero
    [Position] for [NoPos], a panic outside the file. *)
Definition PositionOf (f : File) (p : Z) : may_panic Position :=
  if p =? NoPos then
    Value {| Filename := EmptyString; Offset := 0; Line := 0; Column := 0 |}
  else if (p <? base f) || (base f + size f <? p) then
    Panic (panic_string "illegal Pos value")
  else
    let offset := p - base f in
    let i := searchInts (lines f) offset in
    if 0 <=? i then
      Value {| Filename := name f; Offset := offset; Line := i + 1;
               Column := offset - nth (Z.to_nat i) (lines f) 0 + 1 |}
    else
      Value {| Filename := name f; Offset := offset; Line := 0; Column := 0 |}.

End token.

(** ** The vendored [span] package: points and UTF-16 columns *)

Module span.

(** A point: a 1-based line, a 1-based byte column, a 0-based byte
    offset.  A line of 0 means "no position", a negative offset "no
    offset". *)
Record Point : Type := { Line : Z; Column : Z; Offset : Z }.

Definition zero : Point := {| Line := 0; Column := 0; Offset := 0 |}.

Definition HasPosition (p : Point) : bool := 0 <? Line p.
Definition HasOffset (p : Point) : bool := 0 <=? Offset p.

Definition clean (p : Point) : Point :=
  let line := if Line p <? 0 then 0 else Line p in
  let column :=
    if Column p <=? 0 then (if 0 <? line then 1 else 0) else Column p in
  let offset :=
    if (Offset p =? 0) && ((1 <? line) || (1 <? column)) then -1 else Offset p in
  {| Line := line; Column := column; Offset := offset |}.

(** Modelled from the spec: [span.NewPoint] of the vendored go-tools, whose
    file is not among the sources; it packs an internal (1-based line,
    1-based byte column) with the absolute offset and normalises the
    three. *)
Definition NewPoint (line col offset : Z) : Point :=
  clean {| Line := line; Column := col; Offset := offset |}.

(** The accessors panic on a point that lacks what they are asked for. *)
Definition ColumnOf (p : Point) : may_panic Z :=
  if HasPosition p then Value (Column p)
  else Panic (panic_error (fmt_Errorf "position not set")).

Definition OffsetOf (p : Point) : may_panic Z :=
  if HasOffset p then Value (Offset p)
  else Panic (panic_error (fmt_Errorf "offset not set")).

(** Modelled from the spec: [span.ToUTF16Column] of the vendored go-tools,
    whose file is not among the sources.  It scans the bytes of the line
    from its start up to the byte column, counts the UTF-16 code units of
    the runes decoded there (two for a rune of the supplementary planes,
    one for any other) and returns the 1-based UTF-16 column; the caller
    subtracts 1. *)
Definition ToUTF16Column (p : Point) (content : list byte) : Z * option error :=
  if negb (HasPosition p) then
    (-1, Some (fmt_Errorf "ToUTF16Column: point is missing position"))
  else if negb (HasOffset p) then
    (-1, Some (fmt_Errorf "ToUTF16Column: point is missing offset"))
  else
    let offset := Offset p in
    let colZero := Column p - 1 in
    if colZero =? 0 then (1, None)
    else if colZero <? 0 then
      (-1, Some (fmt_Errorf "ToUTF16Column: column is invalid"))
    else
      let lineOffset := offset - colZero in
      if (lineOffset <? 0) || (len content <? offset) then
        (-1, Some (fmt_Errorf "ToUTF16Column: offsets outside file contents"))
      else
        let start := slice_to (slice_from content lineOffset) colZero in
        (len (utf16.Encode (utf8.runes start)) + 1, None).

(** The loop of [FromUTF16Column]: [count] is the 1-based UTF-16 column
    reached, [remains] the content from the point on.  Every round that
    continues consumes at least one byte of [remains], so
    [S (length remains)] rounds are enough. *)
Fixpoint scan (fuel : nat) (count chr : Z) (remains : list byte) (p : Point)
  : Point * option error :=
  match fuel with
  | O => (p, None)
  | S fuel' =>
      if count <? chr then
        if len remains <=? 0 then
          (zero, Some (fmt_Errorf "FromUTF16Column: chr goes beyond the content"))
        else
          let '(r, w) := utf8.DecodeRune remains in
          if r =? 10 then
            (zero, Some (fmt_Errorf "FromUTF16Column: chr goes beyond the line"))
          else
            let remains := slice_from remains w in
            let p' := {| Line := Line p; Column := Column p + w; Offset := Offset p + w |} in
            if 0x10000 <=? r then
              if chr <=? count + 1 then (p, None)
              else scan fuel' (count + 2) chr remains p'
            else scan fuel' (count + 1) chr remains p'
      else (p, None)
  end.

(** Modelled from the spec: [span.FromUTF16Column] of the vendored
    go-tools, whose file is not among the sources.  The inverse scan: from
    the start of the line it counts UTF-16 code units until the requested
    1-based column [chr] is reached and yields the equivalent byte column;
    it fails when [chr] asks for more code units than the line has. *)
Definition FromUTF16Column (p : Point) (chr : Z) (content : list byte)
  : Point * option error :=
  if negb (HasOffset p) then
    (zero, Some (fmt_Errorf "FromUTF16Column: point is missing offset"))
  else if chr <=? 1 then (p, None)
  else if len content <=? Offset p then
    (p, Some (fmt_Errorf "FromUTF16Column: offset greater than length of content"))
  else
    let remains := slice_from content (Offset p) in
    scan (S (length remains)) 1 chr remains p.

Record Span : Type := { URI : string; Start : Point; End_ : Point }.

End span.

(** ** The vendored [protocol] package *)

Module protocol.

(** Modelled from the spec: [protocol.Position] of the vendored go-tools,
    whose file is not among the sources.  Lines and columns of the editor
    protocol are 0-based, columns count UTF-16 code units; the two fields are
    [float64], as the conversions [float64(line)] and [int(pos.Line)] of
    [position.go] show. *)
Record Position : Type := { Line : float; Character : float }.

(** Modelled from the spec: [protocol.Range], the range of an edit in
    protocol coordinates. *)
Record Range : Type := { Start : Position; End_ : Position }.

(** Modelled from the spec: [protocol.TextDocumentContentChangeEvent], an
    edit with its range and its replacement text.  [Range] is a pointer, as
    the [*change.Range] of [ApplyIncrementalChanges] shows: [None] is the nil
    of a whole-document edit, which has no range. *)
Record TextDocumentContentChangeEvent : Type :=
  { Range_ : option Range; Text : list byte }.

(** Modelled from the spec: [protocol.Diagnostic], a finding shown to the
    user. *)
Record Diagnostic : Type := { DiagnosticRange : Range; Message : string }.

End protocol.

(** ** [context]: cancellation *)

(** A context is the background context or one made by [WithCancel]; the
    latter are objects, named by their index in the store. *)
Inductive Context : Type :=
  | Background
  | cancelCtx (id : nat).

Record ctxEntry : Type := { parent : Context; canceled : bool }.

(** [<-c.Done()] is ready when [c] or one of its ancestors was cancelled.  A
    parent is created before its children, so a chain of parents is no
    longer than the store. *)
Fixpoint Done_fuel (fuel : nat) (cs : list ctxEntry) (c : Context) : bool :=
  match c, fuel with
  | Background, _ => false
  | cancelCtx _, O => false
  | cancelCtx i, S fuel' =>
      match cs !! i with
      | None => false
      | Some e => canceled e || Done_fuel fuel' cs (parent e)
      end
  end.

Definition Done (cs : list ctxEntry) (c : Context) : bool :=
  Done_fuel (S (length cs)) cs c.

(** [c.Err()]. *)
Definition Err (cs : list ctxEntry) (c : Context) : option error :=
  if Done cs c then Some context_Canceled else None.

(** [context.WithCancel(parent)]: the new context, the index its
    [CancelFunc] cancels, and the store with the new object. *)
Definition WithCancel (parent : Context) (cs : list ctxEntry)
  : Context * nat * list ctxEntry :=
  (cancelCtx (length cs), length cs,
   cs ++ [{| parent := parent; canceled := false |}]).

(** Calling the [CancelFunc] of context [i]. *)
Definition cancel (i : nat) (cs : list ctxEntry) : list ctxEntry :=
  match cs !! i with
  | Some e => <[i := {| parent := parent e; canceled := true |}]> cs
  | None => cs
  end.

(** ** [sync] *)

Record RWMutex : Type := { readers : nat; writer : bool }.

(** Modelled from the spec: the type [waitGroup] of the package, whose
    declaration is not among the sources: a non-negative counter of the
    compile tasks in flight, which [SetContent] increments and readers of the
    compile results wait on until it is zero. *)
Record waitGroup : Type := { pending : nat }.

(** ** The document *)

(** [promql.PositionRange] of the Prometheus parser: the range of a node of
    the syntax tree, relative to the start of its query. *)
Record PositionRange : Type := { Start : Z; End_ : Z }.

(** [promql.Node]: of a syntax tree the cache reads only
    [PositionRange()]. *)
Record Node : Type := { NodePositionRange : PositionRange }.

(** Modelled from the spec: [CompiledQuery], whose declaration is not among
    the sources: the [token.Pos] where the query starts and its syntax tree,
    [None] (nil) when the query did not parse. *)
Record CompiledQuery : Type := { Pos : Z; Ast : option Node }.

(** Modelled from the spec: [YamlDoc], whose declaration is not among the
    sources: an embedded document with the offset of its lines in the file. *)
Record YamlDoc : Type := { LineOffset : Z; YamlContent : list byte }.

Record document : Type :=
  { posData : token.File;
    uri : string;
    languageID : string;
    version : float;
    content : list byte;
    mu : RWMutex;
    versionCtx : option Context;
    obsoleteVersion : option nat;
    queries : list CompiledQuery;
    yamls : list YamlDoc;
    diagnostics : list protocol.Diagnostic;
    compilers : waitGroup }.

(** A handle: the document (the one of the state) and the context that
    expires when the document changes. *)
Record DocumentHandle : Type := { ctx : Context }.

(** The state a method runs in: the document its handle points to and the
    contexts created so far. *)
Record state : Type := { doc : document; ctxs : list ctxEntry }.

Definition with_mu (m : RWMutex) (d : document) : document :=
  {| posData := posData d; uri := uri d; languageID := languageID d;
     version := version d; content := content d; mu := m;
     versionCtx := versionCtx d; obsoleteVersion := obsoleteVersion d;
     queries := queries d; yamls := yamls d; diagnostics := diagnostics d;
     compilers := compilers d |}.

(** The assignments to the fields of the document. *)
Definition with_versionCtx (c : Context) (f : nat) (d : document) : document :=
  {| posData := posData d; uri := uri d; languageID := languageID d;
     version := version d; content := content d; mu := mu d;
     versionCtx := Some c; obsoleteVersion := Some f;
     queries := queries d; yamls := yamls d; diagnostics := diagnostics d;
     compilers := compilers d |}.

Definition with_content (c : list byte) (d : document) : document :=
  {| posData := posData d; uri := uri d; languageID := languageID d;
     version := version d; content := c; mu := mu d;
     versionCtx := versionCtx d; obsoleteVersion := obsoleteVersion d;
     queries := queries d; yamls := yamls d; diagnostics := diagnostics d;
     compilers := compilers d |}.

Definition with_version (v : float) (d : document) : document :=
  {| posData := posData d; uri := uri d; languageID := languageID d;
     version := v; content := content d; mu := mu d;
     versionCtx := versionCtx d; obsoleteVersion := obsoleteVersion d;
     queries := queries d; yamls := yamls d; diagnostics := diagnostics d;
     compilers := compilers d |}.

Definition with_posData (f : token.File) (d : document) : document :=
  {| posData := f; uri := uri d; languageID := languageID d;
     version := version d; content := content d; mu := mu d;
     versionCtx := versionCtx d; obsoleteVersion := obsoleteVersion d;
     queries := queries d; yamls := yamls d; diagnostics := diagnostics d;
     compilers := compilers d |}.

Definition with_queries (qs : list CompiledQuery) (d : document) : document :=
  {| posData := posData d; uri := uri d; languageID := languageID d;
     version := version d; content := content d; mu := mu d;
     versionCtx := versionCtx d; obsoleteVersion := obsoleteVersion d;
     queries := qs; yamls := yamls d; diagnostics := diagnostics d;
     compilers := compilers d |}.

Definition with_yamls (ys : list YamlDoc) (d : document) : document :=
  {| posData := posData d; uri := uri d; languageID := languageID d;
     version := version d; content := content d; mu := mu d;
     versionCtx := versionCtx d; obsoleteVersion := obsoleteVersion d;
     queries := queries d; yamls := ys; diagnostics := diagnostics d;
     compilers := compilers d |}.

Definition with_diagnostics (ds : list protocol.Diagnostic) (d : document) : document :=
  {| posData := posData d; uri := uri d; languageID := languageID d;
     version := version d; content := content d; mu := mu d;
     versionCtx := versionCtx d; obsoleteVersion := obsoleteVersion d;
     queries := queries d; yamls := yamls d; diagnostics := ds;
     compilers := compilers d |}.

Definition with_compilers (w : waitGroup) (d : document) : document :=
  {| posData := posData d; uri := uri d; languageID := languageID d;
     version := version d; content := content d; mu := mu d;
     versionCtx := versionCtx d; obsoleteVersion := obsoleteVersion d;
     queries := queries d; yamls := yamls d; diagnostics := diagnostics d;
     compilers := w |}.

(** ** Method bodies: state, panics and blocking *)

Inductive outcome (A : Type) : Type :=
  | Returns (a : A) (s : state)
  | Panics (v : panic_value) (s : state)
  | Blocks.
Arguments Returns {A} a s.
Arguments Panics {A} v s.
Arguments Blocks {A}.

Definition M (A : Type) : Type := state -> outcome A.

Definition ret {A : Type} (a : A) : M A := fun s => Returns a s.

Definition bind {A B : Type} (m : M A) (k : A -> M B) : M B :=
  fun s =>
    match m s with
    | Returns a s' => k a s'
    | Panics v s' => Panics v s'
    | Blocks => Blocks
    end.

Notation "x <- m ;; k" := (bind m (fun x => k))
  (at level 100, m at level 99, right associativity).
Notation "m ;;; k" := (bind m (fun _ => k))
  (at level 100, k at level 200, right associativity).

Definition panic {A : Type} (v : panic_value) : M A := fun s => Panics v s.

Definition lift {A : Type} (r : may_panic A) : M A :=
  match r with
  | Value a => ret a
  | Panic v => panic v
  end.

(** [defer cleanup] before [body]: [cleanup] runs when [body] returns and
    when it panics; the panic then goes on. *)
Definition defer {A : Type} (cleanup : M unit) (body : M A) : M A :=
  fun s =>
    match body s with
    | Returns a s' =>
        match cleanup s' with
        | Returns _ s'' => Returns a s''
        | Panics v s'' => Panics v s''
        | Blocks => Blocks
        end
    | Panics v s' =>
        match cleanup s' with
        | Returns _ s'' => Panics v s''
        | Panics v' s'' => Panics v' s''
        | Blocks => Blocks
        end
    | Blocks => Blocks
    end.

(** A deferred function that calls [recover()]: a panic of [body] becomes
    the return of [handler]. *)
Definition recovering {A : Type} (handler : panic_value -> M A) (body : M A) : M A :=
  fun s =>
    match body s with
    | Returns a s' => Returns a s'
    | Panics v s' => handler v s'
    | Blocks => Blocks
    end.

Definition get_doc : M document := fun s => Returns (doc s) s.

(** An assignment to the document. *)
Definition modify_doc (f : document -> document) : M unit :=
  fun s => let '{| doc := d; ctxs := cs |} := s in Returns tt {| doc := f d; ctxs := cs |}.

Definition nil_dereference : panic_value :=
  panic_error (runtime_Error "invalid memory address or nil pointer dereference").

(** [*p] and the call of a function value: nil panics. *)
Definition deref {A : Type} (p : option A) : M A :=
  match p with
  | Some a => ret a
  | None => panic nil_dereference
  end.

(** [mu.RLock()] waits while a writer holds the lock. *)
Definition RLock : M unit :=
  fun s =>
    let m := mu (doc s) in
    if writer m then Blocks
    else Returns tt {| doc := with_mu {| readers := S (readers m); writer := false |} (doc s);
                       ctxs := ctxs s |}.

Definition RUnlock : M unit :=
  fun s =>
    let m := mu (doc s) in
    match readers m with
    | O => Panics (panic_error (runtime_Error "sync: RUnlock of unlocked RWMutex")) s
    | S n => Returns tt {| doc := with_mu {| readers := n; writer := writer m |} (doc s);
                           ctxs := ctxs s |}
    end.

(** [mu.Lock()] waits while anyone holds the lock. *)
Definition Lock : M unit :=
  fun s =>
    let m := mu (doc s) in
    if writer m then Blocks
    else match readers m with
         | O => Returns tt {| doc := with_mu {| readers := O; writer := true |} (doc s);
                              ctxs := ctxs s |}
         | S _ => Blocks
         end.

Definition Unlock : M unit :=
  fun s =>
    let m := mu (doc s) in
    if writer m then
      Returns tt {| doc := with_mu {| readers := readers m; writer := false |} (doc s);
                    ctxs := ctxs s |}
    else Panics (panic_error (runtime_Error "sync: Unlock of unlocked RWMutex")) s.

(** Modelled from the spec: [Wait] of [waitGroup]; it suspends the caller
    until the counter is zero. *)
Definition Wait : M unit :=
  fun s =>
    match pending (compilers (doc s)) with
    | O => Returns tt s
    | S _ => Blocks
    end.

(** Modelled from the spec: [Add] of [waitGroup]. *)
Definition Add (delta : nat) : M unit :=
  modify_doc (fun d => with_compilers {| pending := delta + pending (compilers d) |} d).

(** The call of a [CancelFunc], and [context.WithCancel]. *)
Definition call_cancel (f : nat) : M unit :=
  fun s => let '{| doc := d; ctxs := cs |} := s in Returns tt {| doc := d; ctxs := cancel f cs |}.

Definition context_WithCancel (parent : Context) : M (Context * nat) :=
  fun s =>
    let '{| doc := d; ctxs := cs |} := s in
    let '(c, f, cs') := WithCancel parent cs in
    Returns (c, f) {| doc := d; ctxs := cs' |}.

(** The [select] on [<-c.Done()] with a [default] branch. *)
Definition ctx_Done (c : Context) : M bool := fun s => Returns (Done (ctxs s) c) s.

Definition ctx_Err (c : Context) : M (option error) :=
  fun s => Returns (Err (ctxs s) c) s.

(** ** [document.go] and [position.go] *)

Definition ErrVersionNotIncreasing : error :=
  jsonrpc2_Error CodeInvalidParams "Update to file didn't increase version number".

Definition ErrDocumentTooLarge : error :=
  jsonrpc2_Error CodeInternalError "cache/SetContent: Provided.document to large.".

Definition ErrInvalidChangeRange : error :=
  jsonrpc2_Error CodeInternalError "invalid range for content change".

Definition ErrInvalidRange : error := errors_New "invalid range".
Definition ErrNotFound : error := errors_New "no query found at given position".
Definition ErrInvalidPosition : error := errors_New "invalid position".

(** The error [LineStartSafe] makes of the string a [LineStart] panic carries. *)
Definition ErrLineStartPanic (r : string) : error :=
  fmt_Errorf ("LineStart panic: " ++ r).

Definition zero_Position : protocol.Position :=
  {| protocol.Line := 0%float; protocol.Character := 0%float |}.

Definition zero_token_Position : token.Position :=
  {| token.Filename := EmptyString; token.Offset := 0; token.Line := 0; token.Column := 0 |}.

Section Cache.

(** The constant [maxDocumentSize] of the package; its declaration is not
    among the sources. *)
Variable maxDocumentSize : Z.

(** [protocol.ColumnMapper.RangeSpan] of the vendored go-tools, for the
    mapper built on a URI and a content: the span, with byte offsets, of a
    range in protocol coordinates. *)
Variable RangeSpan : string -> list byte -> protocol.Range -> span.Span * option error.

Definition GetContext (d : DocumentHandle) : Context := ctx d.

(** The loop of [ApplyIncrementalChanges] over the changes left, on the
    content as spliced so far. *)
Fixpoint apply_changes (uri : string) (changes : list protocol.TextDocumentContentChangeEvent)
         (content : list byte) : M (list byte * option error) :=
  match changes with
  | [] => ret (content, None)
  | change :: rest =>
      r <- deref (protocol.Range_ change) ;;
      let '(spn, err) := RangeSpan uri content r in
      match err with
      | Some e => ret ([], Some e)
      | None =>
          if negb (span.HasOffset (span.Start spn)) then
            ret ([], Some ErrInvalidChangeRange)
          else
            start <- lift (span.OffsetOf (span.Start spn)) ;;
            end_ <- lift (span.OffsetOf (span.End_ spn)) ;;
            if end_ <? start then ret ([], Some ErrInvalidChangeRange)
            else if (start <? 0) || (len content <? start) || (len content <? end_) then
              panic (panic_error (runtime_Error "slice bounds out of range"))
            else
              apply_changes uri rest
                (slice_to content start ++ protocol.Text change ++ slice_from content end_)
      end
  end.

Definition ApplyIncrementalChanges (d : DocumentHandle)
           (changes : list protocol.TextDocumentContentChangeEvent) (version' : float)
  : M (list byte * option error) :=
  RLock ;;;
  defer RUnlock (
    doc <- get_doc ;;
    if PrimFloat.leb version' (version doc) then ret ([], Some ErrVersionNotIncreasing)
    else apply_changes (uri doc) changes (content doc)).

(** [SetContent].  The goroutine it starts at the end runs [compile] on a
    handle of the new context; it is a flow of its own and takes no part in
    the call. *)
Definition SetContent (d : DocumentHandle) (serverLifetime : Context)
           (content' : list byte) (version' : float) (new : bool) : M (option error) :=
  Lock ;;;
  defer Unlock (
    doc <- get_doc ;;
    if negb new && PrimFloat.leb version' (version doc) then
      ret (Some ErrVersionNotIncreasing)
    else if maxDocumentSize <? len content' then
      ret (Some ErrDocumentTooLarge)
    else
      (if negb new then
         obsoleteVersion <- deref (obsoleteVersion doc) ;;
         call_cancel obsoleteVersion
       else ret tt) ;;;
      c <- context_WithCancel serverLifetime ;;
      modify_doc (with_versionCtx (fst c) (snd c)) ;;;
      modify_doc (with_content content') ;;;
      modify_doc (with_version version') ;;;
      modify_doc (fun doc =>
                    with_posData (token.SetLinesForContent (posData doc) (content' ++ [x0a]))
                                 doc) ;;;
      modify_doc (with_queries []) ;;;
      modify_doc (with_yamls []) ;;;
      modify_doc (with_diagnostics []) ;;;
      Add 1 ;;;
      ret None).

Definition GetContent (d : DocumentHandle) : M (list byte * option error) :=
  RLock ;;;
  defer RUnlock (
    done <- ctx_Done (ctx d) ;;
    if done then err <- ctx_Err (ctx d) ;; ret ([], err)
    else doc <- get_doc ;; ret (content doc, None)).

Definition GetSubstring (d : DocumentHandle) (pos endPos : Z) : M (list byte * option error) :=
  RLock ;;;
  defer RUnlock (
    done <- ctx_Done (ctx d) ;;
    if done then err <- ctx_Err (ctx d) ;; ret ([], err)
    else
      doc <- get_doc ;;
      let content := content doc in
      let base := token.Base (posData doc) in
      let pos := int_sub pos base in
      let endPos := int_sub endPos base in
      if (pos <? 0) || (endPos <? pos) || (len content <? endPos) then
        ret ([], Some ErrInvalidRange)
      else ret (slice_from (slice_to content endPos) pos, None)).

Definition GetQueries (d : DocumentHandle) : M (list CompiledQuery * option error) :=
  Wait ;;;
  RLock ;;;
  defer RUnlock (
    done <- ctx_Done (ctx d) ;;
    if done then err <- ctx_Err (ctx d) ;; ret ([], err)
    else doc <- get_doc ;; ret (queries doc, None)).

(** The test of the loop of [GetQuery]. *)
Definition query_at (pos : Z) (query : CompiledQuery) : bool :=
  match Ast query with
  | None => false
  | Some ast =>
      (Pos query <=? pos)
      && (pos <=? int_add (Pos query) (End_ (NodePositionRange ast)))
  end.

Fixpoint first_query_at (pos : Z) (queries : list CompiledQuery) : option CompiledQuery :=
  match queries with
  | [] => None
  | query :: rest => if query_at pos query then Some query else first_query_at pos rest
  end.

Definition GetQuery (d : DocumentHandle) (pos : Z) : M (option CompiledQuery * option error) :=
  r <- GetQueries d ;;
  let '(queries, err) := r in
  match err with
  | Some e => ret (None, Some e)
  | None =>
      match first_query_at pos queries with
      | Some query => ret (Some query, None)
      | None => ret (None, Some ErrNotFound)
      end
  end.

Definition GetVersion (d : DocumentHandle) : M (float * option error) :=
  RLock ;;;
  defer RUnlock (
    done <- ctx_Done (ctx d) ;;
    if done then err <- ctx_Err (ctx d) ;; ret (0%float, err)
    else doc <- get_doc ;; ret (version doc, None)).

Definition GetURI (d : DocumentHandle) : M string :=
  doc <- get_doc ;; ret (uri doc).

Definition GetLanguageID (d : DocumentHandle) : M string :=
  doc <- get_doc ;; ret (languageID doc).

Definition GetYamls (d : DocumentHandle) : M (list YamlDoc * option error) :=
  RLock ;;;
  defer RUnlock (
    done <- ctx_Done (ctx d) ;;
    if done then err <- ctx_Err (ctx d) ;; ret ([], err)
    else doc <- get_doc ;; ret (yamls doc, None)).

Definition GetDiagnostics (d : DocumentHandle) : M (list protocol.Diagnostic * option error) :=
  Wait ;;;
  RLock ;;;
  defer RUnlock (
    done <- ctx_Done (ctx d) ;;
    if done then err <- ctx_Err (ctx d) ;; ret ([], err)
    else doc <- get_doc ;; ret (diagnostics doc, None)).

(** [LineStartSafe]: the deferred function recovers the panic of
    [LineStart]; the results are then the zero [token.Pos] and the panic
    value as an error, wrapped when it is not one. *)
Definition LineStartSafe (d : DocumentHandle) (line : Z) : M (Z * option error) :=
  recovering
    (fun r =>
       match r with
       | panic_error e => ret (0, Some e)
       | panic_string msg => ret (0, Some (ErrLineStartPanic msg))
       end)
    (doc <- get_doc ;;
     pos <- lift (token.LineStart (posData doc) line) ;;
     ret (pos, None)).

Definition PositionToProtocolPosition (d : DocumentHandle) (pos : token.Position)
  : M (protocol.Position * option error) :=
  RLock ;;;
  defer RUnlock (
    done <- ctx_Done (ctx d) ;;
    if done then err <- ctx_Err (ctx d) ;; ret (zero_Position, err)
    else
      let line := token.Line pos in
      let char := token.Column pos in
      if line <? 1 then
        ret ({| protocol.Line := 0%float; protocol.Character := 0%float |}, None)
      else
        r <- LineStartSafe d line ;;
        let '(lineStart, err) := r in
        match err with
        | Some e => ret (zero_Position, Some e)
        | None =>
            doc <- get_doc ;;
            let offset :=
              int_sub (int_add (int_sub lineStart (token.Base (posData doc))) char) 1 in
            let point := span.NewPoint line char offset in
            let '(char, err) := span.ToUTF16Column point (content doc) in
            let char := int_sub char 1 in
            let line := int_sub line 1 in
            match err with
            | Some e => ret (zero_Position, Some e)
            | None =>
                ret ({| protocol.Line := float64_of_int line;
                        protocol.Character := float64_of_int char |}, None)
            end
        end).

Definition ProtocolPositionToTokenPos (d : DocumentHandle) (pos : protocol.Position)
  : M (Z * option error) :=
  RLock ;;;
  defer RUnlock (
    done <- ctx_Done (ctx d) ;;
    if done then err <- ctx_Err (ctx d) ;; ret (0, err)
    else
      let line := int_add (int_of_float64 (protocol.Line pos)) 1 in
      let char := int_of_float64 (protocol.Character pos) in
      r <- LineStartSafe d line ;;
      let '(lineStart, err) := r in
      match err with
      | Some e => ret (token.NoPos, Some e)
      | None =>
          doc <- get_doc ;;
          let offset := int_sub lineStart (token.Base (posData doc)) in
          let point := span.NewPoint line 1 offset in
          let '(point, err) := span.FromUTF16Column point char (content doc) in
          match err with
          | Some e => ret (token.NoPos, Some e)
          | None =>
              char <- lift (span.ColumnOf point) ;;
              ret (int_add lineStart char, None)
          end
      end).

Definition YamlPositionToTokenPos (d : DocumentHandle) (line column lineOffset : Z)
  : M (Z * option error) :=
  RLock ;;;
  defer RUnlock (
    done <- ctx_Done (ctx d) ;;
    if done then err <- ctx_Err (ctx d) ;; ret (token.NoPos, err)
    else if column <? 1 then ret (0, Some ErrInvalidPosition)
    else
      r <- LineStartSafe d (int_add line lineOffset) ;;
      let '(lineStart, err) := r in
      match err with
      | Some e => ret (token.NoPos, Some e)
      | None => ret (int_add lineStart (int_sub column 1), None)
      end).

Definition TokenPosToTokenPosition (d : DocumentHandle) (pos : Z)
  : M (token.Position * option error) :=
  RLock ;;;
  defer RUnlock (
    done <- ctx_Done (ctx d) ;;
    if done then err <- ctx_Err (ctx d) ;; ret (zero_token_Position, err)
    else
      doc <- get_doc ;;
      p <- lift (token.PositionOf (posData doc) pos) ;;
      ret (p, None)).

Definition PosToProtocolPosition (d : DocumentHandle) (pos : Z)
  : M (protocol.Position * option error) :=
  doc <- get_doc ;;
  p <- lift (token.PositionOf (posData doc) pos) ;;
  PositionToProtocolPosition d p.

Definition EndOfLine (p : protocol.Position) : protocol.Position :=
  {| protocol.Line := PrimFloat.add (protocol.Line p) 1;
     protocol.Character := 0%float |}.

End Cache.

(** ** A column mapper for the examples *)

(** Modelled from the spec: [TokenConverter.ToOffset] of the vendored
    go-tools, on the converter [span.NewContentConverter] builds for a
    content: the offset of a (1-based line, 1-based byte column) is the
    start of the line plus the column minus 1; one line past the last is
    the end of the content. *)
Definition ToOffset (content : list byte) (line col : Z) : Z * option error :=
  let lines := token.lines_for content 0 0 [] in
  let lineMax := len lines + 1 in
  if line <? 0 then (-1, Some (fmt_Errorf "line is not valid"))
  else if lineMax <? line then (-1, Some (fmt_Errorf "line is beyond end of file"))
  else if line =? lineMax then
    if 1 <? col then (-1, Some (fmt_Errorf "column is beyond end of file"))
    else (len content, None)
  else if line =? 0 then (-1, Some (fmt_Errorf "line is not in file"))
  else
    let offset := nth (Z.to_nat (line - 1)) lines 0 + (col - 1) in
    if len content <? offset then (0, Some (fmt_Errorf "invalid pos"))
    else (offset, None).

(** Modelled from the spec: [protocol.ColumnMapper.Point] of the vendored
    go-tools: the point of a protocol position, by the inverse UTF-16 scan
    from the start of its line. *)
Definition mapper_Point (content : list byte) (p : protocol.Position)
  : span.Point * option error :=
  let line := int_add (int_of_float64 (protocol.Line p)) 1 in
  let '(offset, err) := ToOffset content line 1 in
  match err with
  | Some e => (span.zero, Some e)
  | None =>
      span.FromUTF16Column (span.NewPoint line 1 offset)
        (int_add (int_of_float64 (protocol.Character p)) 1) content
  end.

(** Modelled from the spec: [protocol.ColumnMapper.RangeSpan] of the
    vendored go-tools: it translates the two ends of a range in protocol
    coordinates to points with absolute byte offsets. *)
Definition mapper_RangeSpan (uri : string) (content : list byte) (r : protocol.Range)
  : span.Span * option error :=
  let '(start, err) := mapper_Point content (protocol.Start r) in
  match err with
  | Some e => ({| span.URI := uri; span.Start := span.zero; span.End_ := span.zero |}, Some e)
  | None =>
      let '(end_, err) := mapper_Point content (protocol.End_ r) in
      match err with
      | Some e => ({| span.URI := uri; span.Start := span.zero; span.End_ := span.zero |}, Some e)
      | None => ({| span.URI := uri; span.Start := start; span.End_ := end_ |}, None)
      end
  end.

(** The bytes of an ASCII string literal. *)
Definition bytes (s : string) : list byte := list_byte_of_string s.

(** A document as [SetContent] leaves it on first creation, once its
    compile task is through: file base 1, no reader and no writer. *)
Definition new_document (uri' : string) (content' : list byte) (version' : float) : state :=
  {| doc :=
       {| posData :=
            token.SetLinesForContent
              {| token.name := uri'; token.base := 1; token.size := 1000000000;
                 token.lines := [] |}
              (content' ++ [x0a]);
          uri := uri';
          languageID := "promql";
          version := version';
          content := content';
          mu := {| readers := O; writer := false |};
          versionCtx := Some (cancelCtx 0);
          obsoleteVersion := Some O;
          queries := [];
          yamls := [];
          diagnostics := [];
          compilers := {| pending := O |} |};
     ctxs := [{| parent := Background; canceled := false |}] |}.

(** The handle of the current version of a document. *)
Definition current_handle (s : state) : DocumentHandle :=
  {| ctx := match versionCtx (doc s) with Some c => c | None => Background end |}.

(** ** Notions the properties are stated with *)

(** Nobody holds the lock. *)
Definition lock_free (s : state) : bool :=
  negb (writer (mu (doc s))) && Nat.eqb (readers (mu (doc s))) 0.

(** The state a body runs in between [RLock] and [RUnlock]. *)
Definition rlocked (s : state) : state :=
  {| doc := with_mu {| readers := S (readers (mu (doc s))); writer := false |} (doc s);
     ctxs := ctxs s |}.

(** A computation that never blocks and gives the state back as it got it,
    whether it returns or panics. *)
Definition preserves {A : Type} (m : M A) : Prop :=
  forall s, match m s with
            | Returns _ s' | Panics _ s' => s' = s
            | Blocks => False
            end.

(** A call that hands an ordinary error value to its caller and leaves the
    state as it was. *)
Definition returns_error {A : Type} (o : outcome (A * option error)) (s : state) : Prop :=
  exists a e, o = Returns (a, Some e) s.

(** The offset [pos] lies in the closed span of a query that has a syntax
    tree: from its start to its start plus the end of the tree's range. *)
Definition in_span (pos : Z) (query : CompiledQuery) : Prop :=
  exists ast, Ast query = Some ast /\
    Pos query <= pos <= int_add (Pos query) (End_ (NodePositionRange ast)).

(** The cancel function of the document is the one of its version context,
    and that context is in the store: what [SetContent] establishes. *)
Definition version_ctx_wf (s : state) : Prop :=
  exists i, versionCtx (doc s) = Some (cancelCtx i) /\
            obsoleteVersion (doc s) = Some i /\
            (i < length (ctxs s))%nat.

(** ** Example documents *)

(** The two lines "foo" and "bar", at version 1. *)
Definition foo_bar : state :=
  new_document "file:///rules.promql" (bytes "foo" ++ [x0a] ++ bytes "bar") 1%float.

(** "h", e with acute accent (two bytes), "llo". *)
Definition hello_accent : state :=
  new_document "file:///rules.promql" [x68; xc3; xa9; x6c; x6c; x6f] 1%float.

(** The state of a call that returned. *)
Definition state_after {A : Type} (o : outcome A) (otherwise : state) : state :=
  match o with
  | Returns _ s => s
  | Panics _ s => s
  | Blocks => otherwise
  end.

(** [foo_bar] after an edit to "foo" at version 2, with a document limit of
    100 bytes; its compile task is in flight. *)
Definition foo_bar_edited : state :=
  state_after
    (SetContent 100 (current_handle foo_bar) Background (bytes "foo") 2%float false foo_bar)
    foo_bar.

Definition position (line column offset : Z) : token.Position :=
  {| token.Filename := "file:///rules.promql"; token.Offset := offset;
     token.Line := line; token.Column := column |}.

Definition protocol_position (line character : float) : protocol.Position :=
  {| protocol.Line := line; protocol.Character := character |}.

(** A document whose compile task has published the queries [qs]. *)
Definition published_queries (qs : list CompiledQuery) (s : state) : state :=
  {| doc := with_queries qs (doc s); ctxs := ctxs s |}.

(** A query of [len] bytes that starts at offset [offset] of a file of base
    1 and parsed. *)
Definition parsed_query (offset len : Z) : CompiledQuery :=
  {| Pos := 1 + offset;
     Ast := Some {| NodePositionRange := {| Start := 0; End_ := len |} |} |}.

(** [foo_bar] with its two queries, "foo" and "bar". *)
Definition foo_bar_compiled : state :=
  published_queries [parsed_query 0 3; parsed_query 4 3] foo_bar.

(** What an obsolete handle gets from the methods that check its context:
    the error of the context from those that do not wait, and from those
    that wait for the compile tasks the same error once the counter is zero,
    a suspension before. *)
Definition fails_obsolete (h : DocumentHandle) (t : state) : Prop :=
  GetContent h t = Returns ([], Some context_Canceled) t /\
  (forall pos endPos, GetSubstring h pos endPos t = Returns ([], Some context_Canceled) t) /\
  GetVersion h t = Returns (0%float, Some context_Canceled) t /\
  GetYamls h t = Returns ([], Some context_Canceled) t /\
  (forall pos,
      PositionToProtocolPosition h pos t = Returns (zero_Position, Some context_Canceled) t) /\
  (forall pos, ProtocolPositionToTokenPos h pos t = Returns (0, Some context_Canceled) t) /\
  (forall line column lineOffset,
      YamlPositionToTokenPos h line column lineOffset t
      = Returns (token.NoPos, Some context_Canceled) t) /\
  (forall pos,
      TokenPosToTokenPosition h pos t = Returns (zero_token_Position, Some context_Canceled) t) /\
  match pending (compilers (doc t)) with
  | O =>
      GetQueries h t = Returns ([], Some context_Canceled) t /\
      GetDiagnostics h t = Returns ([], Some context_Canceled) t /\
      (forall pos, GetQuery h pos t = Returns (None, Some context_Canceled) t)
  | S _ =>
      GetQueries h t = Blocks /\ GetDiagnostics h t = Blocks /\
      (forall pos, GetQuery h pos t = Blocks)
  end.

(** An edit without range, and an edit of a range on one line. *)
Definition whole_document_edit (text : list byte) : protocol.TextDocumentContentChangeEvent :=
  {| protocol.Range_ := None; protocol.Text := text |}.

Definition range_edit (line from to : float) (text : list byte)
  : protocol.TextDocumentContentChangeEvent :=
  {| protocol.Range_ :=
       Some {| protocol.Start := protocol_position line from;
               protocol.End_ := protocol_position line to |};
     protocol.Text := text |}.

(** [foo_bar] after a [SetContent] to "foo" at version 2 that claims to be
    the first of the document. *)
Definition foo_bar_reset : state :=
  state_after
    (SetContent 100 (current_handle foo_bar) Background (bytes "foo") 2%float true foo_bar)
    foo_bar.

(** Every context of the store was made from the background context or from
    a context made before it. *)
Definition ctxs_wf (cs : list ctxEntry) : Prop :=
  forall i e, cs !! i = Some e ->
    match parent e with
    | Background => True
    | cancelCtx j => (j < i)%nat
    end.

(** The store [cs'] is a later stage of [cs]: the contexts of [cs] are still
    there with their parents, and those cancelled stay cancelled. *)
Definition extends (cs cs' : list ctxEntry) : Prop :=
  (length cs <= length cs')%nat /\
  forall i e, cs !! i = Some e ->
    exists e', cs' !! i = Some e' /\ parent e' = parent e /\
               (canceled e = true -> canceled e' = true).

(** A byte of a line that is one ASCII character and not the end of the
    line. *)
Definition ascii_in_line (b : byte) : Prop := byte_val b < 0x80 /\ byte_val b <> 10.

(** The state a body runs in between [Lock] and [Unlock]. *)
Definition wlocked (s : state) : state :=
  {| doc := with_mu {| readers := O; writer := true |} (doc s); ctxs := ctxs s |}.

(** The state an accepted [SetContent] leaves, from the document it found and
    the store [cs] in which the new context is made. *)
Definition updated (lifetime : Context) (content' : list byte) (version' : float)
           (cs : list ctxEntry) (d : document) : state :=
  {| doc :=
       {| posData := token.SetLinesForContent (posData d) (content' ++ [x0a]);
          uri := uri d;
          languageID := languageID d;
          version := version';
          content := content';
          mu := mu d;
          versionCtx := Some (cancelCtx (length cs));
          obsoleteVersion := Some (length cs);
          queries := [];
          yamls := [];
          diagnostics := [];
          compilers := {| pending := S (pending (compilers d)) |} |};
     ctxs := cs ++ [{| parent := lifetime; canceled := false |}] |}.

(** ** Notions of the further properties *)

(** A call that reads under the read lock: it is suspended exactly when a
    writer holds the lock, and on every other way out, return or panic, it
    leaves the state as it found it. *)
Definition reads_under_lock {A : Type} (m : M A) : Prop :=
  forall s, match m s with
            | Returns _ s' | Panics _ s' => s' = s /\ writer (mu (doc s)) = false
            | Blocks => writer (mu (doc s)) = true
            end.

(** A call that waits for the compile tasks and then reads under the read
    lock: it is suspended exactly when a task is in flight or a writer holds
    the lock. *)
Definition reads_after_wait {A : Type} (m : M A) : Prop :=
  forall s, match m s with
            | Returns _ s' | Panics _ s' =>
                s' = s /\ pending (compilers (doc s)) = O /\ writer (mu (doc s)) = false
            | Blocks => pending (compilers (doc s)) <> O \/ writer (mu (doc s)) = true
            end.

(** A call that leaves the state as it found it, whether it returns or
    panics, and that only a writer that holds the lock suspends. *)
Definition read_only {A : Type} (m : M A) : Prop :=
  forall s, match m s with
            | Returns _ s' | Panics _ s' => s' = s
            | Blocks => writer (mu (doc s)) = true
            end.

(** The starts of the lines that follow a line end: one past each newline of
    [content], whose first byte is at [offset]. *)
Fixpoint line_starts_after (content : list byte) (offset : Z) : list Z :=
  match content with
  | [] => []
  | b :: rest =>
      (if byte_val b =? 10 then [offset + 1] else [])
        ++ line_starts_after rest (offset + 1)
  end.

(** The line table of the document is the one of its content: line 1 at
    offset 0, and a line after every newline. *)
Definition indexed (s : state) : Prop :=
  token.lines (posData (doc s)) = 0 :: line_starts_after (content (doc s)) 0.

(** The file of the document lies within the range of [int], from a base
    that is not negative. *)
Definition file_in_range (s : state) : Prop :=
  0 <= token.base (posData (doc s)) /\
  0 <= token.size (posData (doc s)) /\
  len (content (doc s)) <= token.size (posData (doc s)) /\
  token.base (posData (doc s)) + token.size (posData (doc s)) + 1 < 2 ^ 63.

(** Two calls with the same result: the same values returned, or the same
    panic, or both suspended; the states they leave are not compared. *)
Definition same_result {A : Type} (o1 o2 : outcome A) : Prop :=
  match o1, o2 with
  | Returns a _, Returns b _ => a = b
  | Panics v _, Panics w _ => v = w
  | Blocks, Blocks => True
  | _, _ => False
  end.

(** The state with another content, all else as it is. *)
Definition with_stored_content (text : list byte) (s : state) : state :=
  {| doc := with_content text (doc s); ctxs := ctxs s |}.

(** ** The earlier [Document] interface

    The version of [document.go] before handles: the methods are on the
    document, a getter takes the context as an argument, and the version
    context is made from the background context. *)

Module legacy.

(** [Document.ApplyIncrementalChanges].  The read lock is released by hand
    before the loop, and only there; the loop is the one of the current
    version, statement by statement. *)
Definition ApplyIncrementalChanges
           (RangeSpan : string -> list byte -> protocol.Range -> span.Span * option error)
           (changes : list protocol.TextDocumentContentChangeEvent) (version' : float)
  : M (list byte * option error) :=
  RLock ;;;
  doc <- get_doc ;;
  if PrimFloat.leb version' (version doc) then ret ([], Some ErrVersionNotIncreasing)
  else
    let content := content doc in
    let uri := uri doc in
    RUnlock ;;;
    apply_changes RangeSpan uri changes content.

(** [Document.SetContent]. *)
Definition SetContent (maxDocumentSize : Z) (content' : list byte) (version' : float)
           (new : bool) : M (option error) :=
  Lock ;;;
  defer Unlock (
    doc <- get_doc ;;
    if negb new && PrimFloat.leb version' (version doc) then
      ret (Some ErrVersionNotIncreasing)
    else if maxDocumentSize <? len content' then
      ret (Some ErrDocumentTooLarge)
    else
      (if negb new then
         obsoleteVersion <- deref (obsoleteVersion doc) ;;
         call_cancel obsoleteVersion
       else ret tt) ;;;
      c <- context_WithCancel Background ;;
      modify_doc (with_versionCtx (fst c) (snd c)) ;;;
      modify_doc (with_content content') ;;;
      modify_doc (with_version version') ;;;
      modify_doc (fun doc =>
                    with_posData (token.SetLinesForContent (posData doc) (content' ++ [x0a]))
                                 doc) ;;;
      modify_doc (with_queries []) ;;;
      modify_doc (with_yamls []) ;;;
      modify_doc (with_diagnostics []) ;;;
      Add 1 ;;;
      ret None).

End legacy.

(** A document on which no [SetContent] has been accepted: the zero value
    of the struct but for the file and the names. *)
Definition unopened_document : state :=
  {| doc :=
       {| posData := {| token.name := "file:///rules.promql"; token.base := 1;
                        token.size := 1000000000; token.lines := [] |};
          uri := "file:///rules.promql";
          languageID := "promql";
          version := 0%float;
          content := [];
          mu := {| readers := O; writer := false |};
          versionCtx := None;
          obsoleteVersion := None;
          queries := [];
          yamls := [];
          diagnostics := [];
          compilers := {| pending := O |} |};
     ctxs := [] |}.

(** * Properties *)

(** ** The bounds of the loops *)

Lemma len_cons {A : Type} (x : A) (l : list A) : len (x :: l) = len l + 1.
Proof. unfold len. simpl length. lia. Qed.

(** A rune of a non-empty input takes from one to four bytes. *)
Lemma DecodeRune_width (p : list byte) :
  p <> [] -> 1 <= snd (utf8.DecodeRune p) <= 4.
Proof.
  intros Hp. unfold utf8.DecodeRune.
  destruct p as [|b p]; [contradiction|].
  rewrite len_cons.
  assert (Hn : (len p + 1 <? 1) = false) by (apply Z.ltb_ge; unfold len; lia).
  rewrite Hn.
  repeat match goal with
         | |- context [if ?c then _ else _] => destruct c
         end; simpl; lia.
Qed.

Lemma length_slice_from (p : list byte) (w : Z) :
  p <> [] -> 1 <= w -> (length (slice_from p w) < length p)%nat.
Proof.
  intros Hp Hw. unfold slice_from. rewrite length_drop.
  destruct p; [contradiction|]. simpl length. lia.
Qed.

(** The scan of [FromUTF16Column] does not depend on its bound once the
    bound exceeds the bytes left: the loop ends by itself. *)
Lemma scan_fuel_enough (n : nat) :
  forall fuel1 fuel2 count chr remains p,
    (length remains <= n)%nat ->
    (length remains < fuel1)%nat -> (length remains < fuel2)%nat ->
    span.scan fuel1 count chr remains p = span.scan fuel2 count chr remains p.
Proof.
  induction n as [|n IH]; intros fuel1 fuel2 count chr remains p Hn H1 H2;
    (destruct fuel1 as [|fuel1]; [lia|]); (destruct fuel2 as [|fuel2]; [lia|]); simpl.
  - destruct remains; [|simpl in Hn; lia]. reflexivity.
  - destruct (count <? chr); [|reflexivity].
    destruct remains as [|b remains]; [reflexivity|].
    destruct (len (b :: remains) <=? 0); [reflexivity|].
    pose proof (DecodeRune_width (b :: remains) ltac:(discriminate)) as Hw.
    destruct (utf8.DecodeRune (b :: remains)) as [r w]. simpl in Hw.
    pose proof (length_slice_from (b :: remains) w ltac:(discriminate) ltac:(lia)) as Hlen.
    simpl length in *.
    destruct (r =? 10); [reflexivity|].
    destruct (65536 <=? r).
    + destruct (chr <=? count + 1); [reflexivity|]. apply IH; lia.
    + apply IH; lia.
Qed.

(** Likewise the conversion of bytes to runes. *)
Lemma runes_fuel_enough (n : nat) :
  forall fuel1 fuel2 p,
    (length p <= n)%nat -> (length p <= fuel1)%nat -> (length p <= fuel2)%nat ->
    utf8.runes_fuel fuel1 p = utf8.runes_fuel fuel2 p.
Proof.
  induction n as [|n IH]; intros fuel1 fuel2 p Hn H1 H2.
  - destruct p; [|simpl in Hn; lia]. destruct fuel1, fuel2; reflexivity.
  - destruct p as [|b p]; [destruct fuel1, fuel2; reflexivity|].
    destruct fuel1 as [|fuel1]; [simpl in H1; lia|].
    destruct fuel2 as [|fuel2]; [simpl in H2; lia|].
    simpl.
    pose proof (DecodeRune_width (b :: p) ltac:(discriminate)) as Hw.
    destruct (utf8.DecodeRune (b :: p)) as [r w]. simpl in Hw.
    pose proof (length_slice_from (b :: p) w ltac:(discriminate) ltac:(lia)) as Hlen.
    simpl length in *. f_equal. apply IH; lia.
Qed.

(** ** The store of contexts *)

(** In a well-formed store the chain of parents of context [i] is followed
    to its end within [S i] steps. *)
Lemma Done_fuel_enough (cs : list ctxEntry) :
  ctxs_wf cs ->
  forall i fuel, (i < fuel)%nat ->
    Done_fuel fuel cs (cancelCtx i) = Done_fuel (S i) cs (cancelCtx i).
Proof.
  intros Hwf i. induction i as [i IH] using lt_wf_ind.
  intros fuel Hf. destruct fuel as [|fuel]; [lia|]. simpl.
  destruct (cs !! i) as [e|] eqn:He; [|reflexivity].
  f_equal. specialize (Hwf i e He).
  destruct (parent e) as [|j].
  - destruct fuel, i; reflexivity.
  - rewrite (IH j Hwf fuel) by lia. rewrite (IH j Hwf i) by lia. reflexivity.
Qed.

(** So [Done] is the recursive reading of the store: a context is done when
    it was cancelled or its parent is done. *)
Lemma Done_equation (cs : list ctxEntry) (i : nat) (e : ctxEntry) :
  ctxs_wf cs -> cs !! i = Some e ->
  Done cs (cancelCtx i) = canceled e || Done cs (parent e).
Proof.
  intros Hwf He. unfold Done.
  assert (Hstep : Done_fuel (S (length cs)) cs (cancelCtx i)
                  = canceled e || Done_fuel (length cs) cs (parent e))
    by (simpl; rewrite He; reflexivity).
  rewrite Hstep. f_equal.
  pose proof (Hwf i e He) as Hp. pose proof (lookup_lt_Some cs i e He) as Hi.
  destruct (parent e) as [|j].
  - destruct (length cs); reflexivity.
  - rewrite (Done_fuel_enough cs Hwf j (length cs)) by lia.
    rewrite (Done_fuel_enough cs Hwf j (S (length cs))) by lia. reflexivity.
Qed.

Lemma ctxs_wf_cancel (i : nat) (cs : list ctxEntry) : ctxs_wf cs -> ctxs_wf (cancel i cs).
Proof.
  intros Hwf j e. unfold cancel. destruct (cs !! i) as [e0|] eqn:Hi; [|apply Hwf].
  destruct (decide (i = j)) as [->|Hne].
  - rewrite list_lookup_insert_eq by (eapply lookup_lt_Some; eauto).
    intros He. injection He as <-. simpl. exact (Hwf j e0 Hi).
  - rewrite list_lookup_insert_ne by exact Hne. apply Hwf.
Qed.

Lemma ctxs_wf_WithCancel (parent' : Context) (cs : list ctxEntry) :
  ctxs_wf cs ->
  match parent' with Background => True | cancelCtx j => (j < length cs)%nat end ->
  ctxs_wf (snd (WithCancel parent' cs)).
Proof.
  intros Hwf Hp i e. simpl. intros He.
  apply lookup_app_Some in He. destruct He as [He|[Hlen He]]; [exact (Hwf i e He)|].
  apply list_lookup_singleton_Some in He. destruct He as [Hi <-]. simpl.
  destruct parent'; [exact I|lia].
Qed.

Lemma Done_fuel_mono (cs : list ctxEntry) (fuel : nat) :
  forall fuel' c, (fuel <= fuel')%nat ->
    Done_fuel fuel cs c = true -> Done_fuel fuel' cs c = true.
Proof.
  induction fuel as [|fuel IH]; intros fuel' c Hle H.
  - destruct c; discriminate.
  - destruct c as [|i]; [discriminate|].
    destruct fuel' as [|fuel']; [lia|]. simpl in *.
    destruct (cs !! i) as [e|]; [|discriminate].
    apply orb_true_iff in H. apply orb_true_iff.
    destruct H as [H|H]; [left; exact H|right]. apply IH; [lia|exact H].
Qed.

(** A context that is done stays done in every later stage of the store. *)
Lemma Done_extends (cs cs' : list ctxEntry) (c : Context) :
  extends cs cs' -> Done cs c = true -> Done cs' c = true.
Proof.
  intros [Hlen Hext] H. unfold Done in *.
  apply Done_fuel_mono with (fuel := S (length cs)); [lia|].
  revert c H. generalize (S (length cs)) as fuel.
  induction fuel as [|fuel IH]; intros c H.
  - destruct c; discriminate.
  - destruct c as [|i]; [discriminate|]. simpl in *.
    destruct (cs !! i) as [e|] eqn:He; [|discriminate].
    destruct (Hext i e He) as (e' & He' & Hp & Hc). rewrite He'.
    apply orb_true_iff in H. apply orb_true_iff.
    destruct H as [H|H]; [left; auto|right]. rewrite Hp. apply IH. exact H.
Qed.

Lemma extends_refl (cs : list ctxEntry) : extends cs cs.
Proof. split; [lia|]. intros i e He. exists e. auto. Qed.

Lemma extends_trans (cs1 cs2 cs3 : list ctxEntry) :
  extends cs1 cs2 -> extends cs2 cs3 -> extends cs1 cs3.
Proof.
  intros [Hl1 H1] [Hl2 H2]. split; [lia|]. intros i e He.
  destruct (H1 i e He) as (e' & He' & Hp' & Hc').
  destruct (H2 i e' He') as (e'' & He'' & Hp'' & Hc'').
  exists e''. repeat split; [exact He''|congruence|auto].
Qed.

Lemma length_cancel (i : nat) (cs : list ctxEntry) : length (cancel i cs) = length cs.
Proof. unfold cancel. destruct (cs !! i); [apply length_insert|reflexivity]. Qed.

Lemma extends_cancel (i : nat) (cs : list ctxEntry) : extends cs (cancel i cs).
Proof.
  split; [rewrite length_cancel; lia|].
  intros j e He. unfold cancel. destruct (cs !! i) as [e0|] eqn:Hi.
  - destruct (decide (i = j)) as [->|Hne].
    + exists {| parent := parent e0; canceled := true |}.
      rewrite list_lookup_insert_eq by (eapply lookup_lt_Some; eauto).
      assert (e0 = e) as -> by congruence. auto.
    + exists e. rewrite list_lookup_insert_ne by exact Hne. auto.
  - exists e. auto.
Qed.

Lemma extends_app (cs : list ctxEntry) (e : ctxEntry) : extends cs (cs ++ [e]).
Proof.
  split; [rewrite length_app; simpl; lia|].
  intros j e0 He. exists e0. rewrite lookup_app_l by (eapply lookup_lt_Some; eauto). auto.
Qed.

(** ** The lock and the frame of a method *)

Lemma with_mu_same (d : document) : with_mu (mu d) d = d.
Proof. destruct d; reflexivity. Qed.

Lemma RUnlock_rlocked (s : state) :
  writer (mu (doc s)) = false -> RUnlock (rlocked s) = Returns tt s.
Proof.
  destruct s as [d cs]; destruct d as [? ? ? ? ? [r w] ? ? ? ? ? ?]; simpl.
  intros ->. reflexivity.
Qed.

Lemma RLock_free (s : state) :
  writer (mu (doc s)) = false -> RLock s = Returns tt (rlocked s).
Proof. unfold RLock, rlocked. intros ->. reflexivity. Qed.

Lemma RLock_held (s : state) : writer (mu (doc s)) = true -> RLock s = Blocks.
Proof. unfold RLock. intros ->. reflexivity. Qed.

(** A body that returns [a] and leaves the state alone, run under the read
    lock: the call returns [a] and the lock is as before. *)
Lemma read_section_returns {A : Type} (body : M A) (a : A) (s : state) :
  writer (mu (doc s)) = false ->
  body (rlocked s) = Returns a (rlocked s) ->
  (RLock ;;; defer RUnlock body) s = Returns a s.
Proof.
  intros Hw Hb. unfold bind, defer. rewrite (RLock_free s Hw), Hb.
  rewrite (RUnlock_rlocked s Hw). reflexivity.
Qed.

Lemma read_section_panics {A : Type} (body : M A) (v : panic_value) (s : state) :
  writer (mu (doc s)) = false ->
  body (rlocked s) = Panics v (rlocked s) ->
  (RLock ;;; defer RUnlock body) s = Panics v s.
Proof.
  intros Hw Hb. unfold bind, defer. rewrite (RLock_free s Hw), Hb.
  rewrite (RUnlock_rlocked s Hw). reflexivity.
Qed.

Lemma read_section_blocks {A : Type} (body : M A) (s : state) :
  writer (mu (doc s)) = true -> (RLock ;;; defer RUnlock body) s = Blocks.
Proof. intros Hw. unfold bind. rewrite (RLock_held s Hw). reflexivity. Qed.

Lemma preserves_ret {A : Type} (a : A) : preserves (ret a).
Proof. intros s. reflexivity. Qed.

Lemma preserves_panic {A : Type} (v : panic_value) : preserves (@panic A v).
Proof. intros s. reflexivity. Qed.

Lemma preserves_lift {A : Type} (r : may_panic A) : preserves (lift r).
Proof. destruct r; intros s; reflexivity. Qed.

Lemma preserves_deref {A : Type} (p : option A) : preserves (deref p).
Proof. destruct p; intros s; reflexivity. Qed.

Lemma preserves_get_doc : preserves get_doc.
Proof. intros s. reflexivity. Qed.

Lemma preserves_ctx_Done (c : Context) : preserves (ctx_Done c).
Proof. intros s. reflexivity. Qed.

Lemma preserves_ctx_Err (c : Context) : preserves (ctx_Err c).
Proof. intros s. reflexivity. Qed.

Lemma preserves_bind {A B : Type} (m : M A) (k : A -> M B) :
  preserves m -> (forall a, preserves (k a)) -> preserves (bind m k).
Proof.
  intros Hm Hk s. unfold bind. specialize (Hm s).
  destruct (m s) as [a s'|v s'|]; subst; auto. apply Hk.
Qed.

Lemma preserves_recovering {A : Type} (handler : panic_value -> M A) (body : M A) :
  preserves body -> (forall v, preserves (handler v)) -> preserves (recovering handler body).
Proof.
  intros Hb Hh s. unfold recovering. specialize (Hb s).
  destruct (body s) as [a s'|v s'|]; subst; auto. apply Hh.
Qed.

(** A preserving body under the read lock: the call blocks exactly when a
    writer holds the lock, and on every other way out, return or panic, the
    deferred [RUnlock] has taken the reader off again. *)
Lemma read_section_preserves {A : Type} (body : M A) :
  preserves body ->
  forall s, match (RLock ;;; defer RUnlock body) s with
            | Returns _ s' | Panics _ s' => s' = s /\ writer (mu (doc s)) = false
            | Blocks => writer (mu (doc s)) = true
            end.
Proof.
  intros Hb s. unfold bind, defer.
  destruct (writer (mu (doc s))) eqn:Hw.
  - rewrite (RLock_held s Hw). reflexivity.
  - rewrite (RLock_free s Hw). specialize (Hb (rlocked s)).
    destruct (body (rlocked s)) as [a s'|v s'|]; subst; [| |contradiction];
      rewrite (RUnlock_rlocked s Hw); auto.
Qed.

Lemma bind_Returns {A B : Type} (m : M A) (k : A -> M B) (s s1 : state) (a : A) :
  m s = Returns a s1 -> bind m k s = k a s1.
Proof. intros H. unfold bind. rewrite H. reflexivity. Qed.

Lemma bind_Panics {A B : Type} (m : M A) (k : A -> M B) (s s1 : state) (v : panic_value) :
  m s = Panics v s1 -> bind m k s = Panics v s1.
Proof. intros H. unfold bind. rewrite H. reflexivity. Qed.

Lemma bind_Blocks {A B : Type} (m : M A) (k : A -> M B) (s : state) :
  m s = Blocks -> bind m k s = Blocks.
Proof. intros H. unfold bind. rewrite H. reflexivity. Qed.

Lemma Lock_free (s : state) : lock_free s = true -> Lock s = Returns tt (wlocked s).
Proof.
  unfold lock_free, Lock, wlocked. intros H. apply andb_true_iff in H.
  destruct H as [Hw Hr]. apply negb_true_iff in Hw. apply Nat.eqb_eq in Hr.
  rewrite Hw, Hr. reflexivity.
Qed.

Lemma Lock_held (s : state) : lock_free s = false -> Lock s = Blocks.
Proof.
  unfold lock_free, Lock. destruct (writer (mu (doc s))); [reflexivity|].
  destruct (readers (mu (doc s))); [discriminate|reflexivity].
Qed.

Lemma Unlock_wlocked (s : state) : lock_free s = true -> Unlock (wlocked s) = Returns tt s.
Proof.
  unfold lock_free. intros H. apply andb_true_iff in H. destruct H as [Hw Hr].
  apply negb_true_iff in Hw. apply Nat.eqb_eq in Hr.
  destruct s as [[pd u l v c [r w] vc ov q y dg cp] cs]. simpl in *. subst. reflexivity.
Qed.

Create HintDb frame.
#[local] Hint Resolve preserves_ret preserves_panic preserves_lift preserves_deref
  preserves_get_doc preserves_ctx_Done preserves_ctx_Err
  preserves_bind preserves_recovering : frame.

(** Under the read lock the contexts and all of the document but the lock
    are those of the caller's state. *)
Lemma Done_rlocked (s : state) (c : Context) : Done (ctxs (rlocked s)) c = Done (ctxs s) c.
Proof. reflexivity. Qed.

(** ** [SetContent] *)

Section SetContentOutcome.

Variable maxDocumentSize : Z.

(** [SetContent], case by case: it waits for the lock; it refuses a version
    that does not increase, then a content that is too large, and leaves the
    state alone; else it calls the cancel function of the document unless the
    document is new, makes the new context and swaps the state. *)
Lemma SetContent_outcome (d : DocumentHandle) (lifetime : Context) (content' : list byte)
      (version' : float) (new : bool) (s : state) :
  SetContent maxDocumentSize d lifetime content' version' new s =
  if lock_free s then
    if negb new && PrimFloat.leb version' (version (doc s)) then
      Returns (Some ErrVersionNotIncreasing) s
    else if maxDocumentSize <? len content' then
      Returns (Some ErrDocumentTooLarge) s
    else if new then
      Returns None (updated lifetime content' version' (ctxs s) (doc s))
    else
      match obsoleteVersion (doc s) with
      | Some i =>
          Returns None (updated lifetime content' version' (cancel i (ctxs s)) (doc s))
      | None => Panics nil_dereference s
      end
  else Blocks.
Proof.
  unfold SetContent.
  destruct (lock_free s) eqn:Hfree.
  2:{ apply bind_Blocks. apply Lock_held. exact Hfree. }
  rewrite (bind_Returns _ _ _ _ _ (Lock_free s Hfree)).
  unfold defer.
  rewrite (bind_Returns get_doc _ (wlocked s) (wlocked s) (doc (wlocked s)) eq_refl).
  change (version (doc (wlocked s))) with (version (doc s)).
  destruct (negb new && PrimFloat.leb version' (version (doc s))).
  { unfold ret. rewrite (Unlock_wlocked s Hfree). reflexivity. }
  destruct (maxDocumentSize <? len content').
  { unfold ret. rewrite (Unlock_wlocked s Hfree). reflexivity. }
  change (obsoleteVersion (doc (wlocked s))) with (obsoleteVersion (doc s)).
  unfold lock_free in Hfree. apply andb_true_iff in Hfree. destruct Hfree as [Hw Hr].
  apply negb_true_iff in Hw. apply Nat.eqb_eq in Hr.
  destruct s as [[pd u l v c [r w] vc ov q y dg cp] cs]. simpl in Hw, Hr. subst r w.
  destruct new.
  - reflexivity.
  - destruct ov as [i|]; reflexivity.
Qed.

(** The two refusals. *)
Lemma SetContent_refuses (d : DocumentHandle) (lifetime : Context) (content' : list byte)
      (version' : float) (new : bool) (s : state) (e : error) :
  (if negb new && PrimFloat.leb version' (version (doc s)) then Some ErrVersionNotIncreasing
   else if maxDocumentSize <? len content' then Some ErrDocumentTooLarge
   else None) = Some e ->
  SetContent maxDocumentSize d lifetime content' version' new s =
    if lock_free s then Returns (Some e) s else Blocks.
Proof.
  intros He. rewrite SetContent_outcome.
  destruct (lock_free s); [|reflexivity].
  destruct (negb new && PrimFloat.leb version' (version (doc s))).
  - injection He as <-. reflexivity.
  - destruct (maxDocumentSize <? len content'); [|discriminate].
    injection He as <-. reflexivity.
Qed.

(** C6.  [SetContent] with [new] false and a version that is less than or
    equal to the stored one: in every state of the document the call, once
    it holds the lock, returns the error "Update to file didn't increase
    version number" (VersionNotIncreasing), and the state it leaves is the
    state it found: content, version, line table, queries, yamls,
    diagnostics, version context and cancel function, wait group, lock. *)
Theorem SetContent_version_not_increasing (d : DocumentHandle) (lifetime : Context)
        (content' : list byte) (version' : float) (s : state) :
  PrimFloat.leb version' (version (doc s)) = true ->
  SetContent maxDocumentSize d lifetime content' version' false s =
    if lock_free s then Returns (Some ErrVersionNotIncreasing) s else Blocks.
Proof.
  intros Hle. apply SetContent_refuses. simpl. rewrite Hle. reflexivity.
Qed.

(** C7.  [SetContent] with a content longer than [maxDocumentSize]: in every
    state the call, once it holds the lock, returns an error and leaves the
    state as it found it.  The size is checked after the version: the error
    is "Provided.document to large." (DocumentTooLarge) unless the version
    check has already refused the call. *)
Theorem SetContent_document_too_large (d : DocumentHandle) (lifetime : Context)
        (content' : list byte) (version' : float) (new : bool) (s : state) :
  maxDocumentSize < len content' ->
  SetContent maxDocumentSize d lifetime content' version' new s =
    if lock_free s then
      Returns (Some (if negb new && PrimFloat.leb version' (version (doc s))
                     then ErrVersionNotIncreasing else ErrDocumentTooLarge)) s
    else Blocks.
Proof.
  intros Hlen. apply SetContent_refuses.
  destruct (negb new && PrimFloat.leb version' (version (doc s))); [reflexivity|].
  apply Z.ltb_lt in Hlen. rewrite Hlen. reflexivity.
Qed.

End SetContentOutcome.

Lemma SetContent_version_not_increasing_witness :
  PrimFloat.leb 1 (version (doc foo_bar)) = true /\
  SetContent 100 (current_handle foo_bar) Background (bytes "foo") 1%float false foo_bar
  = Returns (Some ErrVersionNotIncreasing) foo_bar.
Proof.
  split; [reflexivity|].
  exact (SetContent_version_not_increasing 100 (current_handle foo_bar) Background
           (bytes "foo") 1%float foo_bar eq_refl).
Defined.

Lemma SetContent_document_too_large_witness :
  2 < len (bytes "foo") /\
  SetContent 2 (current_handle foo_bar) Background (bytes "foo") 2%float false foo_bar
  = Returns (Some ErrDocumentTooLarge) foo_bar.
Proof.
  split; [reflexivity|].
  exact (SetContent_document_too_large 2 (current_handle foo_bar) Background
           (bytes "foo") 2%float false foo_bar eq_refl).
Defined.

(** ** [ApplyIncrementalChanges] *)

Section IncrementalChanges.

Variable RangeSpan : string -> list byte -> protocol.Range -> span.Span * option error.

(** The loop works on a copy of the content and touches nothing else. *)
Lemma preserves_apply_changes (uri' : string)
      (changes : list protocol.TextDocumentContentChangeEvent) :
  forall content', preserves (apply_changes RangeSpan uri' changes content').
Proof.
  induction changes as [|change rest IH]; intros content'; simpl.
  - apply preserves_ret.
  - apply preserves_bind; [apply preserves_deref|]. intros r.
    destruct (RangeSpan uri' content' r) as [spn [e|]]; [apply preserves_ret|].
    destruct (negb (span.HasOffset (span.Start spn))); [apply preserves_ret|].
    apply preserves_bind; [apply preserves_lift|]. intros start.
    apply preserves_bind; [apply preserves_lift|]. intros end_.
    destruct (end_ <? start); [apply preserves_ret|].
    destruct ((start <? 0) || (len content' <? start) || (len content' <? end_));
      [apply preserves_panic|apply IH].
Qed.

(** C9.  [ApplyIncrementalChanges] only computes: whether it returns the
    spliced text, returns an error or panics, the state it leaves is the
    state it found, with the content, the version, the line table, the
    queries, yamls and diagnostics, the version context and the lock (the
    read lock it took is released on every way out).  Storing the new text
    is left to a later [SetContent]. *)
Theorem ApplyIncrementalChanges_preserves (d : DocumentHandle)
        (changes : list protocol.TextDocumentContentChangeEvent) (version' : float)
        (s : state) :
  match ApplyIncrementalChanges RangeSpan d changes version' s with
  | Returns _ s' => s' = s
  | Panics _ s' => s' = s
  | Blocks => writer (mu (doc s)) = true
  end.
Proof.
  unfold ApplyIncrementalChanges.
  match goal with
  | |- context [defer RUnlock ?b] => pose proof (read_section_preserves b) as Hsec
  end.
  lapply Hsec.
  - intros H. specialize (H s).
    destruct ((RLock ;;; defer RUnlock _) s) as [a s'|v s'|]; tauto.
  - apply preserves_bind; [apply preserves_get_doc|]. intros doc0.
    destruct (PrimFloat.leb version' (version doc0));
      [apply preserves_ret|apply preserves_apply_changes].
Qed.

End IncrementalChanges.

(** ** Line starts and the conversions built on them *)

Lemma LineStart_out_of_range (f : token.File) (line : Z) :
  line < 1 \/ len (token.lines f) < line ->
  exists msg, token.LineStart f line = Panic (panic_string msg).
Proof.
  intros H. unfold token.LineStart.
  destruct (line <? 1) eqn:H1; [eexists; reflexivity|].
  destruct (len (token.lines f) <? line) eqn:H2; [eexists; reflexivity|].
  apply Z.ltb_ge in H1, H2. lia.
Qed.

Lemma LineStart_in_range (f : token.File) (line : Z) :
  1 <= line <= len (token.lines f) ->
  token.LineStart f line
  = Value (token.base f + nth (Z.to_nat (line - 1)) (token.lines f) 0).
Proof.
  intros [H1 H2]. unfold token.LineStart.
  apply Z.ltb_ge in H1, H2. rewrite H1, H2. reflexivity.
Qed.

(** [LineStartSafe] never panics, never blocks and changes nothing. *)
Lemma preserves_LineStartSafe (d : DocumentHandle) (line : Z) :
  preserves (LineStartSafe d line).
Proof.
  unfold LineStartSafe. apply preserves_recovering.
  - auto with frame.
  - intros [msg|e]; apply preserves_ret.
Qed.

Lemma LineStartSafe_never_panics (d : DocumentHandle) (line : Z) (s : state) :
  exists r, LineStartSafe d line s = Returns r s.
Proof.
  unfold LineStartSafe, recovering, bind, get_doc, lift.
  destruct (token.LineStart (posData (doc s)) line) as [pos|[msg|e]]; eexists; reflexivity.
Qed.

Lemma LineStartSafe_out_of_range (d : DocumentHandle) (line : Z) (s : state) :
  line < 1 \/ len (token.lines (posData (doc s))) < line ->
  exists msg, LineStartSafe d line s = Returns (token.NoPos, Some (ErrLineStartPanic msg)) s.
Proof.
  intros H. destruct (LineStart_out_of_range _ _ H) as [msg Hmsg].
  exists msg. unfold LineStartSafe, recovering, bind, get_doc, lift.
  rewrite Hmsg. reflexivity.
Qed.

Lemma LineStartSafe_in_range (d : DocumentHandle) (line : Z) (s : state) :
  1 <= line <= len (token.lines (posData (doc s))) ->
  LineStartSafe d line s
  = Returns (token.base (posData (doc s))
             + nth (Z.to_nat (line - 1)) (token.lines (posData (doc s))) 0, None) s.
Proof.
  intros H. unfold LineStartSafe, recovering, bind, get_doc, lift.
  rewrite (LineStart_in_range _ _ H). reflexivity.
Qed.

Lemma posData_rlocked (s : state) : posData (doc (rlocked s)) = posData (doc s).
Proof. reflexivity. Qed.

(** The body of a conversion on an obsolete handle. *)
Lemma obsolete_body {A : Type} (c : Context) (zero : A) (rest : M (A * option error))
      (s : state) :
  Done (ctxs s) c = true ->
  (done <- ctx_Done c ;; if done then err <- ctx_Err c ;; ret (zero, err) else rest) s
  = Returns (zero, Some context_Canceled) s.
Proof.
  intros Hd. unfold bind, ctx_Done, ctx_Err, Err, ret. rewrite Hd. simpl.
  rewrite Hd. reflexivity.
Qed.

Lemma live_body {A : Type} (c : Context) (zero : A) (rest : M (A * option error))
      (s : state) :
  Done (ctxs s) c = false ->
  (done <- ctx_Done c ;; if done then err <- ctx_Err c ;; ret (zero, err) else rest) s
  = rest s.
Proof.
  intros Hd. unfold bind at 1. unfold ctx_Done. rewrite Hd. reflexivity.
Qed.

(** C10.  A position whose line is below 1, as the parser gives for an empty
    file: on a live handle [PositionToProtocolPosition] returns the protocol
    position (0, 0) and no error; the line is not looked up. *)
Theorem PositionToProtocolPosition_line_below_1 (d : DocumentHandle)
        (pos : token.Position) (s : state) :
  token.Line pos < 1 ->
  writer (mu (doc s)) = false ->
  Done (ctxs s) (ctx d) = false ->
  PositionToProtocolPosition d pos s
  = Returns ({| protocol.Line := 0%float; protocol.Character := 0%float |}, None) s.
Proof.
  intros Hline Hw Hd. unfold PositionToProtocolPosition.
  apply read_section_returns; [exact Hw|].
  rewrite live_body by exact Hd.
  apply Z.ltb_lt in Hline. rewrite Hline. reflexivity.
Qed.

Lemma PositionToProtocolPosition_line_below_1_witness :
  token.Line (position 0 0 0) < 1 /\
  PositionToProtocolPosition (current_handle foo_bar) (position 0 0 0) foo_bar
  = Returns (protocol_position 0 0, None) foo_bar.
Proof.
  split; [reflexivity|].
  exact (PositionToProtocolPosition_line_below_1 (current_handle foo_bar) (position 0 0 0)
           foo_bar eq_refl eq_refl eq_refl).
Defined.

(** A conversion on an obsolete handle returns the error of its context,
    whatever the rest of its body is. *)
Lemma obsolete_section {A : Type} (c : Context) (zero : A) (rest : M (A * option error))
      (s : state) :
  writer (mu (doc s)) = false ->
  Done (ctxs s) c = true ->
  (RLock ;;;
   defer RUnlock
     (done <- ctx_Done c ;; if done then err <- ctx_Err c ;; ret (zero, err) else rest)) s
  = Returns (zero, Some context_Canceled) s.
Proof.
  intros Hw Hd. apply read_section_returns; [exact Hw|].
  apply obsolete_body. exact Hd.
Qed.

(** C8, as amended.  A line outside [1, lineCount]: [LineStartSafe] turns
    the panic of the line table into an error value, and so do the
    conversions that look the line up, [PositionToProtocolPosition] for a
    line of at least 1, [ProtocolPositionToTokenPos] and
    [YamlPositionToTokenPos]: each hands its caller an ordinary error and
    leaves the state as it was; none panics. *)
Theorem line_lookup_returns_error (d : DocumentHandle) (line : Z) (s : state) :
  line < 1 \/ len (token.lines (posData (doc s))) < line ->
  (exists msg,
      LineStartSafe d line s = Returns (token.NoPos, Some (ErrLineStartPanic msg)) s) /\
  (writer (mu (doc s)) = false ->
   (forall pos, token.Line pos = line -> 1 <= line ->
                returns_error (PositionToProtocolPosition d pos s) s) /\
   (forall pos, int_add (int_of_float64 (protocol.Line pos)) 1 = line ->
                returns_error (ProtocolPositionToTokenPos d pos s) s) /\
   (forall l column lineOffset, int_add l lineOffset = line ->
                returns_error (YamlPositionToTokenPos d l column lineOffset s) s)).
Proof.
  intros Hout. split; [apply LineStartSafe_out_of_range; exact Hout|].
  intros Hw.
  assert (Hsafe : exists msg,
             LineStartSafe d line (rlocked s)
             = Returns (token.NoPos, Some (ErrLineStartPanic msg)) (rlocked s))
    by (apply LineStartSafe_out_of_range; exact Hout).
  destruct Hsafe as [msg Hsafe].
  destruct (Done (ctxs s) (ctx d)) eqn:Hd.
  - repeat split; intros; eexists; eexists; apply obsolete_section; assumption.
  - repeat split.
    + intros pos Hpos Hge. exists zero_Position, (ErrLineStartPanic msg).
      unfold PositionToProtocolPosition.
      apply read_section_returns; [exact Hw|].
      rewrite live_body by exact Hd.
      rewrite Hpos. apply Z.ltb_ge in Hge. rewrite Hge.
      unfold bind. rewrite Hsafe. reflexivity.
    + intros pos Hpos. exists token.NoPos, (ErrLineStartPanic msg).
      unfold ProtocolPositionToTokenPos.
      apply read_section_returns; [exact Hw|].
      rewrite live_body by exact Hd.
      rewrite Hpos. unfold bind. rewrite Hsafe. reflexivity.
    + intros l column lineOffset Hl.
      unfold YamlPositionToTokenPos.
      destruct (column <? 1) eqn:Hc.
      * exists 0, ErrInvalidPosition.
        apply read_section_returns; [exact Hw|].
        rewrite live_body by exact Hd. reflexivity.
      * exists token.NoPos, (ErrLineStartPanic msg).
        apply read_section_returns; [exact Hw|].
        rewrite live_body by exact Hd.
        rewrite Hl. unfold bind. rewrite Hsafe. reflexivity.
Qed.

Lemma line_lookup_returns_error_witness :
  (3 < 1 \/ len (token.lines (posData (doc foo_bar))) < 3) /\
  LineStartSafe (current_handle foo_bar) 3 foo_bar
  = Returns (token.NoPos,
             Some (ErrLineStartPanic "invalid line number 3 (should be < 2)")) foo_bar /\
  returns_error
    (PositionToProtocolPosition (current_handle foo_bar) (position 3 1 8) foo_bar) foo_bar.
Proof.
  assert (H : 3 < 1 \/ len (token.lines (posData (doc foo_bar))) < 3)
    by (right; reflexivity).
  split; [exact H|]. split; [reflexivity|].
  exact (proj1 (proj2 (line_lookup_returns_error (current_handle foo_bar) 3 foo_bar H)
                  eq_refl)
           (position 3 1 8) eq_refl ltac:(lia)).
Defined.

(** C8, the claim as written, fails: line 0 is outside [1, 2], and
    [PositionToProtocolPosition], a conversion built on [LineStartSafe],
    returns a position and no error for it. *)
Lemma line_lookup_counterexample :
  ~ (1 <= token.Line (position 0 0 0) <= len (token.lines (posData (doc foo_bar)))) /\
  PositionToProtocolPosition (current_handle foo_bar) (position 0 0 0) foo_bar
  = Returns (protocol_position 0 0, None) foo_bar /\
  ~ returns_error
      (PositionToProtocolPosition (current_handle foo_bar) (position 0 0 0) foo_bar) foo_bar.
Proof.
  split; [simpl; lia|]. split; [reflexivity|].
  intros (a & e & H). discriminate H.
Qed.

(** ** [GetQuery] *)

Lemma query_at_in_span (pos : Z) (query : CompiledQuery) :
  query_at pos query = true <-> in_span pos query.
Proof.
  unfold query_at, in_span. destruct (Ast query) as [ast|].
  - rewrite andb_true_iff, !Z.leb_le. split.
    + intros H. exists ast. split; [reflexivity|exact H].
    + intros (ast' & Hast & H). injection Hast as <-. exact H.
  - split; [discriminate|]. intros (ast' & Hast & _). discriminate.
Qed.

(** The loop returns the first query in the order of the slice that passes
    the test, and none when no query passes it. *)
Lemma first_query_at_spec (pos : Z) (qs : list CompiledQuery) :
  match first_query_at pos qs with
  | Some query =>
      exists before after, qs = before ++ query :: after /\
        Forall (fun q => ~ in_span pos q) before /\ in_span pos query
  | None => Forall (fun q => ~ in_span pos q) qs
  end.
Proof.
  induction qs as [|q qs IH]; simpl.
  - constructor.
  - destruct (query_at pos q) eqn:Hq.
    + exists [], qs. repeat split; [constructor|]. apply query_at_in_span. exact Hq.
    + assert (Hnot : ~ in_span pos q).
      { intros H. apply query_at_in_span in H. congruence. }
      destruct (first_query_at pos qs) as [query|].
      * destruct IH as (before & after & -> & Hb & Hin).
        exists (q :: before), after. repeat split; [constructor; assumption|exact Hin].
      * constructor; assumption.
Qed.

(** [GetQueries] on a live handle once the compile tasks are through. *)
Lemma GetQueries_live (d : DocumentHandle) (s : state) :
  pending (compilers (doc s)) = O ->
  writer (mu (doc s)) = false ->
  Done (ctxs s) (ctx d) = false ->
  GetQueries d s = Returns (queries (doc s), None) s.
Proof.
  intros Hp Hw Hd. unfold GetQueries.
  unfold bind at 1. unfold Wait. rewrite Hp.
  apply read_section_returns; [exact Hw|].
  rewrite live_body by exact Hd. reflexivity.
Qed.

(** C5, as amended.  On a live handle, once the compile tasks are through,
    [GetQuery] scans the stored queries in order and returns the first one
    that has a syntax tree and whose closed span, from its start to its start
    plus the end of the tree's range, both included, contains the offset; it
    fails with "no query found at given position" (NotFound) when no stored
    query is such. *)
Theorem GetQuery_first_in_closed_span (d : DocumentHandle) (pos : Z) (s : state) :
  pending (compilers (doc s)) = O ->
  writer (mu (doc s)) = false ->
  Done (ctxs s) (ctx d) = false ->
  (exists before query after,
      queries (doc s) = before ++ query :: after /\
      Forall (fun q => ~ in_span pos q) before /\
      in_span pos query /\
      GetQuery d pos s = Returns (Some query, None) s)
  \/ (Forall (fun q => ~ in_span pos q) (queries (doc s)) /\
      GetQuery d pos s = Returns (None, Some ErrNotFound) s).
Proof.
  intros Hp Hw Hd. unfold GetQuery, bind.
  rewrite (GetQueries_live d s Hp Hw Hd).
  pose proof (first_query_at_spec pos (queries (doc s))) as Hspec.
  destruct (first_query_at pos (queries (doc s))) as [query|].
  - left. destruct Hspec as (before & after & Heq & Hb & Hin).
    exists before, query, after. repeat split; assumption.
  - right. split; [exact Hspec|reflexivity].
Qed.

Lemma GetQuery_first_in_closed_span_witness :
  (pending (compilers (doc foo_bar_compiled)) = O /\
   writer (mu (doc foo_bar_compiled)) = false /\
   Done (ctxs foo_bar_compiled) (ctx (current_handle foo_bar_compiled)) = false) /\
  ((exists before query after,
       queries (doc foo_bar_compiled) = before ++ query :: after /\
       Forall (fun q => ~ in_span 6 q) before /\
       in_span 6 query /\
       GetQuery (current_handle foo_bar_compiled) 6 foo_bar_compiled
       = Returns (Some query, None) foo_bar_compiled)
   \/ (Forall (fun q => ~ in_span 6 q) (queries (doc foo_bar_compiled)) /\
       GetQuery (current_handle foo_bar_compiled) 6 foo_bar_compiled
       = Returns (None, Some ErrNotFound) foo_bar_compiled)).
Proof.
  split; [repeat split; reflexivity|].
  exact (GetQuery_first_in_closed_span (current_handle foo_bar_compiled) 6
           foo_bar_compiled eq_refl eq_refl eq_refl).
Defined.

(** The witness at work: offset 6 lies in "bar", the second query. *)
Example GetQuery_second_query :
  GetQuery (current_handle foo_bar_compiled) 6 foo_bar_compiled
  = Returns (Some (parsed_query 4 3), None) foo_bar_compiled.
Proof. reflexivity. Qed.

(** C5, the claim as written, fails: the offset 4 lies in the half-open
    span of neither query, [1, 4) of "foo" and [5, 8) of "bar", so the claim
    has [GetQuery] fail; it returns "foo", whose closed span ends at 4. *)
Lemma GetQuery_counterexample :
  Forall (fun q => ~ (Pos q <= 4 < Pos q + 3)) (queries (doc foo_bar_compiled)) /\
  GetQuery (current_handle foo_bar_compiled) 4 foo_bar_compiled
  = Returns (Some (parsed_query 0 3), None) foo_bar_compiled.
Proof.
  split; [|reflexivity].
  repeat constructor; simpl; lia.
Qed.

(** ** The wait for the compile tasks *)

(** C1.  While a compile task is in flight, a live handle is suspended by
    [GetQueries] and by [GetDiagnostics], but not by [GetYamls]: it takes the
    read lock at once and returns the yamls slot as it is. *)
Theorem GetYamls_does_not_wait (d : DocumentHandle) (s : state) :
  pending (compilers (doc s)) <> O ->
  writer (mu (doc s)) = false ->
  Done (ctxs s) (ctx d) = false ->
  GetQueries d s = Blocks /\
  GetDiagnostics d s = Blocks /\
  GetYamls d s = Returns (yamls (doc s), None) s.
Proof.
  intros Hp Hw Hd.
  assert (Hwait : Wait s = Blocks).
  { unfold Wait. destruct (pending (compilers (doc s))); [contradiction|reflexivity]. }
  repeat split.
  - unfold GetQueries, bind. rewrite Hwait. reflexivity.
  - unfold GetDiagnostics, bind. rewrite Hwait. reflexivity.
  - unfold GetYamls. apply read_section_returns; [exact Hw|].
    rewrite live_body by exact Hd. reflexivity.
Qed.

Lemma GetYamls_does_not_wait_witness :
  pending (compilers (doc foo_bar_edited)) = 1%nat /\
  GetQueries (current_handle foo_bar_edited) foo_bar_edited = Blocks /\
  GetDiagnostics (current_handle foo_bar_edited) foo_bar_edited = Blocks /\
  GetYamls (current_handle foo_bar_edited) foo_bar_edited = Returns ([], None) foo_bar_edited.
Proof.
  split; [reflexivity|].
  exact (GetYamls_does_not_wait (current_handle foo_bar_edited) foo_bar_edited
           ltac:(discriminate) eq_refl eq_refl).
Defined.

(** ** Edits without a range *)

Section EditsWithoutRange.

Variable RangeSpan : string -> list byte -> protocol.Range -> span.Span * option error.

(** C4.  A batch whose first edit carries no range, at an accepted version:
    [ApplyIncrementalChanges] dereferences the nil range and panics; the
    read lock is released, no text is returned. *)
Theorem ApplyIncrementalChanges_edit_without_range (d : DocumentHandle)
        (change : protocol.TextDocumentContentChangeEvent)
        (rest : list protocol.TextDocumentContentChangeEvent) (version' : float)
        (s : state) :
  protocol.Range_ change = None ->
  writer (mu (doc s)) = false ->
  PrimFloat.leb version' (version (doc s)) = false ->
  ApplyIncrementalChanges RangeSpan d (change :: rest) version' s
  = Panics nil_dereference s.
Proof.
  intros Hr Hw Hv. unfold ApplyIncrementalChanges.
  apply read_section_panics; [exact Hw|].
  unfold bind at 1. unfold get_doc. simpl. rewrite Hv.
  simpl. unfold bind. rewrite Hr. reflexivity.
Qed.

(** Wherever the edit without range stands in the batch, the loop does
    not come to an end with a text. *)
Lemma apply_changes_needs_ranges (uri' : string)
      (changes : list protocol.TextDocumentContentChangeEvent) :
  Exists (fun change => protocol.Range_ change = None) changes ->
  forall content' text s s',
    apply_changes RangeSpan uri' changes content' s <> Returns (text, None) s'.
Proof.
  induction changes as [|change rest IH]; intros Hex content' text s s'.
  - inversion Hex.
  - simpl. unfold bind at 1.
    destruct (protocol.Range_ change) as [r|] eqn:Hr; simpl; [|discriminate].
    assert (Hrest : Exists (fun change => protocol.Range_ change = None) rest).
    { inversion Hex as [? ? H|]; [congruence|assumption]. }
    destruct (RangeSpan uri' content' r) as [spn [e|]]; [discriminate|].
    destruct (negb (span.HasOffset (span.Start spn))); [discriminate|].
    unfold bind at 1.
    destruct (span.OffsetOf (span.Start spn)) as [start|v]; simpl; [|discriminate].
    unfold bind at 1.
    destruct (span.OffsetOf (span.End_ spn)) as [end_|v]; simpl; [|discriminate].
    destruct (end_ <? start); [discriminate|].
    destruct ((start <? 0) || (len content' <? start) || (len content' <? end_));
      [discriminate|].
    apply IH. exact Hrest.
Qed.

Lemma ApplyIncrementalChanges_needs_ranges (d : DocumentHandle)
      (changes : list protocol.TextDocumentContentChangeEvent) (version' : float)
      (s : state) :
  Exists (fun change => protocol.Range_ change = None) changes ->
  forall text s',
    ApplyIncrementalChanges RangeSpan d changes version' s <> Returns (text, None) s'.
Proof.
  intros Hex text s'. unfold ApplyIncrementalChanges, bind at 1, defer.
  destruct (RLock s) as [[] s1|v s1|]; [|discriminate|discriminate].
  unfold bind at 1, get_doc.
  destruct (PrimFloat.leb version' (version (doc s1))).
  - simpl. destruct (RUnlock s1); discriminate.
  - pose proof (apply_changes_needs_ranges (uri (doc s1)) changes Hex (content (doc s1)))
      as Hloop.
    destruct (apply_changes RangeSpan (uri (doc s1)) changes (content (doc s1)) s1)
      as [[text' [e|]] s2|v s2|] eqn:Happly.
    + destruct (RUnlock s2); discriminate.
    + exfalso. exact (Hloop text' s1 s2 Happly).
    + destruct (RUnlock s2); discriminate.
    + discriminate.
Qed.

End EditsWithoutRange.

Lemma ApplyIncrementalChanges_edit_without_range_witness :
  protocol.Range_ (whole_document_edit (bytes "baz")) = None /\
  ApplyIncrementalChanges mapper_RangeSpan (current_handle foo_bar)
    [whole_document_edit (bytes "baz")] 2%float foo_bar
  = Panics nil_dereference foo_bar.
Proof.
  split; [reflexivity|].
  exact (ApplyIncrementalChanges_edit_without_range mapper_RangeSpan (current_handle foo_bar)
           (whole_document_edit (bytes "baz")) [] 2%float foo_bar eq_refl eq_refl eq_refl).
Defined.

(** An edit with a range, by contrast, is spliced in: the example of a
    replacement of "bar" by "baz". *)
Example ApplyIncrementalChanges_replaces_bar :
  ApplyIncrementalChanges mapper_RangeSpan (current_handle foo_bar)
    [range_edit 1 0 3 (bytes "baz")] 2%float foo_bar
  = Returns (bytes "foo" ++ [x0a] ++ bytes "baz", None) foo_bar.
Proof. reflexivity. Qed.

(** ** Obsolete handles *)

Lemma Done_canceled (cs : list ctxEntry) (i : nat) (e : ctxEntry) :
  cs !! i = Some e -> canceled e = true -> Done cs (cancelCtx i) = true.
Proof.
  intros Hi Hc. unfold Done. simpl. rewrite Hi, Hc. reflexivity.
Qed.

(** Calling the cancel function of a context of the store, and making a new
    context after, leaves the context cancelled. *)
Lemma Done_after_cancel (cs : list ctxEntry) (i : nat) (e : ctxEntry) :
  (i < length cs)%nat -> Done (cancel i cs ++ [e]) (cancelCtx i) = true.
Proof.
  intros Hi. destruct (lookup_lt_is_Some_2 cs i Hi) as [e0 He0].
  apply Done_canceled with (e := {| parent := parent e0; canceled := true |});
    [|reflexivity].
  unfold cancel. rewrite He0.
  rewrite lookup_app_l by (rewrite length_insert; exact Hi).
  apply list_lookup_insert_eq. exact Hi.
Qed.

(** The methods on a handle whose context is done. *)
Lemma obsolete_handle_fails (h : DocumentHandle) (t : state) :
  Done (ctxs t) (ctx h) = true ->
  writer (mu (doc t)) = false ->
  fails_obsolete h t.
Proof.
  intros Hd Hw.
  assert (Hq : pending (compilers (doc t)) = O ->
               GetQueries h t = Returns ([], Some context_Canceled) t).
  { intros Hp. unfold GetQueries. unfold bind at 1. unfold Wait. rewrite Hp.
    apply obsolete_section; assumption. }
  unfold fails_obsolete.
  repeat match goal with |- _ /\ _ => split end;
    try (intros; apply obsolete_section; assumption).
  destruct (pending (compilers (doc t))) as [|n] eqn:Hp.
  - repeat split.
    + apply Hq. reflexivity.
    + unfold GetDiagnostics. unfold bind at 1. unfold Wait. rewrite Hp.
      apply obsolete_section; assumption.
    + intros pos. unfold GetQuery, bind. rewrite Hq by reflexivity. reflexivity.
  - repeat split.
    + unfold GetQueries, bind, Wait. rewrite Hp. reflexivity.
    + unfold GetDiagnostics, bind, Wait. rewrite Hp. reflexivity.
    + intros pos. unfold GetQuery, GetQueries, bind, Wait. rewrite Hp. reflexivity.
Qed.

Section Obsolescence.

Variable maxDocumentSize : Z.

(** What an accepted [SetContent] on an existing document has done when it
    returns: it held the lock alone, called the cancel function of the
    document, made a new context, and swapped the state. *)
Lemma SetContent_accepted (d : DocumentHandle) (lifetime : Context)
      (content' : list byte) (version' : float) (s s' : state) :
  SetContent maxDocumentSize d lifetime content' version' false s = Returns None s' ->
  exists i,
    obsoleteVersion (doc s) = Some i /\
    lock_free s = true /\
    ctxs s' = cancel i (ctxs s) ++ [{| parent := lifetime; canceled := false |}] /\
    versionCtx (doc s') = Some (cancelCtx (length (ctxs s))) /\
    obsoleteVersion (doc s') = Some (length (ctxs s)) /\
    mu (doc s') = mu (doc s) /\
    content (doc s') = content' /\
    version (doc s') = version' /\
    posData (doc s') = token.SetLinesForContent (posData (doc s)) (content' ++ [x0a]) /\
    queries (doc s') = [] /\ yamls (doc s') = [] /\ diagnostics (doc s') = [] /\
    pending (compilers (doc s')) = S (pending (compilers (doc s))).
Proof.
  rewrite SetContent_outcome.
  destruct (lock_free s) eqn:Hfree; [|discriminate]. simpl negb. rewrite andb_true_l.
  destruct (PrimFloat.leb version' (version (doc s))); [discriminate|].
  destruct (maxDocumentSize <? len content'); [discriminate|].
  destruct (obsoleteVersion (doc s)) as [i|]; [|discriminate].
  intros H. injection H as <-. exists i. unfold updated. simpl.
  rewrite length_cancel. repeat split; reflexivity.
Qed.

(** An accepted [SetContent] leaves the cancel function and the version
    context of the document paired again. *)
Lemma SetContent_version_ctx_wf (d : DocumentHandle) (lifetime : Context)
      (content' : list byte) (version' : float) (s s' : state) :
  SetContent maxDocumentSize d lifetime content' version' false s = Returns None s' ->
  version_ctx_wf s'.
Proof.
  intros H. destruct (SetContent_accepted _ _ _ _ _ _ H)
    as (i & _ & _ & Hcs & Hvc & Hov & _).
  exists (length (ctxs s)). repeat split; [exact Hvc|exact Hov|].
  rewrite Hcs, length_app, length_cancel. simpl. lia.
Qed.

(** [SetContent] cancels and creates contexts, it never revives one: a
    handle that is obsolete stays obsolete through every later call. *)
Lemma SetContent_extends_ctxs (d : DocumentHandle) (lifetime : Context)
      (content' : list byte) (version' : float) (new : bool) (r : option error)
      (s s' : state) :
  SetContent maxDocumentSize d lifetime content' version' new s = Returns r s' ->
  extends (ctxs s) (ctxs s').
Proof.
  rewrite SetContent_outcome.
  destruct (lock_free s); [|discriminate].
  destruct (negb new && PrimFloat.leb version' (version (doc s))).
  { intros H. injection H as _ <-. apply extends_refl. }
  destruct (maxDocumentSize <? len content').
  { intros H. injection H as _ <-. apply extends_refl. }
  destruct new.
  - intros H. injection H as _ <-. simpl. apply extends_app.
  - destruct (obsoleteVersion (doc s)) as [i|]; [|discriminate].
    intros H. injection H as _ <-. simpl.
    eapply extends_trans; [apply extends_cancel|apply extends_app].
Qed.

Lemma SetContent_keeps_obsolete (d h : DocumentHandle) (lifetime : Context)
      (content' : list byte) (version' : float) (new : bool) (r : option error)
      (s s' : state) :
  Done (ctxs s) (ctx h) = true ->
  SetContent maxDocumentSize d lifetime content' version' new s = Returns r s' ->
  Done (ctxs s') (ctx h) = true.
Proof.
  intros Hd Hset. eapply Done_extends; [|exact Hd].
  eapply SetContent_extends_ctxs. exact Hset.
Qed.

(** [SetContent] keeps the store well formed when the server's context is
    in it. *)
Lemma SetContent_ctxs_wf (d : DocumentHandle) (lifetime : Context)
      (content' : list byte) (version' : float) (new : bool) (r : option error)
      (s s' : state) :
  ctxs_wf (ctxs s) ->
  match lifetime with Background => True | cancelCtx j => (j < length (ctxs s))%nat end ->
  SetContent maxDocumentSize d lifetime content' version' new s = Returns r s' ->
  ctxs_wf (ctxs s').
Proof.
  intros Hwf Hl. rewrite SetContent_outcome.
  destruct (lock_free s); [|discriminate].
  destruct (negb new && PrimFloat.leb version' (version (doc s))).
  { intros H. injection H as _ <-. exact Hwf. }
  destruct (maxDocumentSize <? len content').
  { intros H. injection H as _ <-. exact Hwf. }
  destruct new.
  - intros H. injection H as _ <-. simpl.
    apply (ctxs_wf_WithCancel lifetime (ctxs s) Hwf Hl).
  - destruct (obsoleteVersion (doc s)) as [i|]; [|discriminate].
    intros H. injection H as _ <-. simpl.
    apply (ctxs_wf_WithCancel lifetime (cancel i (ctxs s))).
    + apply ctxs_wf_cancel. exact Hwf.
    + rewrite length_cancel. exact Hl.
Qed.

(** C3, as amended.  After a [SetContent] with [new] false that returned
    without error, a handle that holds the version context the document had
    before the call is obsolete: its context is done, and [GetContent],
    [GetSubstring], [GetVersion], [GetYamls] and the four position
    conversions of the handle fail with the error of the context;
    [GetQueries], [GetDiagnostics] and [GetQuery] are suspended while the
    new compile task runs and fail with the same error once it is
    through. *)
Theorem SetContent_obsoletes_previous_handle (d h : DocumentHandle) (lifetime : Context)
        (content' : list byte) (version' : float) (s s' : state) :
  version_ctx_wf s ->
  versionCtx (doc s) = Some (ctx h) ->
  SetContent maxDocumentSize d lifetime content' version' false s = Returns None s' ->
  Done (ctxs s') (ctx h) = true /\
  pending (compilers (doc s')) <> O /\
  fails_obsolete h s' /\
  (forall t, Done (ctxs t) (ctx h) = true -> writer (mu (doc t)) = false ->
             fails_obsolete h t).
Proof.
  intros (i & Hvc & Hov & Hi) Hh Hset.
  destruct (SetContent_accepted _ _ _ _ _ _ Hset)
    as (j & Hov' & Hfree & Hcs & _ & _ & Hmu & _ & _ & _ & _ & _ & _ & Hp).
  assert (j = i) as -> by congruence.
  assert (Hctx : ctx h = cancelCtx i) by congruence.
  assert (Hd : Done (ctxs s') (ctx h) = true).
  { rewrite Hctx, Hcs. apply Done_after_cancel. exact Hi. }
  assert (Hw : writer (mu (doc s')) = false).
  { rewrite Hmu. unfold lock_free in Hfree. apply andb_true_iff in Hfree.
    destruct Hfree as [Hfree _]. apply negb_true_iff in Hfree. exact Hfree. }
  split; [exact Hd|]. split; [rewrite Hp; discriminate|].
  split; [apply obsolete_handle_fails; assumption|].
  intros t. apply obsolete_handle_fails.
Qed.

End Obsolescence.

Lemma SetContent_obsoletes_previous_handle_witness :
  (version_ctx_wf foo_bar /\
   versionCtx (doc foo_bar) = Some (ctx (current_handle foo_bar)) /\
   SetContent 100 (current_handle foo_bar) Background (bytes "foo") 2%float false foo_bar
   = Returns None foo_bar_edited) /\
  Done (ctxs foo_bar_edited) (ctx (current_handle foo_bar)) = true /\
  GetContent (current_handle foo_bar) foo_bar_edited
  = Returns ([], Some context_Canceled) foo_bar_edited.
Proof.
  assert (Hwf : version_ctx_wf foo_bar).
  { exists O. repeat split; simpl; lia. }
  assert (Hset : SetContent 100 (current_handle foo_bar) Background (bytes "foo") 2%float
                   false foo_bar = Returns None foo_bar_edited)
    by (vm_compute; reflexivity).
  split; [split; [exact Hwf|split; [reflexivity|exact Hset]]|].
  pose proof (SetContent_obsoletes_previous_handle 100 (current_handle foo_bar)
                (current_handle foo_bar) Background (bytes "foo") 2%float foo_bar
                foo_bar_edited Hwf eq_refl Hset) as (Hd & _ & Hf & _).
  split; [exact Hd|exact (proj1 Hf)].
Defined.

(** C3, the claim as written, fails.  After the accepted edit of [foo_bar]
    the handle taken before it still gets the URI and the language of the
    document, which check no context; and after a [SetContent] that passes
    for the first of the document the old handle is not obsolete at all. *)
Lemma obsolete_handle_counterexample :
  SetContent 100 (current_handle foo_bar) Background (bytes "foo") 2%float false foo_bar
  = Returns None foo_bar_edited /\
  GetURI (current_handle foo_bar) foo_bar_edited
  = Returns "file:///rules.promql"%string foo_bar_edited /\
  GetLanguageID (current_handle foo_bar) foo_bar_edited
  = Returns "promql"%string foo_bar_edited /\
  SetContent 100 (current_handle foo_bar) Background (bytes "foo") 2%float true foo_bar
  = Returns None foo_bar_reset /\
  GetContent (current_handle foo_bar) foo_bar_reset
  = Returns (bytes "foo", None) foo_bar_reset.
Proof. repeat apply conj; vm_compute; reflexivity. Qed.

(** ** UTF-16 columns on ASCII lines *)

(** A byte is a number from 0. *)
Lemma byte_val_nonneg (b : byte) : 0 <= byte_val b.
Proof. unfold byte_val. lia. Qed.

(** An ASCII byte is a rune of its own. *)
Lemma DecodeRune_ascii (b : byte) (rest : list byte) :
  byte_val b < 0x80 -> utf8.DecodeRune (b :: rest) = (byte_val b, 1).
Proof.
  intros Hb. unfold utf8.DecodeRune. rewrite len_cons.
  assert (Hn : (len rest + 1 <? 1) = false) by (apply Z.ltb_ge; unfold len; lia).
  rewrite Hn. unfold byte_at. simpl nth. unfold utf8.first.
  apply Z.ltb_lt in Hb. rewrite Hb. simpl.
  rewrite Z.land_m1_r, Z.land_0_r, Z.lor_0_r. reflexivity.
Qed.

(** The runes of ASCII bytes are the bytes. *)
Lemma runes_fuel_ascii (seg : list byte) :
  Forall (fun b => byte_val b < 0x80) seg ->
  forall fuel, (length seg <= fuel)%nat -> utf8.runes_fuel fuel seg = map byte_val seg.
Proof.
  induction 1 as [|b seg Hb Hseg IH]; intros fuel Hf.
  - destruct fuel; reflexivity.
  - destruct fuel as [|fuel]; [simpl in Hf; lia|]. simpl utf8.runes_fuel.
    rewrite (DecodeRune_ascii b seg Hb). simpl. f_equal.
    apply IH. simpl in Hf. lia.
Qed.

(** An ASCII rune is one UTF-16 code unit. *)
Lemma Encode_ascii (seg : list byte) :
  Forall (fun b => byte_val b < 0x80) seg ->
  utf16.Encode (map byte_val seg) = map byte_val seg.
Proof.
  induction 1 as [|b seg Hb Hseg IH]; [reflexivity|]. simpl.
  pose proof (byte_val_nonneg b) as H0.
  assert (H1 : (0 <=? byte_val b) = true) by (apply Z.leb_le; lia).
  assert (H2 : (byte_val b <? utf16.surr1) = true) by (apply Z.ltb_lt; unfold utf16.surr1; lia).
  rewrite H1, H2. simpl. rewrite IH. reflexivity.
Qed.

(** [len] of an append, and its sign. *)
Lemma len_app {A} (l1 l2 : list A) : len (l1 ++ l2) = len l1 + len l2.
Proof. unfold len. rewrite length_app. lia. Qed.

Lemma len_nonneg {A} (l : list A) : 0 <= len l.
Proof. unfold len. lia. Qed.

(** The slice [content[o:][:k]] of a content cut at [o] and [o + k]. *)
Lemma slice_middle (pre seg post : list byte) :
  slice_to (slice_from (pre ++ seg ++ post) (len pre)) (len seg) = seg.
Proof.
  unfold slice_to, slice_from, len. rewrite !Nat2Z.id.
  rewrite drop_app_length. apply take_app_length.
Qed.

(** After [k >= 1] ASCII bytes of a line the 1-based UTF-16 column is
    [k + 1], the byte column. *)
Lemma ToUTF16Column_ascii (line : Z) (pre seg post : list byte) :
  1 <= line ->
  Forall (fun b => byte_val b < 0x80) seg ->
  seg <> [] ->
  span.ToUTF16Column (span.NewPoint line (len seg + 1) (len pre + len seg)) (pre ++ seg ++ post)
  = (len seg + 1, None).
Proof.
  intros Hline Hseg Hne.
  assert (Hk : 1 <= len seg) by (destruct seg; [contradiction|rewrite len_cons; pose proof (len_nonneg seg); lia]).
  pose proof (len_nonneg pre) as Hpre.
  unfold span.ToUTF16Column, span.NewPoint, span.clean, span.HasPosition, span.HasOffset.
  simpl span.Line. simpl span.Column. simpl span.Offset.
  replace (line <? 0) with false by (symmetry; apply Z.ltb_ge; lia).
  replace (0 <? line) with true by (symmetry; apply Z.ltb_lt; lia).
  replace (len seg + 1 <=? 0) with false by (symmetry; apply Z.leb_gt; lia).
  replace (len pre + len seg =? 0) with false by (symmetry; apply Z.eqb_neq; lia).
  simpl.
  replace (0 <=? len pre + len seg) with true by (symmetry; apply Z.leb_le; lia).
  simpl.
  replace (len seg + 1 - 1) with (len seg) by lia.
  replace (len seg =? 0) with false by (symmetry; apply Z.eqb_neq; lia).
  replace (len seg <? 0) with false by (symmetry; apply Z.ltb_ge; lia).
  replace (len pre + len seg - len seg) with (len pre) by lia.
  replace (len pre <? 0) with false by (symmetry; apply Z.ltb_ge; lia).
  replace (len (pre ++ seg ++ post) <? len pre + len seg) with false
    by (symmetry; apply Z.ltb_ge; rewrite !len_app; pose proof (len_nonneg post); lia).
  simpl. rewrite slice_middle. unfold utf8.runes.
  rewrite runes_fuel_ascii by (auto; lia). rewrite Encode_ascii by exact Hseg.
  unfold len. rewrite length_map. reflexivity.
Qed.

(** The scan steps over ASCII bytes one column and one byte at a time. *)
Lemma scan_ascii (seg : list byte) :
  Forall ascii_in_line seg ->
  forall post fuel count chr p,
    count + len seg = chr ->
    (length (seg ++ post) < fuel)%nat ->
    span.scan fuel count chr (seg ++ post) p
    = ({| span.Line := span.Line p; span.Column := span.Column p + len seg;
          span.Offset := span.Offset p + len seg |}, None).
Proof.
  induction 1 as [|b seg [Hb Hnl] Hseg IH]; intros post fuel count chr p Hc Hf.
  - destruct fuel as [|fuel]; [lia|]. simpl.
    replace (count <? chr) with false by (symmetry; apply Z.ltb_ge; unfold len in Hc; simpl in Hc; lia).
    unfold len; simpl. rewrite !Z.add_0_r. destruct p; reflexivity.
  - destruct fuel as [|fuel]; [lia|].
    rewrite len_cons in Hc. pose proof (len_nonneg seg) as Hs.
    cbn [span.scan app].
    replace (count <? chr) with true by (symmetry; apply Z.ltb_lt; lia).
    replace (len (b :: seg ++ post) <=? 0) with false
      by (symmetry; apply Z.leb_gt; rewrite len_cons; pose proof (len_nonneg (seg ++ post)); lia).
    rewrite (DecodeRune_ascii b (seg ++ post) Hb).
    replace (byte_val b =? 10) with false by (symmetry; apply Z.eqb_neq; exact Hnl).
    replace (65536 <=? byte_val b) with false by (symmetry; apply Z.leb_gt; lia).
    unfold slice_from. simpl drop.
    rewrite (IH post fuel (count + 1) chr) by (simpl in Hf |- *; lia).
    simpl. rewrite len_cons. f_equal. f_equal; lia.
Qed.

(** The point of the start of a line keeps its three coordinates. *)
Lemma NewPoint_line_start (line o : Z) :
  1 <= line -> 0 <= o -> line = 1 \/ 0 < o ->
  span.NewPoint line 1 o = {| span.Line := line; span.Column := 1; span.Offset := o |}.
Proof.
  intros Hline Ho Hlo. unfold span.NewPoint, span.clean. simpl.
  replace (line <? 0) with false by (symmetry; apply Z.ltb_ge; lia).
  assert (H : (o =? 0) && ((1 <? line) || (1 <? 1)) = false).
  { destruct Hlo as [->|Hpos].
    - apply andb_false_r.
    - replace (o =? 0) with false by (symmetry; apply Z.eqb_neq; lia). reflexivity. }
  rewrite H. reflexivity.
Qed.

(** From the start of a line, the 1-based UTF-16 column [chr] over ASCII
    bytes is the 1-based byte column [chr]. *)
Lemma FromUTF16Column_ascii (line chr : Z) (pre seg post : list byte) :
  1 <= line -> line = 1 \/ 0 < len pre ->
  Forall ascii_in_line seg ->
  len seg = chr - 1 ->
  span.FromUTF16Column (span.NewPoint line 1 (len pre)) chr (pre ++ seg ++ post)
  = ({| span.Line := line; span.Column := chr; span.Offset := len pre + chr - 1 |}, None).
Proof.
  intros Hline Hlo Hseg Hlen.
  pose proof (len_nonneg pre) as Hpre. pose proof (len_nonneg seg) as Hs.
  rewrite NewPoint_line_start by assumption.
  unfold span.FromUTF16Column, span.HasOffset. simpl span.Offset.
  replace (0 <=? len pre) with true by (symmetry; apply Z.leb_le; lia). simpl negb. cbv iota.
  destruct (chr <=? 1) eqn:Hchr.
  - apply Z.leb_le in Hchr. assert (chr = 1) as -> by lia.
    f_equal. f_equal. lia.
  - apply Z.leb_gt in Hchr.
    replace (len (pre ++ seg ++ post) <=? len pre) with false
      by (symmetry; apply Z.leb_gt; rewrite !len_app; pose proof (len_nonneg post); lia).
    assert (Hdrop : slice_from (pre ++ seg ++ post) (len pre) = seg ++ post).
    { unfold slice_from, len. rewrite Nat2Z.id. apply drop_app_length. }
    rewrite Hdrop.
    rewrite (scan_ascii seg Hseg post (S (length (seg ++ post))) 1 chr) by lia.
    simpl. f_equal. f_equal; lia.
Qed.

(** A column of 1 or less is the start of the line. *)
Lemma FromUTF16Column_first_column (p : span.Point) (chr : Z) (content' : list byte) :
  span.HasOffset p = true -> chr <= 1 -> span.FromUTF16Column p chr content' = (p, None).
Proof.
  intros Ho Hc. unfold span.FromUTF16Column. rewrite Ho. simpl.
  apply Z.leb_le in Hc. rewrite Hc. reflexivity.
Qed.

(** No wrap-around within the range of [int]. *)
Lemma wrap_int_small (z : Z) : - 2 ^ 63 <= z < 2 ^ 63 -> wrap_int z = z.
Proof. intros H. unfold wrap_int. rewrite Z.mod_small; lia. Qed.

(** [ProtocolPositionToTokenPos] on a line whose bytes up to the column are
    ASCII, [pre] being the content before the line: the protocol column
    [char], which is 0-based, goes to [FromUTF16Column] as a 1-based column,
    and the 1-based byte column that comes back is added to the start of the
    line.  The result is the [token.Pos] of byte [char] of the line from
    column 1 on, and the same [token.Pos] for column 0. *)
Lemma ProtocolPositionToTokenPos_ascii (d : DocumentHandle) (pos : protocol.Position)
      (s : state) (pre seg post : list byte) :
  let line := int_add (int_of_float64 (protocol.Line pos)) 1 in
  let char := int_of_float64 (protocol.Character pos) in
  writer (mu (doc s)) = false ->
  Done (ctxs s) (ctx d) = false ->
  1 <= line <= len (token.lines (posData (doc s))) ->
  content (doc s) = pre ++ seg ++ post ->
  nth (Z.to_nat (line - 1)) (token.lines (posData (doc s))) 0 = len pre ->
  line = 1 \/ 0 < len pre ->
  0 <= token.base (posData (doc s)) ->
  token.base (posData (doc s)) + len pre < 2 ^ 63 ->
  Forall ascii_in_line seg ->
  len seg = Z.max char 1 - 1 ->
  ProtocolPositionToTokenPos d pos s
  = Returns (int_add (token.base (posData (doc s)) + len pre) (Z.max char 1), None) s.
Proof.
  intros line char Hw Hd Hline Hcontent Hstart Hlo Hbase Hmax Hseg Hlen.
  pose proof (len_nonneg pre) as Hpre.
  unfold ProtocolPositionToTokenPos.
  apply read_section_returns; [exact Hw|].
  rewrite live_body by exact Hd.
  fold line. fold char. unfold bind at 1.
  rewrite (LineStartSafe_in_range d line (rlocked s)) by exact Hline.
  rewrite posData_rlocked, Hstart. cbv iota beta.
  unfold bind at 1, get_doc. cbv iota beta.
  replace (content (doc (rlocked s))) with (content (doc s)) by reflexivity.
  rewrite posData_rlocked, Hcontent. unfold token.Base, int_sub.
  replace (token.base (posData (doc s)) + len pre - token.base (posData (doc s)))
    with (len pre) by lia.
  rewrite wrap_int_small by lia.
  assert (Hpoint : span.FromUTF16Column (span.NewPoint line 1 (len pre)) char
                     (pre ++ seg ++ post)
                   = ({| span.Line := line; span.Column := Z.max char 1;
                         span.Offset := len pre + Z.max char 1 - 1 |}, None)).
  { destruct (Z.le_gt_cases char 1) as [Hc|Hc].
    - rewrite Z.max_r by lia. rewrite NewPoint_line_start by (try assumption; lia).
      rewrite FromUTF16Column_first_column by (try assumption; unfold span.HasOffset;
                                                simpl; apply Z.leb_le; lia).
      f_equal. f_equal. lia.
    - rewrite Z.max_l in * by lia. apply FromUTF16Column_ascii; (assumption || lia). }
  rewrite Hpoint. unfold bind, lift, span.ColumnOf, span.HasPosition.
  cbn [span.Line span.Column].
  replace (0 <? line) with true by (symmetry; apply Z.ltb_lt; lia).
  reflexivity.
Qed.

(** Byte column 1 is UTF-16 column 1. *)
Lemma ToUTF16Column_first_column (line o : Z) (content' : list byte) :
  1 <= line -> 0 <= o -> line = 1 \/ 0 < o ->
  span.ToUTF16Column (span.NewPoint line 1 o) content' = (1, None).
Proof.
  intros Hline Ho Hlo. rewrite NewPoint_line_start by assumption.
  unfold span.ToUTF16Column, span.HasPosition, span.HasOffset. cbn [span.Line span.Column span.Offset].
  replace (0 <? line) with true by (symmetry; apply Z.ltb_lt; lia).
  replace (0 <=? o) with true by (symmetry; apply Z.leb_le; lia).
  reflexivity.
Qed.

(** [PositionToProtocolPosition] after [len seg] ASCII bytes of a line: the
    0-based line and the 0-based column [len seg]. *)
Lemma PositionToProtocolPosition_ascii (d : DocumentHandle) (pos : token.Position)
      (s : state) (pre seg post : list byte) :
  let line := token.Line pos in
  writer (mu (doc s)) = false ->
  Done (ctxs s) (ctx d) = false ->
  1 <= line <= len (token.lines (posData (doc s))) ->
  content (doc s) = pre ++ seg ++ post ->
  nth (Z.to_nat (line - 1)) (token.lines (posData (doc s))) 0 = len pre ->
  line = 1 \/ 0 < len pre ->
  0 <= token.base (posData (doc s)) ->
  token.base (posData (doc s)) + len pre + len seg + 1 < 2 ^ 63 ->
  line < 2 ^ 63 ->
  Forall ascii_in_line seg ->
  token.Column pos = len seg + 1 ->
  PositionToProtocolPosition d pos s
  = Returns ({| protocol.Line := float64_of_int (line - 1);
                protocol.Character := float64_of_int (len seg) |}, None) s.
Proof.
  intros line Hw Hd Hline Hcontent Hstart Hlo Hbase Hmax Hlmax Hseg Hcol.
  pose proof (len_nonneg pre) as Hpre. pose proof (len_nonneg seg) as Hs.
  unfold PositionToProtocolPosition.
  apply read_section_returns; [exact Hw|].
  rewrite live_body by exact Hd.
  fold line. replace (line <? 1) with false by (symmetry; apply Z.ltb_ge; lia).
  unfold bind at 1.
  rewrite (LineStartSafe_in_range d line (rlocked s)) by exact Hline.
  rewrite posData_rlocked, Hstart. cbv iota beta.
  unfold bind at 1, get_doc. cbv iota beta.
  replace (content (doc (rlocked s))) with (content (doc s)) by reflexivity.
  rewrite posData_rlocked, Hcontent, Hcol. unfold token.Base, int_sub, int_add.
  replace (token.base (posData (doc s)) + len pre - token.base (posData (doc s)))
    with (len pre) by lia.
  rewrite (wrap_int_small (len pre)) by lia.
  rewrite (wrap_int_small (len pre + (len seg + 1))) by lia.
  replace (len pre + (len seg + 1) - 1) with (len pre + len seg) by lia.
  rewrite (wrap_int_small (len pre + len seg)) by lia.
  assert (Hcolumn : span.ToUTF16Column (span.NewPoint line (len seg + 1) (len pre + len seg))
                      (pre ++ seg ++ post) = (len seg + 1, None)).
  { destruct seg as [|b seg].
    - change (len (@nil byte)) with 0. rewrite Z.add_0_r. change (0 + 1) with 1.
      apply ToUTF16Column_first_column; [lia|lia|assumption].
    - apply ToUTF16Column_ascii; [lia| |discriminate].
      eapply Forall_impl; [exact Hseg|]. intros x [Hx _]. exact Hx. }
  rewrite Hcolumn. cbv iota beta.
  replace (len seg + 1 - 1) with (len seg) by lia.
  rewrite (wrap_int_small (len seg)) by lia.
  rewrite (wrap_int_small (line - 1)) by lia.
  reflexivity.
Qed.

(** ** The round trip of a position through the protocol *)

(** C2.  The start of line 2 of [foo_bar], (line 2, column 1) at offset 4,
    has the [token.Pos] 5.  [PositionToProtocolPosition] maps it to the
    protocol position (1, 0); [ProtocolPositionToTokenPos] maps that back to
    the [token.Pos] 6, which is (line 2, column 2).  In [hello_accent], the
    position after the accented letter, (line 1, column 4) at offset 3 and
    [token.Pos] 4, becomes (0, 2) and comes back as the [token.Pos] 3, the
    second byte of the letter. *)
Theorem position_round_trip_fails :
  (PositionToProtocolPosition (current_handle foo_bar) (position 2 1 4) foo_bar
   = Returns (protocol_position 1 0, None) foo_bar /\
   ProtocolPositionToTokenPos (current_handle foo_bar) (protocol_position 1 0) foo_bar
   = Returns (6, None) foo_bar /\
   TokenPosToTokenPosition (current_handle foo_bar) 5 foo_bar
   = Returns (position 2 1 4, None) foo_bar /\
   TokenPosToTokenPosition (current_handle foo_bar) 6 foo_bar
   = Returns (position 2 2 5, None) foo_bar) /\
  (PositionToProtocolPosition (current_handle hello_accent) (position 1 4 3) hello_accent
   = Returns (protocol_position 0 2, None) hello_accent /\
   ProtocolPositionToTokenPos (current_handle hello_accent) (protocol_position 0 2)
     hello_accent
   = Returns (3, None) hello_accent /\
   TokenPosToTokenPosition (current_handle hello_accent) 4 hello_accent
   = Returns (position 1 4 3, None) hello_accent /\
   TokenPosToTokenPosition (current_handle hello_accent) 3 hello_accent
   = Returns (position 1 3 2, None) hello_accent).
Proof. repeat apply conj; vm_compute; reflexivity. Qed.

(** Two protocol positions of a line, its columns 0 and 1, come back as one
    [token.Pos]; from column 1 on an ASCII line the conversion is exact. *)
Example ProtocolPositionToTokenPos_columns :
  ProtocolPositionToTokenPos (current_handle foo_bar) (protocol_position 0 0) foo_bar
  = Returns (2, None) foo_bar /\
  ProtocolPositionToTokenPos (current_handle foo_bar) (protocol_position 0 1) foo_bar
  = Returns (2, None) foo_bar /\
  ProtocolPositionToTokenPos (current_handle foo_bar) (protocol_position 0 2) foo_bar
  = Returns (3, None) foo_bar /\
  ProtocolPositionToTokenPos (current_handle foo_bar) (protocol_position 0 3) foo_bar
  = Returns (4, None) foo_bar.
Proof. repeat apply conj; vm_compute; reflexivity. Qed.

(** The example of the accented letter: the byte column after it is 3, the
    UTF-16 column 2. *)
Example ToUTF16Column_accent :
  span.ToUTF16Column (span.NewPoint 1 4 3) (content (doc hello_accent)) = (3, None).
Proof. reflexivity. Qed.

(** A rune of the supplementary planes counts for two UTF-16 code units. *)
Example ToUTF16Column_supplementary :
  span.ToUTF16Column (span.NewPoint 1 6 5) [x61; xf0; x9f; x98; x80; x62] = (4, None).
Proof. reflexivity. Qed.

(** * Further properties *)

(** ** Reading leaves the state alone *)

(** The body of a getter is made of steps that leave the state alone. *)
Ltac frame_body :=
  repeat first
    [ apply preserves_ret | apply preserves_panic | apply preserves_lift
    | apply preserves_deref | apply preserves_get_doc | apply preserves_ctx_Done
    | apply preserves_ctx_Err | apply preserves_LineStartSafe
    | apply preserves_bind; [|intro]
    | progress cbv zeta
    | match goal with
      | |- preserves (if ?c then _ else _) => destruct c
      | |- preserves (let '(_, _) := ?p in _) => destruct p
      | |- preserves (match ?o with Some _ => _ | None => _ end) => destruct o
      end ].

(** A body that leaves the state alone, run under the read lock. *)
Lemma reads_under_lock_section {A : Type} (body : M A) :
  preserves body -> reads_under_lock (RLock ;;; defer RUnlock body).
Proof. intros Hb s. apply read_section_preserves. exact Hb. Qed.

(** A wait for the compile tasks before a read under the lock. *)
Lemma reads_after_wait_section {A : Type} (body : M A) :
  preserves body -> reads_after_wait (Wait ;;; RLock ;;; defer RUnlock body).
Proof.
  intros Hb s. unfold bind at 1. unfold Wait.
  destruct (pending (compilers (doc s))) eqn:Hp; [|left; discriminate].
  pose proof (read_section_preserves body Hb s) as H.
  destruct ((RLock ;;; defer RUnlock body) s); [| |right; exact H];
    destruct H as [-> Hw]; auto.
Qed.




(** ** The line table *)

Lemma lines_for_newline_terminated (content : list byte) :
  forall offset line acc,
    0 <= offset ->
    token.lines_for (content ++ [x0a]) offset line acc
    = acc ++ (if 0 <=? line then [line] else []) ++ line_starts_after content offset.
Proof.
  induction content as [|b rest IH]; intros offset line acc Ho.
  - simpl. destruct (0 <=? line); simpl; rewrite ?app_nil_r; reflexivity.
  - cbn [app token.lines_for line_starts_after].
    rewrite IH by lia.
    destruct (0 <=? line); destruct (byte_val b =? 10);
      try replace (0 <=? offset + 1) with true by (symmetry; apply Z.leb_le; lia);
      simpl; rewrite <- ?app_assoc; reflexivity.
Qed.

Lemma line_starts_after_bounds (content : list byte) :
  forall offset,
    Forall (fun x => offset < x <= offset + len content) (line_starts_after content offset).
Proof.
  induction content as [|b rest IH]; intros offset; simpl; [constructor|].
  rewrite len_cons. pose proof (len_nonneg rest) as Hr.
  apply Forall_app. split.
  - destruct (byte_val b =? 10); repeat constructor; lia.
  - eapply Forall_impl; [apply IH|]. simpl. intros x Hx. lia.
Qed.

Lemma line_starts_after_sorted (content : list byte) :
  forall offset, StronglySorted Z.lt (line_starts_after content offset).
Proof.
  induction content as [|b rest IH]; intros offset; simpl; [constructor|].
  destruct (byte_val b =? 10); simpl; [|apply IH].
  constructor; [apply IH|].
  eapply Forall_impl; [apply line_starts_after_bounds|]. simpl. intros x Hx. lia.
Qed.

(** The table of an indexed document: it starts with 0, increases strictly,
    and every line start is an offset of the content or its end. *)
Lemma indexed_sorted (s : state) :
  indexed s -> StronglySorted Z.lt (token.lines (posData (doc s))).
Proof.
  intros ->. constructor; [apply line_starts_after_sorted|].
  eapply Forall_impl; [apply line_starts_after_bounds|]. simpl. intros x Hx. lia.
Qed.

Lemma indexed_bounds (s : state) :
  indexed s ->
  Forall (fun x => 0 <= x <= len (content (doc s))) (token.lines (posData (doc s))).
Proof.
  intros ->. pose proof (len_nonneg (content (doc s))) as Hc.
  constructor; [lia|].
  eapply Forall_impl; [apply line_starts_after_bounds|]. simpl. intros x Hx. lia.
Qed.

(** ** [searchInts] *)

(** The index [searchInts] finds is the one given as the best so far, or
    the index of an entry that is not above [x]. *)
Lemma searchInts_from_found (a : list Z) (x : Z) :
  forall i best,
    token.searchInts_from a x i best = best \/
    exists k : nat,
      (k < length a)%nat /\ token.searchInts_from a x i best = i + Z.of_nat k /\
      nth k a 0 <= x.
Proof.
  induction a as [|y a IH]; intros i best; simpl; [left; reflexivity|].
  destruct (y <=? x) eqn:Hy; [|left; reflexivity].
  apply Z.leb_le in Hy. right.
  destruct (IH (i + 1) i) as [H|(k & Hk & H & Hn)].
  - exists O. rewrite H. repeat split; [lia|lia|exact Hy].
  - exists (S k). rewrite H. repeat split; [lia|lia|exact Hn].
Qed.

(** In an increasing table the index found is the index of the last entry
    that is not above [x]. *)
Lemma searchInts_from_exact (a : list Z) (x : Z) :
  StronglySorted Z.lt a ->
  forall (k : nat) i best,
    (k < length a)%nat ->
    nth k a 0 <= x ->
    (forall y, a !! S k = Some y -> x < y) ->
    token.searchInts_from a x i best = i + Z.of_nat k.
Proof.
  induction 1 as [|y a Hs IH Hy]; intros k i best Hk Hn Hnext; simpl in Hk; [lia|].
  simpl token.searchInts_from.
  destruct k as [|k].
  - simpl in Hn. replace (y <=? x) with true by (symmetry; apply Z.leb_le; lia).
    destruct a as [|y' a']; simpl; [lia|].
    specialize (Hnext y' eq_refl).
    replace (y' <=? x) with false by (symmetry; apply Z.leb_gt; lia). lia.
  - simpl in Hn.
    assert (Hyn : y < nth k a 0).
    { rewrite List.Forall_forall in Hy. apply Hy. apply nth_In. lia. }
    replace (y <=? x) with true by (symmetry; apply Z.leb_le; lia).
    rewrite (IH k (i + 1) i) by (try lia; auto). lia.
Qed.

(** ** What an accepted [SetContent] leaves *)

Lemma line_starts_after_count (content : list byte) :
  forall offset,
    length (line_starts_after content offset)
    = length (List.filter (fun b => byte_val b =? 10) content).
Proof.
  induction content as [|b rest IH]; intros offset; simpl; [reflexivity|].
  rewrite length_app, IH. destruct (byte_val b =? 10); reflexivity.
Qed.

Section AcceptedSetContent.

Variable maxDocumentSize : Z.

(** The state of a [SetContent] that returned nil. *)
Lemma SetContent_nil (d : DocumentHandle) (lifetime : Context) (content' : list byte)
      (version' : float) (new : bool) (s s' : state) :
  SetContent maxDocumentSize d lifetime content' version' new s = Returns None s' ->
  lock_free s = true /\
  negb new && PrimFloat.leb version' (version (doc s)) = false /\
  len content' <= maxDocumentSize /\
  exists cs, length cs = length (ctxs s) /\ extends (ctxs s) cs /\
             s' = updated lifetime content' version' cs (doc s).
Proof.
  rewrite SetContent_outcome.
  destruct (lock_free s); [|discriminate].
  destruct (negb new && PrimFloat.leb version' (version (doc s))); [discriminate|].
  destruct (maxDocumentSize <? len content') eqn:Hsize; [discriminate|].
  apply Z.ltb_ge in Hsize.
  destruct new.
  - intros H. injection H as <-.
    split; [reflexivity|]. split; [reflexivity|]. split; [exact Hsize|].
    exists (ctxs s). split; [reflexivity|]. split; [apply extends_refl|reflexivity].
  - destruct (obsoleteVersion (doc s)) as [i|]; [|discriminate].
    intros H. injection H as <-.
    split; [reflexivity|]. split; [reflexivity|]. split; [exact Hsize|].
    exists (cancel i (ctxs s)).
    split; [apply length_cancel|]. split; [apply extends_cancel|reflexivity].
Qed.

(** X4.  An accepted [SetContent] rebuilds the line table from the new
    content: line 1 starts at offset 0 and a line starts after every newline
    of the content, the last one included, so that the table has one line
    more than the content has newlines. *)
Theorem SetContent_indexes_content (d : DocumentHandle) (lifetime : Context)
        (content' : list byte) (version' : float) (new : bool) (s s' : state) :
  SetContent maxDocumentSize d lifetime content' version' new s = Returns None s' ->
  content (doc s') = content' /\
  indexed s' /\
  len (token.lines (posData (doc s')))
  = 1 + len (List.filter (fun b => byte_val b =? 10) content').
Proof.
  intros H. destruct (SetContent_nil _ _ _ _ _ _ _ H) as (_ & _ & _ & cs & _ & _ & ->).
  assert (Hidx : indexed (updated lifetime content' version' cs (doc s))).
  { unfold indexed, updated. simpl.
    rewrite lines_for_newline_terminated by lia. reflexivity. }
  split; [reflexivity|]. split; [exact Hidx|].
  rewrite Hidx. unfold len. simpl length.
  rewrite line_starts_after_count. simpl. lia.
Qed.

Lemma SetContent_returns_unlocked (d : DocumentHandle) (lifetime : Context)
      (content' : list byte) (version' : float) (new : bool) (r : option error)
      (s s' : state) :
  SetContent maxDocumentSize d lifetime content' version' new s = Returns r s' ->
  lock_free s = true /\ mu (doc s') = mu (doc s).
Proof.
  rewrite SetContent_outcome.
  destruct (lock_free s); [|discriminate].
  destruct (negb new && PrimFloat.leb version' (version (doc s))).
  { intros H. injection H as _ <-. auto. }
  destruct (maxDocumentSize <? len content').
  { intros H. injection H as _ <-. auto. }
  destruct new.
  - intros H. injection H as _ <-. auto.
  - destruct (obsoleteVersion (doc s)) as [i|]; [|discriminate].
    intros H. injection H as _ <-. auto.
Qed.

Lemma lock_free_writer (s : state) : lock_free s = true -> writer (mu (doc s)) = false.
Proof.
  unfold lock_free. intros H. apply andb_true_iff in H. destruct H as [H _].
  apply negb_true_iff in H. exact H.
Qed.

(** X5.  Set and get.  After an accepted [SetContent], a handle of the new
    version context that is still live reads back, through [GetContent] and
    [GetVersion], the content and the version that were set. *)
Theorem SetContent_read_back (d h : DocumentHandle) (lifetime : Context)
        (content' : list byte) (version' : float) (new : bool) (s s' : state) :
  SetContent maxDocumentSize d lifetime content' version' new s = Returns None s' ->
  versionCtx (doc s') = Some (ctx h) ->
  Done (ctxs s') (ctx h) = false ->
  GetContent h s' = Returns (content', None) s' /\
  GetVersion h s' = Returns (version', None) s'.
Proof.
  intros Hset Hh Hd.
  destruct (SetContent_returns_unlocked _ _ _ _ _ _ _ _ Hset) as [Hfree Hmu].
  assert (Hw : writer (mu (doc s')) = false)
    by (rewrite Hmu; apply lock_free_writer; exact Hfree).
  destruct (SetContent_nil _ _ _ _ _ _ _ Hset) as (_ & _ & _ & cs & _ & _ & Hs').
  assert (Hc : content (doc s') = content') by (rewrite Hs'; reflexivity).
  assert (Hv : version (doc s') = version') by (rewrite Hs'; reflexivity).
  split.
  - unfold GetContent. apply read_section_returns; [exact Hw|].
    rewrite live_body by exact Hd. unfold bind, get_doc, ret.
    change (content (doc (rlocked s'))) with (content (doc s')). rewrite Hc. reflexivity.
  - unfold GetVersion. apply read_section_returns; [exact Hw|].
    rewrite live_body by exact Hd. unfold bind, get_doc, ret.
    change (version (doc (rlocked s'))) with (version (doc s')). rewrite Hv. reflexivity.
Qed.

(** X6.  The version context [SetContent] mints is a child of the server's
    context: once the call has returned it is done exactly when that context
    is done, and it is live when the server's context is the background
    context. *)
Theorem SetContent_version_context (d : DocumentHandle) (lifetime : Context)
        (content' : list byte) (version' : float) (new : bool) (s s' : state) :
  ctxs_wf (ctxs s) ->
  match lifetime with Background => True | cancelCtx j => (j < length (ctxs s))%nat end ->
  SetContent maxDocumentSize d lifetime content' version' new s = Returns None s' ->
  exists c, versionCtx (doc s') = Some c /\
            Done (ctxs s') c = Done (ctxs s') lifetime /\
            (lifetime = Background -> Done (ctxs s') c = false).
Proof.
  intros Hwf Hl Hset.
  pose proof (SetContent_ctxs_wf _ _ _ _ _ _ _ _ _ Hwf Hl Hset) as Hwf'.
  destruct (SetContent_nil _ _ _ _ _ _ _ Hset) as (_ & _ & _ & cs & Hlen & _ & Hs').
  exists (cancelCtx (length cs)). rewrite Hs' in *. simpl in *.
  assert (Hlook : (cs ++ [{| parent := lifetime; canceled := false |}]) !! length cs
                  = Some {| parent := lifetime; canceled := false |}).
  { rewrite lookup_app_r by lia. rewrite Nat.sub_diag. reflexivity. }
  pose proof (Done_equation _ _ _ Hwf' Hlook) as Heq. simpl in Heq.
  split; [reflexivity|]. split; [exact Heq|].
  intros ->. rewrite Heq. reflexivity.
Qed.

(** X7.  [SetContent] never touches the identity of the document: whatever it
    returns, the URI, the language and the base of the file are those it
    found, which is why [GetURI] and [GetLanguageID] need no check. *)
Theorem SetContent_keeps_identity (d h : DocumentHandle) (lifetime : Context)
        (content' : list byte) (version' : float) (new : bool) (r : option error)
        (s s' : state) :
  SetContent maxDocumentSize d lifetime content' version' new s = Returns r s' ->
  GetURI h s' = Returns (uri (doc s)) s' /\
  GetLanguageID h s' = Returns (languageID (doc s)) s' /\
  token.Base (posData (doc s')) = token.Base (posData (doc s)) /\
  token.size (posData (doc s')) = token.size (posData (doc s)).
Proof.
  rewrite SetContent_outcome.
  destruct (lock_free s); [|discriminate].
  destruct (negb new && PrimFloat.leb version' (version (doc s))).
  { intros H. injection H as _ <-. repeat apply conj; reflexivity. }
  destruct (maxDocumentSize <? len content').
  { intros H. injection H as _ <-. repeat apply conj; reflexivity. }
  destruct new.
  - intros H. injection H as _ <-. repeat apply conj; reflexivity.
  - destruct (obsoleteVersion (doc s)) as [i|]; [|discriminate].
    intros H. injection H as _ <-. repeat apply conj; reflexivity.
Qed.

(** X8.  The stored version never goes back.  A [SetContent] that is not the
    first of its document either refuses and leaves the state alone, or
    stores a version that is not less than or equal to the one it found. *)
Theorem SetContent_version_advances (d : DocumentHandle) (lifetime : Context)
        (content' : list byte) (version' : float) (r : option error) (s s' : state) :
  SetContent maxDocumentSize d lifetime content' version' false s = Returns r s' ->
  (r <> None /\ s' = s) \/
  (r = None /\ version (doc s') = version' /\
   PrimFloat.leb (version (doc s')) (version (doc s)) = false).
Proof.
  rewrite SetContent_outcome.
  destruct (lock_free s); [|discriminate]. simpl negb. rewrite andb_true_l.
  destruct (PrimFloat.leb version' (version (doc s))) eqn:Hv.
  { intros H. injection H as <- <-. left. split; [discriminate|reflexivity]. }
  destruct (maxDocumentSize <? len content').
  { intros H. injection H as <- <-. left. split; [discriminate|reflexivity]. }
  destruct (obsoleteVersion (doc s)) as [i|]; [|discriminate].
  intros H. injection H as <- <-. right. simpl. auto.
Qed.

(** X9.  [SetContent] never revives a handle.  A handle whose context is done
    stays obsolete through every later [SetContent], whatever that call
    returns: its getters keep failing with the error of the context. *)
Theorem SetContent_never_revives (d h : DocumentHandle) (lifetime : Context)
        (content' : list byte) (version' : float) (new : bool) (r : option error)
        (s s' : state) :
  Done (ctxs s) (ctx h) = true ->
  SetContent maxDocumentSize d lifetime content' version' new s = Returns r s' ->
  Done (ctxs s') (ctx h) = true /\ fails_obsolete h s'.
Proof.
  intros Hd Hset.
  assert (Hd' : Done (ctxs s') (ctx h) = true).
  { eapply Done_extends; [|exact Hd]. eapply SetContent_extends_ctxs. exact Hset. }
  split; [exact Hd'|]. apply obsolete_handle_fails; [exact Hd'|].
  destruct (SetContent_returns_unlocked _ _ _ _ _ _ _ _ Hset) as [Hfree Hmu].
  rewrite Hmu. apply lock_free_writer. exact Hfree.
Qed.

End AcceptedSetContent.

(** ** Offsets, lines and columns *)

Lemma indexed_line_count (s : state) :
  indexed s -> 1 <= len (token.lines (posData (doc s))) <= 1 + len (content (doc s)).
Proof.
  intros ->. unfold len. simpl length. rewrite line_starts_after_count.
  pose proof (List.filter_length_le (fun b => byte_val b =? 10) (content (doc s))). lia.
Qed.

(** In an indexed file every offset from 0 on lies on a line: [searchInts]
    finds the index of a line that starts at or before the offset. *)
Lemma indexed_searchInts (s : state) (offset : Z) :
  indexed s -> 0 <= offset ->
  exists n : nat,
    (n < length (token.lines (posData (doc s))))%nat /\
    token.searchInts (token.lines (posData (doc s))) offset = Z.of_nat n /\
    0 <= nth n (token.lines (posData (doc s))) 0 <= offset.
Proof.
  intros Hidx Ho. pose proof (indexed_bounds s Hidx) as Hb.
  rewrite List.Forall_forall in Hb.
  assert (Hnth : forall n, (n < length (token.lines (posData (doc s))))%nat ->
                           0 <= nth n (token.lines (posData (doc s))) 0).
  { intros n Hn. apply Hb. apply nth_In. exact Hn. }
  rewrite Hidx in *. unfold token.searchInts. simpl token.searchInts_from.
  replace (0 <=? offset) with true by (symmetry; apply Z.leb_le; lia).
  destruct (searchInts_from_found (line_starts_after (content (doc s)) 0) offset (0 + 1) 0)
    as [H|(k & Hk & H & Hn)].
  - exists O. rewrite H. simpl. repeat split; lia.
  - exists (S k). rewrite H. simpl length. repeat split; [lia|lia| |exact Hn].
    apply (Hnth (S k)). simpl. lia.
Qed.

Lemma wrap_int_add_0 (z : Z) : - 2 ^ 63 <= z < 2 ^ 63 -> int_add z 0 = z.
Proof. intros H. unfold int_add. rewrite Z.add_0_r. apply wrap_int_small. exact H. Qed.

(** [YamlPositionToTokenPos] on a live handle: a column below 1 is refused
    before the line is looked at; a line of the table gives its start plus
    the column minus 1. *)
Lemma YamlPositionToTokenPos_column (d : DocumentHandle) (line column lineOffset : Z)
      (s : state) :
  writer (mu (doc s)) = false ->
  Done (ctxs s) (ctx d) = false ->
  column < 1 ->
  YamlPositionToTokenPos d line column lineOffset s
  = Returns (0, Some ErrInvalidPosition) s.
Proof.
  intros Hw Hd Hc. unfold YamlPositionToTokenPos.
  apply read_section_returns; [exact Hw|]. rewrite live_body by exact Hd.
  apply Z.ltb_lt in Hc. rewrite Hc. reflexivity.
Qed.

Lemma YamlPositionToTokenPos_in_range (d : DocumentHandle) (line column lineOffset : Z)
      (s : state) :
  writer (mu (doc s)) = false ->
  Done (ctxs s) (ctx d) = false ->
  1 <= column ->
  1 <= int_add line lineOffset <= len (token.lines (posData (doc s))) ->
  YamlPositionToTokenPos d line column lineOffset s
  = Returns (int_add (token.base (posData (doc s))
                      + nth (Z.to_nat (int_add line lineOffset - 1))
                            (token.lines (posData (doc s))) 0)
                     (int_sub column 1), None) s.
Proof.
  intros Hw Hd Hc Hl. unfold YamlPositionToTokenPos.
  apply read_section_returns; [exact Hw|]. rewrite live_body by exact Hd.
  replace (column <? 1) with false by (symmetry; apply Z.ltb_ge; lia).
  unfold bind at 1.
  rewrite (LineStartSafe_in_range d _ (rlocked s)) by exact Hl.
  reflexivity.
Qed.

Lemma TokenPosToTokenPosition_value (d : DocumentHandle) (pos : Z) (p : token.Position)
      (s : state) :
  writer (mu (doc s)) = false ->
  Done (ctxs s) (ctx d) = false ->
  token.PositionOf (posData (doc s)) pos = Value p ->
  TokenPosToTokenPosition d pos s = Returns (p, None) s.
Proof.
  intros Hw Hd Hp. unfold TokenPosToTokenPosition.
  apply read_section_returns; [exact Hw|]. rewrite live_body by exact Hd.
  unfold bind, get_doc. rewrite posData_rlocked, Hp. reflexivity.
Qed.

(** X10.  From a [token.Pos] to its line and column and back.  For every
    [token.Pos] of the file of an indexed document, [TokenPosToTokenPosition]
    gives a line of the table and a column from 1 on, and
    [YamlPositionToTokenPos] of that line and column, with no line offset,
    gives the [token.Pos] again. *)
Theorem token_pos_round_trip (d : DocumentHandle) (pos : Z) (s : state) :
  indexed s -> file_in_range s ->
  writer (mu (doc s)) = false ->
  Done (ctxs s) (ctx d) = false ->
  token.base (posData (doc s)) <= pos
    <= token.base (posData (doc s)) + token.size (posData (doc s)) ->
  pos <> token.NoPos ->
  exists p,
    TokenPosToTokenPosition d pos s = Returns (p, None) s /\
    1 <= token.Line p <= len (token.lines (posData (doc s))) /\
    1 <= token.Column p /\
    token.Offset p = pos - token.base (posData (doc s)) /\
    YamlPositionToTokenPos d (token.Line p) (token.Column p) 0 s = Returns (pos, None) s.
Proof.
  intros Hidx (Hb0 & Hs0 & Hcs & Hmax) Hw Hd Hpos Hnp.
  destruct (indexed_searchInts s (pos - token.base (posData (doc s))) Hidx ltac:(lia))
    as (n & Hn & Hsearch & Hl0 & Hl1).
  pose proof (indexed_line_count s Hidx) as Hcount.
  set (p := {| token.Filename := token.name (posData (doc s));
               token.Offset := pos - token.base (posData (doc s));
               token.Line := Z.of_nat n + 1;
               token.Column := pos - token.base (posData (doc s))
                               - nth n (token.lines (posData (doc s))) 0 + 1 |}).
  assert (Hp : token.PositionOf (posData (doc s)) pos = Value p).
  { unfold token.PositionOf.
    replace (pos =? token.NoPos) with false by (symmetry; apply Z.eqb_neq; exact Hnp).
    replace ((pos <? token.base (posData (doc s)))
             || (token.base (posData (doc s)) + token.size (posData (doc s)) <? pos))
      with false.
    2:{ symmetry. apply orb_false_iff. split; [apply Z.ltb_ge|apply Z.ltb_ge]; lia. }
    rewrite Hsearch.
    replace (0 <=? Z.of_nat n) with true by (symmetry; apply Z.leb_le; lia).
    rewrite Nat2Z.id. reflexivity. }
  exists p. split; [apply TokenPosToTokenPosition_value; assumption|].
  assert (Hlen : Z.of_nat n + 1 <= len (token.lines (posData (doc s))))
    by (unfold len; lia).
  split; [simpl; lia|]. split; [simpl; lia|]. split; [reflexivity|].
  assert (Hline : int_add (token.Line p) 0 = Z.of_nat n + 1).
  { simpl token.Line. apply wrap_int_add_0. lia. }
  rewrite YamlPositionToTokenPos_in_range; try assumption.
  - rewrite Hline. simpl token.Column.
    replace (Z.to_nat (Z.of_nat n + 1 - 1)) with n by lia.
    unfold int_sub, int_add.
    replace (pos - token.base (posData (doc s))
             - nth n (token.lines (posData (doc s))) 0 + 1 - 1)
      with (pos - token.base (posData (doc s)) - nth n (token.lines (posData (doc s))) 0)
      by lia.
    rewrite (wrap_int_small (pos - token.base (posData (doc s))
                             - nth n (token.lines (posData (doc s))) 0)) by lia.
    replace (token.base (posData (doc s)) + nth n (token.lines (posData (doc s))) 0
             + (pos - token.base (posData (doc s))
                - nth n (token.lines (posData (doc s))) 0)) with pos by lia.
    rewrite wrap_int_small by lia. reflexivity.
  - simpl. lia.
  - rewrite Hline. lia.
Qed.

(** X11.  From a line and a column to the [token.Pos] and back.  In an indexed
    document, for a line of the table and a column from 1 on that lies on the
    line (before the start of the next line, if there is one),
    [YamlPositionToTokenPos] gives the start of the line plus the column
    minus 1, and [TokenPosToTokenPosition] of that [token.Pos] gives the line
    and the column again: an offset has one line and column only. *)
Theorem line_column_round_trip (d : DocumentHandle) (n : nat) (column : Z) (s : state) :
  indexed s -> file_in_range s ->
  writer (mu (doc s)) = false ->
  Done (ctxs s) (ctx d) = false ->
  (n < length (token.lines (posData (doc s))))%nat ->
  1 <= column ->
  (forall next, token.lines (posData (doc s)) !! S n = Some next ->
                nth n (token.lines (posData (doc s))) 0 + column - 1 < next) ->
  nth n (token.lines (posData (doc s))) 0 + column - 1 <= token.size (posData (doc s)) ->
  token.base (posData (doc s)) + nth n (token.lines (posData (doc s))) 0 + column - 1
    <> token.NoPos ->
  let pos := token.base (posData (doc s))
             + nth n (token.lines (posData (doc s))) 0 + column - 1 in
  YamlPositionToTokenPos d (Z.of_nat n + 1) column 0 s = Returns (pos, None) s /\
  TokenPosToTokenPosition d pos s
  = Returns ({| token.Filename := token.name (posData (doc s));
                token.Offset := pos - token.base (posData (doc s));
                token.Line := Z.of_nat n + 1;
                token.Column := column |}, None) s.
Proof.
  intros Hidx (Hb0 & Hs0 & Hcs & Hmax) Hw Hd Hn Hc Hnext Hsize Hnp pos.
  pose proof (indexed_line_count s Hidx) as Hcount.
  pose proof (indexed_bounds s Hidx) as Hb. rewrite List.Forall_forall in Hb.
  assert (Hl : 0 <= nth n (token.lines (posData (doc s))) 0).
  { apply Hb. apply nth_In. exact Hn. }
  assert (Hline : int_add (Z.of_nat n + 1) 0 = Z.of_nat n + 1).
  { apply wrap_int_add_0. unfold len in *. lia. }
  split.
  - rewrite YamlPositionToTokenPos_in_range; try assumption.
    + rewrite Hline. replace (Z.to_nat (Z.of_nat n + 1 - 1)) with n by lia.
      unfold int_sub, int_add. rewrite (wrap_int_small (column - 1)) by lia.
      rewrite wrap_int_small by lia. f_equal. f_equal. unfold pos. lia.
    + rewrite Hline. unfold len. lia.
  - apply TokenPosToTokenPosition_value; try assumption.
    unfold token.PositionOf.
    replace (pos =? token.NoPos) with false by (symmetry; apply Z.eqb_neq; exact Hnp).
    replace ((pos <? token.base (posData (doc s)))
             || (token.base (posData (doc s)) + token.size (posData (doc s)) <? pos))
      with false.
    2:{ symmetry. apply orb_false_iff. unfold pos.
        split; [apply Z.ltb_ge|apply Z.ltb_ge]; lia. }
    unfold token.searchInts.
    rewrite (searchInts_from_exact _ _ (indexed_sorted s Hidx) n 0 (-1) Hn).
    + replace (0 <=? 0 + Z.of_nat n) with true by (symmetry; apply Z.leb_le; lia).
      replace (Z.to_nat (0 + Z.of_nat n)) with n by lia.
      f_equal. f_equal; unfold pos; lia.
    + unfold pos. lia.
    + intros y Hy. specialize (Hnext y Hy). unfold pos. lia.
Qed.

(** X12.  Every line of an indexed document can be looked up, and starts
    within the content or at its end; line 1 starts at the base of the
    file. *)
Theorem LineStartSafe_indexed (d : DocumentHandle) (line : Z) (s : state) :
  indexed s ->
  1 <= line <= len (token.lines (posData (doc s))) ->
  exists pos,
    LineStartSafe d line s = Returns (pos, None) s /\
    token.base (posData (doc s)) <= pos
      <= token.base (posData (doc s)) + len (content (doc s)) /\
    (line = 1 -> pos = token.base (posData (doc s))).
Proof.
  intros Hidx Hline.
  pose proof (indexed_bounds s Hidx) as Hb. rewrite List.Forall_forall in Hb.
  assert (Hnth : 0 <= nth (Z.to_nat (line - 1)) (token.lines (posData (doc s))) 0
                 <= len (content (doc s))).
  { apply Hb. apply nth_In. unfold len in Hline. lia. }
  eexists. split; [apply LineStartSafe_in_range; exact Hline|].
  split; [lia|]. intros ->. rewrite Hidx. simpl. lia.
Qed.

(** ** [GetSubstring] *)

Lemma slice_decompose {A : Type} (l : list A) (p e : nat) :
  (p <= e <= length l)%nat ->
  l = take p l ++ drop p (take e l) ++ drop e l /\
  length (take p l) = p /\
  length (drop p (take e l)) = (e - p)%nat.
Proof.
  intros H. split; [|split].
  - rewrite <- (take_drop e l) at 1. rewrite <- (take_drop p (take e l)) at 1.
    rewrite take_take. replace (p `min` e)%nat with p by lia.
    rewrite <- app_assoc. reflexivity.
  - rewrite length_take. lia.
  - rewrite length_drop, length_take. lia.
Qed.

Lemma GetSubstring_value (d : DocumentHandle) (pos endPos : Z) (s : state) :
  writer (mu (doc s)) = false ->
  Done (ctxs s) (ctx d) = false ->
  GetSubstring d pos endPos s
  = Returns
      (let p := int_sub pos (token.base (posData (doc s))) in
       let e := int_sub endPos (token.base (posData (doc s))) in
       if (p <? 0) || (e <? p) || (len (content (doc s)) <? e)
       then ([], Some ErrInvalidRange)
       else (slice_from (slice_to (content (doc s)) e) p, None)) s.
Proof.
  intros Hw Hd. unfold GetSubstring.
  apply read_section_returns; [exact Hw|]. rewrite live_body by exact Hd.
  unfold bind, get_doc. cbv zeta.
  change (content (doc (rlocked s))) with (content (doc s)).
  rewrite posData_rlocked. unfold token.Base.
  destruct ((int_sub pos (token.base (posData (doc s))) <? 0)
            || (int_sub endPos (token.base (posData (doc s)))
                <? int_sub pos (token.base (posData (doc s))))
            || (len (content (doc s))
                <? int_sub endPos (token.base (posData (doc s))))); reflexivity.
Qed.

(** X13.  The bounds of [GetSubstring].  On a live handle, for two positions
    within the range of [int] of the base, the call returns the bytes from
    [pos] to [endPos], [endPos - pos] of them, when
    [base <= pos <= endPos <= base + len(content)], and fails with "invalid
    range" in every other case, an end before the start among them. *)
Theorem GetSubstring_bounds (d : DocumentHandle) (pos endPos : Z) (s : state) :
  writer (mu (doc s)) = false ->
  Done (ctxs s) (ctx d) = false ->
  - 2 ^ 63 <= pos - token.base (posData (doc s)) < 2 ^ 63 ->
  - 2 ^ 63 <= endPos - token.base (posData (doc s)) < 2 ^ 63 ->
  (token.base (posData (doc s)) <= pos <= endPos /\
   endPos <= token.base (posData (doc s)) + len (content (doc s)) ->
   exists before r after,
     content (doc s) = before ++ r ++ after /\
     len before = pos - token.base (posData (doc s)) /\
     len r = endPos - pos /\
     GetSubstring d pos endPos s = Returns (r, None) s) /\
  (~ (token.base (posData (doc s)) <= pos <= endPos /\
      endPos <= token.base (posData (doc s)) + len (content (doc s))) ->
   GetSubstring d pos endPos s = Returns ([], Some ErrInvalidRange) s).
Proof.
  intros Hw Hd Hp He. rewrite (GetSubstring_value d pos endPos s Hw Hd). cbv zeta.
  unfold int_sub. rewrite !wrap_int_small by assumption.
  split.
  - intros [[Hb Hpe] Hlen].
    replace ((pos - token.base (posData (doc s)) <? 0)
             || (endPos - token.base (posData (doc s))
                 <? pos - token.base (posData (doc s)))
             || (len (content (doc s)) <? endPos - token.base (posData (doc s))))
      with false.
    2:{ symmetry. rewrite !orb_false_iff. repeat split; apply Z.ltb_ge; lia. }
    destruct (slice_decompose (content (doc s))
                (Z.to_nat (pos - token.base (posData (doc s))))
                (Z.to_nat (endPos - token.base (posData (doc s)))))
      as (Hdec & Hl1 & Hl2); [unfold len in Hlen; lia|].
    eexists _, _, _. split; [exact Hdec|].
    unfold len. rewrite Hl1, Hl2. repeat split; lia.
  - intros Hout.
    replace ((pos - token.base (posData (doc s)) <? 0)
             || (endPos - token.base (posData (doc s))
                 <? pos - token.base (posData (doc s)))
             || (len (content (doc s)) <? endPos - token.base (posData (doc s))))
      with true; [reflexivity|].
    symmetry. rewrite !orb_true_iff, !Z.ltb_lt. lia.
Qed.

(** X14.  Substrings compose.  For [base <= a <= b <= c <= base + len(content)]
    the substring from [a] to [c] is the one from [a] to [b] followed by the
    one from [b] to [c], and the substring from the base to the end of the
    content is the content [GetContent] returns. *)
Theorem GetSubstring_concat (d : DocumentHandle) (a b c : Z) (s : state) :
  writer (mu (doc s)) = false ->
  Done (ctxs s) (ctx d) = false ->
  0 <= token.base (posData (doc s)) ->
  token.base (posData (doc s)) + len (content (doc s)) < 2 ^ 63 ->
  token.base (posData (doc s)) <= a <= b ->
  b <= c <= token.base (posData (doc s)) + len (content (doc s)) ->
  (exists r1 r2,
      GetSubstring d a b s = Returns (r1, None) s /\
      GetSubstring d b c s = Returns (r2, None) s /\
      GetSubstring d a c s = Returns (r1 ++ r2, None) s) /\
  GetSubstring d (token.base (posData (doc s)))
    (token.base (posData (doc s)) + len (content (doc s))) s
  = GetContent d s.
Proof.
  intros Hw Hd Hb0 Hmax Hab Hbc.
  pose proof (len_nonneg (content (doc s))) as Hlen.
  assert (Hsub : forall x y,
             token.base (posData (doc s)) <= x <= y ->
             y <= token.base (posData (doc s)) + len (content (doc s)) ->
             GetSubstring d x y s
             = Returns (drop (Z.to_nat (x - token.base (posData (doc s))))
                          (take (Z.to_nat (y - token.base (posData (doc s))))
                             (content (doc s))), None) s).
  { intros x y Hxy Hy. rewrite (GetSubstring_value d x y s Hw Hd). cbv zeta.
    unfold int_sub. rewrite !wrap_int_small by lia.
    replace ((x - token.base (posData (doc s)) <? 0)
             || (y - token.base (posData (doc s)) <? x - token.base (posData (doc s)))
             || (len (content (doc s)) <? y - token.base (posData (doc s))))
      with false; [reflexivity|].
    symmetry. rewrite !orb_false_iff. repeat split; apply Z.ltb_ge; lia. }
  split.
  - exists (drop (Z.to_nat (a - token.base (posData (doc s))))
              (take (Z.to_nat (b - token.base (posData (doc s)))) (content (doc s)))),
           (drop (Z.to_nat (b - token.base (posData (doc s))))
              (take (Z.to_nat (c - token.base (posData (doc s)))) (content (doc s)))).
    rewrite !Hsub by lia. split; [reflexivity|]. split; [reflexivity|].
    f_equal. f_equal.
    set (na := Z.to_nat (a - token.base (posData (doc s)))).
    set (nb := Z.to_nat (b - token.base (posData (doc s)))).
    set (nc := Z.to_nat (c - token.base (posData (doc s)))).
    assert (Hn : (na <= nb <= nc)%nat) by (unfold na, nb, nc; lia).
    assert (Hnc : (nc <= length (content (doc s)))%nat)
      by (unfold nc, len in *; lia).
    rewrite <- (take_drop nb (take nc (content (doc s)))) at 1.
    rewrite take_take. replace (nb `min` nc)%nat with nb by lia.
    apply drop_app_le. rewrite length_take. lia.
  - rewrite Hsub by lia.
    replace (Z.to_nat (token.base (posData (doc s)) - token.base (posData (doc s))))
      with O by lia.
    rewrite drop_0, take_ge by (unfold len; lia).
    unfold GetContent. symmetry.
    apply read_section_returns; [exact Hw|]. rewrite live_body by exact Hd.
    reflexivity.
Qed.

(** ** Batches of edits *)

Section Batches.

Variable RangeSpan : string -> list byte -> protocol.Range -> span.Span * option error.

(** The loop over a batch in two parts is the loop over the first part
    followed, when that gave a text, by the loop over the second part on
    that text. *)
Lemma apply_changes_app (uri' : string)
      (a b : list protocol.TextDocumentContentChangeEvent) :
  forall content' s,
    apply_changes RangeSpan uri' (a ++ b) content' s
    = match apply_changes RangeSpan uri' a content' s with
      | Returns (mid, None) s' => apply_changes RangeSpan uri' b mid s'
      | o => o
      end.
Proof.
  induction a as [|change rest IH]; intros content' s.
  - reflexivity.
  - cbn [app apply_changes]. unfold bind, deref, lift, ret, panic.
    destruct (protocol.Range_ change) as [r|]; [|reflexivity].
    destruct (RangeSpan uri' content' r) as [spn [e|]]; [reflexivity|].
    destruct (negb (span.HasOffset (span.Start spn))); [reflexivity|].
    destruct (span.OffsetOf (span.Start spn)) as [start|v]; [|reflexivity].
    destruct (span.OffsetOf (span.End_ spn)) as [end_|v]; [|reflexivity].
    destruct (end_ <? start); [reflexivity|].
    destruct ((start <? 0) || (len content' <? start) || (len content' <? end_));
      [reflexivity|].
    apply IH.
Qed.

(** The loop reads nothing of the state. *)
Lemma apply_changes_same_result (uri' : string)
      (changes : list protocol.TextDocumentContentChangeEvent) :
  forall content' s1 s2,
    same_result (apply_changes RangeSpan uri' changes content' s1)
                (apply_changes RangeSpan uri' changes content' s2).
Proof.
  induction changes as [|change rest IH]; intros content' s1 s2.
  - reflexivity.
  - cbn [app apply_changes]. unfold bind, deref, lift, ret, panic.
    destruct (protocol.Range_ change) as [r|]; [|reflexivity].
    destruct (RangeSpan uri' content' r) as [spn [e|]]; [reflexivity|].
    destruct (negb (span.HasOffset (span.Start spn))); [reflexivity|].
    destruct (span.OffsetOf (span.Start spn)) as [start|v]; [|reflexivity].
    destruct (span.OffsetOf (span.End_ spn)) as [end_|v]; [|reflexivity].
    destruct (end_ <? start); [reflexivity|].
    destruct ((start <? 0) || (len content' <? start) || (len content' <? end_));
      [reflexivity|].
    apply IH.
Qed.

(** [ApplyIncrementalChanges] once it has the read lock, in terms of the
    loop. *)
Lemma ApplyIncrementalChanges_outcome (d : DocumentHandle)
      (changes : list protocol.TextDocumentContentChangeEvent) (version' : float)
      (s : state) :
  writer (mu (doc s)) = false ->
  ApplyIncrementalChanges RangeSpan d changes version' s
  = if PrimFloat.leb version' (version (doc s)) then
      Returns ([], Some ErrVersionNotIncreasing) s
    else
      match apply_changes RangeSpan (uri (doc s)) changes (content (doc s)) (rlocked s) with
      | Returns r _ => Returns r s
      | Panics v _ => Panics v s
      | Blocks => Blocks
      end.
Proof.
  intros Hw. unfold ApplyIncrementalChanges.
  rewrite (bind_Returns _ _ _ _ _ (RLock_free s Hw)). unfold defer.
  rewrite (bind_Returns get_doc _ (rlocked s) (rlocked s) (doc (rlocked s)) eq_refl).
  change (version (doc (rlocked s))) with (version (doc s)).
  change (uri (doc (rlocked s))) with (uri (doc s)).
  change (content (doc (rlocked s))) with (content (doc s)).
  destruct (PrimFloat.leb version' (version (doc s))).
  - unfold ret. rewrite (RUnlock_rlocked s Hw). reflexivity.
  - pose proof (preserves_apply_changes RangeSpan (uri (doc s)) changes (content (doc s))
                  (rlocked s)) as Hp.
    destruct (apply_changes RangeSpan (uri (doc s)) changes (content (doc s)) (rlocked s))
      as [r s1|v s1|]; [| |contradiction]; subst s1;
      rewrite (RUnlock_rlocked s Hw); reflexivity.
Qed.

(** X15.  A stale version is refused before any edit is looked at.  With a
    version that is less than or equal to the stored one
    [ApplyIncrementalChanges] returns "Update to file didn't increase version
    number" for every batch, one with an edit without range included, and
    leaves the state as it is. *)
Theorem ApplyIncrementalChanges_stale_version (d : DocumentHandle)
        (changes : list protocol.TextDocumentContentChangeEvent) (version' : float)
        (s : state) :
  writer (mu (doc s)) = false ->
  PrimFloat.leb version' (version (doc s)) = true ->
  ApplyIncrementalChanges RangeSpan d changes version' s
  = Returns ([], Some ErrVersionNotIncreasing) s.
Proof.
  intros Hw Hv. rewrite ApplyIncrementalChanges_outcome by exact Hw.
  rewrite Hv. reflexivity.
Qed.

(** X16.  A batch can be cut anywhere.  When the first part of a batch gives
    the text [mid], the whole batch gives what the second part gives on a
    document whose content is [mid]: every edit works on the content as the
    edits before it left it. *)
Theorem ApplyIncrementalChanges_batch_split (d : DocumentHandle)
        (a b : list protocol.TextDocumentContentChangeEvent) (version' : float)
        (mid : list byte) (s : state) :
  writer (mu (doc s)) = false ->
  ApplyIncrementalChanges RangeSpan d a version' s = Returns (mid, None) s ->
  same_result (ApplyIncrementalChanges RangeSpan d (a ++ b) version' s)
              (ApplyIncrementalChanges RangeSpan d b version' (with_stored_content mid s)).
Proof.
  intros Hw Ha.
  rewrite ApplyIncrementalChanges_outcome in Ha by exact Hw.
  rewrite !ApplyIncrementalChanges_outcome by exact Hw.
  change (version (doc (with_stored_content mid s))) with (version (doc s)).
  change (uri (doc (with_stored_content mid s))) with (uri (doc s)).
  change (content (doc (with_stored_content mid s))) with mid.
  destruct (PrimFloat.leb version' (version (doc s))); [discriminate|].
  rewrite apply_changes_app.
  pose proof (preserves_apply_changes RangeSpan (uri (doc s)) a (content (doc s))
                (rlocked s)) as Hp.
  destruct (apply_changes RangeSpan (uri (doc s)) a (content (doc s)) (rlocked s))
    as [[mid' [e|]] s1|v s1|]; try discriminate.
  injection Ha as ->. subst s1.
  pose proof (apply_changes_same_result (uri (doc s)) b mid (rlocked s)
                (rlocked (with_stored_content mid s))) as Hsame.
  destruct (apply_changes RangeSpan (uri (doc s)) b mid (rlocked s));
    destruct (apply_changes RangeSpan (uri (doc s)) b mid
                (rlocked (with_stored_content mid s))); exact Hsame.
Qed.

(** X17.  One edit is a splice.  When the column mapper translates the range
    of the edit to the offsets [start <= end_] of the content,
    [ApplyIncrementalChanges] returns the content with the bytes from [start]
    to [end_] replaced by the text of the edit: the bytes before and after
    are kept, and the length changes by the length of the text minus
    [end_ - start]. *)
Theorem ApplyIncrementalChanges_splice (d : DocumentHandle) (r : protocol.Range)
        (text : list byte) (version' : float) (spn : span.Span) (s : state) :
  writer (mu (doc s)) = false ->
  PrimFloat.leb version' (version (doc s)) = false ->
  RangeSpan (uri (doc s)) (content (doc s)) r = (spn, None) ->
  0 <= span.Offset (span.Start spn) <= span.Offset (span.End_ spn) ->
  span.Offset (span.End_ spn) <= len (content (doc s)) ->
  exists before old after,
    content (doc s) = before ++ old ++ after /\
    len before = span.Offset (span.Start spn) /\
    len old = span.Offset (span.End_ spn) - span.Offset (span.Start spn) /\
    ApplyIncrementalChanges RangeSpan d
      [{| protocol.Range_ := Some r; protocol.Text := text |}] version' s
    = Returns (before ++ text ++ after, None) s.
Proof.
  intros Hw Hv Hspan Hoff Hlen.
  destruct (slice_decompose (content (doc s))
              (Z.to_nat (span.Offset (span.Start spn)))
              (Z.to_nat (span.Offset (span.End_ spn))))
    as (Hdec & Hl1 & Hl2); [unfold len in Hlen; lia|].
  eexists _, _, _. split; [exact Hdec|].
  unfold len. rewrite Hl1, Hl2. split; [lia|]. split; [lia|].
  rewrite ApplyIncrementalChanges_outcome by exact Hw. rewrite Hv.
  cbn [apply_changes protocol.Range_ protocol.Text deref]. unfold bind at 1. unfold ret at 1.
  rewrite Hspan.
  unfold span.HasOffset, span.OffsetOf, span.HasOffset.
  replace (0 <=? span.Offset (span.Start spn)) with true by (symmetry; apply Z.leb_le; lia).
  replace (0 <=? span.Offset (span.End_ spn)) with true by (symmetry; apply Z.leb_le; lia).
  simpl negb. cbv iota. unfold bind, lift, ret.
  replace (span.Offset (span.End_ spn) <? span.Offset (span.Start spn)) with false
    by (symmetry; apply Z.ltb_ge; lia).
  replace ((span.Offset (span.Start spn) <? 0)
           || (len (content (doc s)) <? span.Offset (span.Start spn))
           || (len (content (doc s)) <? span.Offset (span.End_ spn))) with false.
  2:{ symmetry. rewrite !orb_false_iff. repeat split; apply Z.ltb_ge; lia. }
  reflexivity.
Qed.

End Batches.

(** ** From the edits to the new content *)

Section EditsThenSetContent.

Variable maxDocumentSize : Z.
Variable RangeSpan : string -> list byte -> protocol.Range -> span.Span * option error.

(** X18.  The two halves of a change fit.  The text [ApplyIncrementalChanges]
    returns for a version is accepted by [SetContent] at that version
    whenever it is within the size limit: the version test of the two is the
    same, and the first leaves the lock free for the second.  The document
    then holds the text. *)
Theorem edits_then_SetContent (d : DocumentHandle) (lifetime : Context)
        (changes : list protocol.TextDocumentContentChangeEvent) (version' : float)
        (text : list byte) (i : nat) (s s' : state) :
  lock_free s = true ->
  obsoleteVersion (doc s) = Some i ->
  ApplyIncrementalChanges RangeSpan d changes version' s = Returns (text, None) s' ->
  len text <= maxDocumentSize ->
  s' = s /\
  SetContent maxDocumentSize d lifetime text version' false s'
  = Returns None (updated lifetime text version' (cancel i (ctxs s)) (doc s)) /\
  content (doc (updated lifetime text version' (cancel i (ctxs s)) (doc s))) = text.
Proof.
  intros Hfree Hov Hedit Hsize.
  pose proof (lock_free_writer s Hfree) as Hw.
  rewrite ApplyIncrementalChanges_outcome in Hedit by exact Hw.
  destruct (PrimFloat.leb version' (version (doc s))) eqn:Hv; [discriminate|].
  assert (Hs : s' = s).
  { destruct (apply_changes RangeSpan (uri (doc s)) changes (content (doc s)) (rlocked s));
      [|discriminate|discriminate]. injection Hedit as _ <-. reflexivity. }
  subst s'. split; [reflexivity|]. split; [|reflexivity].
  rewrite SetContent_outcome, Hfree. simpl negb. rewrite andb_true_l, Hv.
  replace (maxDocumentSize <? len text) with false by (symmetry; apply Z.ltb_ge; lia).
  rewrite Hov. reflexivity.
Qed.

End EditsThenSetContent.

(** ** The earlier interface *)

Section Legacy.

Variable maxDocumentSize : Z.
Variable RangeSpan : string -> list byte -> protocol.Range -> span.Span * option error.

Lemma legacy_SetContent_current (d : DocumentHandle) (content' : list byte)
      (version' : float) (new : bool) :
  legacy.SetContent maxDocumentSize content' version' new
  = SetContent maxDocumentSize d Background content' version' new.
Proof. reflexivity. Qed.

(** X19.  The earlier [ApplyIncrementalChanges] returns on a stale version
    with the read lock still held: it releases the lock after the version
    test only.  The state it leaves has one reader more, and every
    [SetContent] that follows waits for the lock for good. *)
Theorem legacy_stale_version_keeps_read_lock
        (changes : list protocol.TextDocumentContentChangeEvent) (version' : float)
        (s : state) :
  writer (mu (doc s)) = false ->
  PrimFloat.leb version' (version (doc s)) = true ->
  legacy.ApplyIncrementalChanges RangeSpan changes version' s
  = Returns ([], Some ErrVersionNotIncreasing) (rlocked s) /\
  readers (mu (doc (rlocked s))) = S (readers (mu (doc s))) /\
  forall content' v new,
    legacy.SetContent maxDocumentSize content' v new (rlocked s) = Blocks.
Proof.
  intros Hw Hv. split; [|split; [reflexivity|]].
  - unfold legacy.ApplyIncrementalChanges.
    rewrite (bind_Returns _ _ _ _ _ (RLock_free s Hw)).
    rewrite (bind_Returns get_doc _ (rlocked s) (rlocked s) (doc (rlocked s)) eq_refl).
    change (version (doc (rlocked s))) with (version (doc s)). rewrite Hv. reflexivity.
  - intros content' v new.
    rewrite (legacy_SetContent_current {| ctx := Background |}), SetContent_outcome.
    reflexivity.
Qed.

(** X20.  For a version that increases the earlier and the current
    [ApplyIncrementalChanges] are one function: whether the read lock is
    released before the loop or after it, the call gives the same result and
    leaves the same state. *)
Theorem legacy_ApplyIncrementalChanges_agrees (d : DocumentHandle)
        (changes : list protocol.TextDocumentContentChangeEvent) (version' : float)
        (s : state) :
  PrimFloat.leb version' (version (doc s)) = false ->
  legacy.ApplyIncrementalChanges RangeSpan changes version' s
  = ApplyIncrementalChanges RangeSpan d changes version' s.
Proof.
  intros Hv. destruct (writer (mu (doc s))) eqn:Hw.
  - unfold legacy.ApplyIncrementalChanges, ApplyIncrementalChanges.
    rewrite !(bind_Blocks _ _ _ (RLock_held s Hw)). reflexivity.
  - rewrite ApplyIncrementalChanges_outcome by exact Hw. rewrite Hv.
    unfold legacy.ApplyIncrementalChanges.
    rewrite (bind_Returns _ _ _ _ _ (RLock_free s Hw)).
    rewrite (bind_Returns get_doc _ (rlocked s) (rlocked s) (doc (rlocked s)) eq_refl).
    change (version (doc (rlocked s))) with (version (doc s)). rewrite Hv. cbv zeta.
    rewrite (bind_Returns _ _ _ _ _ (RUnlock_rlocked s Hw)).
    change (uri (doc (rlocked s))) with (uri (doc s)).
    change (content (doc (rlocked s))) with (content (doc s)).
    pose proof (preserves_apply_changes RangeSpan (uri (doc s)) changes (content (doc s)) s)
      as H1.
    pose proof (preserves_apply_changes RangeSpan (uri (doc s)) changes (content (doc s))
                  (rlocked s)) as H2.
    pose proof (apply_changes_same_result RangeSpan (uri (doc s)) changes (content (doc s)) s
                  (rlocked s)) as Hsame.
    destruct (apply_changes RangeSpan (uri (doc s)) changes (content (doc s)) s)
      as [r1 s1|v1 s1|];
      destruct (apply_changes RangeSpan (uri (doc s)) changes (content (doc s)) (rlocked s))
        as [r2 s2|v2 s2|]; simpl in Hsame; try contradiction; subst; reflexivity.
Qed.

End Legacy.

(** ** The conversions at the edges *)

(** X21.  [YamlPositionToTokenPos] on a live handle gives a position exactly
    for a column from 1 on and a line, offset added, of the line table: the
    start of the line plus the column minus 1.  In every other case it
    returns an error and no position. *)
Theorem YamlPositionToTokenPos_succeeds_iff (d : DocumentHandle)
        (line column lineOffset : Z) (s : state) :
  writer (mu (doc s)) = false ->
  Done (ctxs s) (ctx d) = false ->
  (1 <= column /\ 1 <= int_add line lineOffset <= len (token.lines (posData (doc s))) ->
   YamlPositionToTokenPos d line column lineOffset s
   = Returns (int_add (token.base (posData (doc s))
                       + nth (Z.to_nat (int_add line lineOffset - 1))
                             (token.lines (posData (doc s))) 0)
                      (int_sub column 1), None) s) /\
  (~ (1 <= column /\ 1 <= int_add line lineOffset <= len (token.lines (posData (doc s)))) ->
   returns_error (YamlPositionToTokenPos d line column lineOffset s) s).
Proof.
  intros Hw Hd. split.
  - intros [Hc Hl]. apply YamlPositionToTokenPos_in_range; assumption.
  - intros Hout. destruct (Z.lt_ge_cases column 1) as [Hc|Hc].
    + exists 0, ErrInvalidPosition. apply YamlPositionToTokenPos_column; assumption.
    + assert (Hl : int_add line lineOffset < 1
                   \/ len (token.lines (posData (doc s))) < int_add line lineOffset) by lia.
      destruct (LineStartSafe_out_of_range d _ (rlocked s) Hl) as [msg Hmsg].
      exists token.NoPos, (ErrLineStartPanic msg). unfold YamlPositionToTokenPos.
      apply read_section_returns; [exact Hw|]. rewrite live_body by exact Hd.
      replace (column <? 1) with false by (symmetry; apply Z.ltb_ge; lia).
      unfold bind. rewrite Hmsg. reflexivity.
Qed.

(** X22.  The lookup of a position is not guarded.  Unlike the panic of
    [LineStart], which [LineStartSafe] recovers, a panic of
    [token.File.Position], as for a [token.Pos] outside the file, goes
    through [TokenPosToTokenPosition] and [PosToProtocolPosition] to the
    caller; the first has released the read lock by then, the second has
    not yet taken it.  For [NoPos] both return, the second with the protocol
    position (0, 0). *)
Theorem position_lookup_not_guarded (d : DocumentHandle) (pos : Z) (v : panic_value)
        (s : state) :
  writer (mu (doc s)) = false ->
  Done (ctxs s) (ctx d) = false ->
  token.PositionOf (posData (doc s)) pos = Panic v ->
  TokenPosToTokenPosition d pos s = Panics v s /\
  PosToProtocolPosition d pos s = Panics v s /\
  TokenPosToTokenPosition d token.NoPos s = Returns (zero_token_Position, None) s /\
  PosToProtocolPosition d token.NoPos s = Returns (zero_Position, None) s.
Proof.
  intros Hw Hd Hp. repeat apply conj.
  - unfold TokenPosToTokenPosition. apply read_section_panics; [exact Hw|].
    rewrite live_body by exact Hd. unfold bind, get_doc.
    rewrite posData_rlocked, Hp. reflexivity.
  - unfold PosToProtocolPosition, bind, get_doc. rewrite Hp. reflexivity.
  - apply TokenPosToTokenPosition_value; [exact Hw|exact Hd|reflexivity].
  - unfold PosToProtocolPosition, bind, get_doc, token.PositionOf. simpl lift.
    unfold ret. unfold PositionToProtocolPosition.
    apply read_section_returns; [exact Hw|]. rewrite live_body by exact Hd.
    reflexivity.
Qed.

(** ** The column [ProtocolPositionToTokenPos] adds *)

(** The scan of [FromUTF16Column] stays on its line and never moves the
    column back. *)
Lemma scan_column (fuel : nat) :
  forall count chr remains p q,
    span.scan fuel count chr remains p = (q, None) ->
    span.Line q = span.Line p /\ span.Column p <= span.Column q.
Proof.
  induction fuel as [|fuel IH]; intros count chr remains p q; simpl.
  - intros H. injection H as <-. split; [reflexivity|lia].
  - destruct (count <? chr); [|intros H; injection H as <-; split; [reflexivity|lia]].
    destruct (len remains <=? 0) eqn:Hlen; [discriminate|].
    assert (Hne : remains <> []).
    { intros ->. discriminate. }
    pose proof (DecodeRune_width remains Hne) as Hw.
    destruct (utf8.DecodeRune remains) as [r w]. simpl in Hw.
    destruct (r =? 10); [discriminate|].
    destruct (0x10000 <=? r).
    + destruct (chr <=? count + 1).
      * intros H. injection H as <-. split; [reflexivity|lia].
      * intros H. apply IH in H. simpl in H. destruct H as [Hl Hc]. split; [exact Hl|lia].
    + intros H. apply IH in H. simpl in H. destruct H as [Hl Hc]. split; [exact Hl|lia].
Qed.

Lemma FromUTF16Column_column (p q : span.Point) (chr : Z) (content' : list byte) :
  span.FromUTF16Column p chr content' = (q, None) ->
  span.Line q = span.Line p /\ span.Column p <= span.Column q.
Proof.
  unfold span.FromUTF16Column.
  destruct (negb (span.HasOffset p)); [discriminate|].
  destruct (chr <=? 1); [intros H; injection H as <-; split; [reflexivity|lia]|].
  destruct (len content' <=? span.Offset p); [discriminate|].
  apply scan_column.
Qed.

(** The point of the start of a line from 1 on is at column 1 of the
    line. *)
Lemma NewPoint_first_column (line o : Z) :
  1 <= line ->
  span.Line (span.NewPoint line 1 o) = line /\ span.Column (span.NewPoint line 1 o) = 1.
Proof.
  intros Hline. unfold span.NewPoint, span.clean. simpl.
  replace (line <? 0) with false by (symmetry; apply Z.ltb_ge; lia).
  split; reflexivity.
Qed.


(** ** More on [SetContent] and on the edits *)

Section More.

Variable maxDocumentSize : Z.
Variable RangeSpan : string -> list byte -> protocol.Range -> span.Span * option error.

(** X24.  [SetContent] is exclusive.  It is suspended exactly when a reader or
    a writer holds the lock; with the lock free it returns or panics, and it
    gives the lock back in both cases. *)
Theorem SetContent_exclusive (d : DocumentHandle) (lifetime : Context)
        (content' : list byte) (version' : float) (new : bool) (s : state) :
  (lock_free s = false <->
   SetContent maxDocumentSize d lifetime content' version' new s = Blocks) /\
  (forall r s', SetContent maxDocumentSize d lifetime content' version' new s = Returns r s' ->
                lock_free s' = true) /\
  (forall v s', SetContent maxDocumentSize d lifetime content' version' new s = Panics v s' ->
                lock_free s' = true).
Proof.
  rewrite SetContent_outcome.
  destruct (lock_free s) eqn:Hfree.
  - destruct (negb new && PrimFloat.leb version' (version (doc s))).
    { repeat apply conj; try discriminate.
      intros r s' H. injection H as _ <-. exact Hfree. }
    destruct (maxDocumentSize <? len content').
    { repeat apply conj; try discriminate.
      intros r s' H. injection H as _ <-. exact Hfree. }
    destruct new.
    { repeat apply conj; try discriminate.
      intros r s' H. injection H as _ <-. exact Hfree. }
    destruct (obsoleteVersion (doc s)) as [i|].
    + repeat apply conj; try discriminate.
      intros r s' H. injection H as _ <-. exact Hfree.
    + repeat apply conj; try discriminate.
      intros v s' H. injection H as _ <-. exact Hfree.
  - repeat apply conj; try discriminate; reflexivity.
Qed.

(** X25.  An update of a document that has no cancel function yet.
    [SetContent] with [new] false calls [obsoleteVersion]; on a document on
    which no [SetContent] has been accepted that function is nil, and the
    call panics once the two checks are passed.  The deferred unlock runs,
    and nothing of the document has changed by then. *)
Theorem SetContent_without_cancel_function (d : DocumentHandle) (lifetime : Context)
        (content' : list byte) (version' : float) (s : state) :
  lock_free s = true ->
  obsoleteVersion (doc s) = None ->
  PrimFloat.leb version' (version (doc s)) = false ->
  len content' <= maxDocumentSize ->
  SetContent maxDocumentSize d lifetime content' version' false s = Panics nil_dereference s /\
  exists r s', SetContent maxDocumentSize d lifetime content' version' true s = Returns r s'
               /\ r = None /\ obsoleteVersion (doc s') <> None.
Proof.
  intros Hfree Hov Hv Hsize. rewrite !SetContent_outcome, Hfree. simpl negb.
  rewrite andb_true_l, andb_false_l, Hv.
  replace (maxDocumentSize <? len content') with false by (symmetry; apply Z.ltb_ge; lia).
  rewrite Hov. split; [reflexivity|].
  eexists _, _. split; [reflexivity|]. split; [reflexivity|discriminate].
Qed.

(** X26.  The edits after a failing edit are not looked at.  When a batch ends
    in an error or in a panic, so does every batch that starts with it, with
    the same error or panic. *)
Theorem ApplyIncrementalChanges_stops_at_failure (d : DocumentHandle)
        (a b : list protocol.TextDocumentContentChangeEvent) (version' : float)
        (s : state) :
  writer (mu (doc s)) = false ->
  (forall text e,
      ApplyIncrementalChanges RangeSpan d a version' s = Returns (text, Some e) s ->
      ApplyIncrementalChanges RangeSpan d (a ++ b) version' s = Returns (text, Some e) s) /\
  (forall v,
      ApplyIncrementalChanges RangeSpan d a version' s = Panics v s ->
      ApplyIncrementalChanges RangeSpan d (a ++ b) version' s = Panics v s).
Proof.
  intros Hw. rewrite !ApplyIncrementalChanges_outcome by exact Hw.
  destruct (PrimFloat.leb version' (version (doc s))); [split; intros; assumption|].
  rewrite apply_changes_app.
  destruct (apply_changes RangeSpan (uri (doc s)) a (content (doc s)) (rlocked s))
    as [[text' [e'|]] s1|v' s1|]; split; intros; try discriminate; assumption.
Qed.

End More.

(** ** The way through the protocol and back *)

(** The content of an indexed document, cut at the start of a line. *)
Lemma indexed_line_cut (s : state) (line : Z) :
  indexed s ->
  1 <= line <= len (token.lines (posData (doc s))) ->
  exists pre post,
    content (doc s) = pre ++ post /\
    nth (Z.to_nat (line - 1)) (token.lines (posData (doc s))) 0 = len pre /\
    (line = 1 \/ 0 < len pre).
Proof.
  intros Hidx Hline.
  pose proof (indexed_bounds s Hidx) as Hb. rewrite List.Forall_forall in Hb.
  assert (Hn : (Z.to_nat (line - 1) < length (token.lines (posData (doc s))))%nat)
    by (unfold len in Hline; lia).
  pose proof (Hb _ (nth_In _ 0 Hn)) as Hstart.
  set (start := nth (Z.to_nat (line - 1)) (token.lines (posData (doc s))) 0) in *.
  exists (take (Z.to_nat start) (content (doc s))), (drop (Z.to_nat start) (content (doc s))).
  split; [symmetry; apply take_drop|].
  split; [unfold len in *; rewrite length_take; lia|].
  destruct (Z.eq_dec line 1) as [->|Hne]; [left; reflexivity|right].
  unfold len in *. rewrite length_take.
  assert (Hpos : 0 < start).
  { unfold start. rewrite Hidx in *.
    destruct (Z.to_nat (line - 1)) as [|k] eqn:Hk; [lia|]. simpl.
    pose proof (line_starts_after_bounds (content (doc s)) 0) as Hl.
    rewrite List.Forall_forall in Hl.
    assert (Hk' : (k < length (line_starts_after (content (doc s)) 0))%nat)
      by (simpl in Hn; lia).
    exact (proj1 (Hl _ (nth_In _ 0 Hk'))). }
  lia.
Qed.

(** X27.  The way through the protocol and back misses the first column.  In
    an indexed document, for every line of the table whose number less 1
    [float64] holds exactly, [PositionToProtocolPosition] maps column 1 of
    the line to the protocol position of the line and column 0, and
    [ProtocolPositionToTokenPos] maps that back to the start of the line
    plus 1, the [token.Pos] of column 2. *)
Theorem position_round_trip_first_column (d : DocumentHandle) (pos : token.Position)
        (s : state) :
  indexed s -> file_in_range s ->
  writer (mu (doc s)) = false ->
  Done (ctxs s) (ctx d) = false ->
  1 <= token.Line pos <= len (token.lines (posData (doc s))) ->
  token.Column pos = 1 ->
  int_of_float64 (float64_of_int (token.Line pos - 1)) = token.Line pos - 1 ->
  PositionToProtocolPosition d pos s
  = Returns ({| protocol.Line := float64_of_int (token.Line pos - 1);
                protocol.Character := float64_of_int 0 |}, None) s /\
  ProtocolPositionToTokenPos d
    {| protocol.Line := float64_of_int (token.Line pos - 1);
       protocol.Character := float64_of_int 0 |} s
  = Returns (token.base (posData (doc s))
             + nth (Z.to_nat (token.Line pos - 1)) (token.lines (posData (doc s))) 0 + 1,
             None) s.
Proof.
  intros Hidx (Hb0 & Hs0 & Hcs & Hmax) Hw Hd Hline Hcol Hfloat.
  destruct (indexed_line_cut s (token.Line pos) Hidx Hline) as (pre & post & Hc & Hstart & Hlo).
  pose proof (indexed_line_count s Hidx) as Hcount.
  pose proof (len_nonneg pre) as Hpre. pose proof (len_nonneg post) as Hpost.
  assert (Hlen : len (content (doc s)) = len pre + len post) by (rewrite Hc; apply len_app).
  split.
  - apply (PositionToProtocolPosition_ascii d pos s pre [] post);
      first [assumption | constructor | change (len (@nil byte)) with 0; lia].
  - pose proof (ProtocolPositionToTokenPos_ascii d
                  {| protocol.Line := float64_of_int (token.Line pos - 1);
                     protocol.Character := float64_of_int 0 |} s pre [] post) as H.
    cbv zeta in H. cbn [protocol.Line protocol.Character] in H.
    rewrite Hfloat in H.
    assert (Hl : int_add (token.Line pos - 1) 1 = token.Line pos).
    { unfold int_add. replace (token.Line pos - 1 + 1) with (token.Line pos) by lia.
      apply wrap_int_small. lia. }
    assert (Hchar : int_of_float64 (float64_of_int 0) = 0) by (vm_compute; reflexivity).
    rewrite Hl, Hchar in H.
    rewrite H;
      first [assumption | constructor | change (len (@nil byte)) with 0; lia | idtac].
    rewrite Hstart. unfold int_add. rewrite wrap_int_small by lia. reflexivity.
Qed.

(** X28.  Past the first column an ASCII position comes back.  Where the
    bytes [seg] of a line before a column are ASCII and at least one, and
    [float64] holds the numbers of the line and of the column exactly,
    [PositionToProtocolPosition] gives the 0-based line and the 0-based
    column [len seg], and [ProtocolPositionToTokenPos] maps that protocol
    position to the [token.Pos] of the same byte. *)
Theorem position_round_trip_ascii (d : DocumentHandle) (pos : token.Position)
        (s : state) (pre seg post : list byte) :
  writer (mu (doc s)) = false ->
  Done (ctxs s) (ctx d) = false ->
  1 <= token.Line pos <= len (token.lines (posData (doc s))) ->
  content (doc s) = pre ++ seg ++ post ->
  nth (Z.to_nat (token.Line pos - 1)) (token.lines (posData (doc s))) 0 = len pre ->
  token.Line pos = 1 \/ 0 < len pre ->
  0 <= token.base (posData (doc s)) ->
  token.base (posData (doc s)) + len pre + len seg + 1 < 2 ^ 63 ->
  token.Line pos < 2 ^ 63 ->
  Forall ascii_in_line seg ->
  seg <> [] ->
  token.Column pos = len seg + 1 ->
  int_of_float64 (float64_of_int (token.Line pos - 1)) = token.Line pos - 1 ->
  int_of_float64 (float64_of_int (len seg)) = len seg ->
  PositionToProtocolPosition d pos s
  = Returns ({| protocol.Line := float64_of_int (token.Line pos - 1);
                protocol.Character := float64_of_int (len seg) |}, None) s /\
  ProtocolPositionToTokenPos d
    {| protocol.Line := float64_of_int (token.Line pos - 1);
       protocol.Character := float64_of_int (len seg) |} s
  = Returns (token.base (posData (doc s)) + len pre + len seg, None) s.
Proof.
  intros Hw Hd Hline Hc Hstart Hlo Hb0 Hmax Hlmax Hseg Hne Hcol Hfl Hfc.
  pose proof (len_nonneg pre) as Hpre.
  assert (Hpos : 1 <= len seg).
  { destruct seg; [contradiction|]. rewrite len_cons. pose proof (len_nonneg seg). lia. }
  split.
  - apply (PositionToProtocolPosition_ascii d pos s pre seg post); assumption.
  - set (n := Nat.pred (length seg)).
    pose proof (ProtocolPositionToTokenPos_ascii d
                  {| protocol.Line := float64_of_int (token.Line pos - 1);
                     protocol.Character := float64_of_int (len seg) |} s
                  pre (take n seg) (drop n seg ++ post)) as H.
    cbv zeta in H. cbn [protocol.Line protocol.Character] in H.
    rewrite Hfl, Hfc in H.
    assert (Hl : int_add (token.Line pos - 1) 1 = token.Line pos).
    { unfold int_add. replace (token.Line pos - 1 + 1) with (token.Line pos) by lia.
      apply wrap_int_small. lia. }
    rewrite Hl in H. rewrite Z.max_l in H by lia.
    rewrite H; try assumption.
    + unfold int_add. rewrite wrap_int_small by lia. reflexivity.
    + rewrite Hc. rewrite app_assoc, (app_assoc (take n seg)), take_drop.
      rewrite <- app_assoc. reflexivity.
    + lia.
    + apply Forall_take. exact Hseg.
    + unfold len in *. rewrite length_take. unfold n. lia.
Qed.

(** ** The further properties on the example documents *)

(** A closed comparison of numbers, decided by evaluation. *)
Ltac by_evaluation :=
  vm_compute; first [reflexivity | discriminate | intro; discriminate | lia].

Lemma SetContent_indexes_content_witness :
  SetContent 100 (current_handle foo_bar) Background (bytes "foo") 2%float false foo_bar
  = Returns None foo_bar_edited /\
  content (doc foo_bar_edited) = bytes "foo" /\
  indexed foo_bar_edited /\
  len (token.lines (posData (doc foo_bar_edited)))
  = 1 + len (List.filter (fun b => byte_val b =? 10) (bytes "foo")).
Proof.
  assert (Hset : SetContent 100 (current_handle foo_bar) Background (bytes "foo") 2%float
                   false foo_bar = Returns None foo_bar_edited)
    by (vm_compute; reflexivity).
  split; [exact Hset|].
  exact (SetContent_indexes_content 100 (current_handle foo_bar) Background (bytes "foo")
           2%float false foo_bar foo_bar_edited Hset).
Defined.

Lemma SetContent_read_back_witness :
  (SetContent 100 (current_handle foo_bar) Background (bytes "foo") 2%float false foo_bar
   = Returns None foo_bar_edited /\
   versionCtx (doc foo_bar_edited) = Some (ctx (current_handle foo_bar_edited)) /\
   Done (ctxs foo_bar_edited) (ctx (current_handle foo_bar_edited)) = false) /\
  GetContent (current_handle foo_bar_edited) foo_bar_edited
  = Returns (bytes "foo", None) foo_bar_edited /\
  GetVersion (current_handle foo_bar_edited) foo_bar_edited
  = Returns (2%float, None) foo_bar_edited.
Proof.
  assert (Hset : SetContent 100 (current_handle foo_bar) Background (bytes "foo") 2%float
                   false foo_bar = Returns None foo_bar_edited)
    by (vm_compute; reflexivity).
  assert (Hh : versionCtx (doc foo_bar_edited) = Some (ctx (current_handle foo_bar_edited)))
    by (vm_compute; reflexivity).
  assert (Hd : Done (ctxs foo_bar_edited) (ctx (current_handle foo_bar_edited)) = false)
    by (vm_compute; reflexivity).
  split; [split; [exact Hset|split; [exact Hh|exact Hd]]|].
  exact (SetContent_read_back 100 (current_handle foo_bar) (current_handle foo_bar_edited)
           Background (bytes "foo") 2%float false foo_bar foo_bar_edited Hset Hh Hd).
Defined.

Lemma SetContent_version_context_witness :
  (ctxs_wf (ctxs foo_bar) /\
   SetContent 100 (current_handle foo_bar) Background (bytes "foo") 2%float false foo_bar
   = Returns None foo_bar_edited) /\
  exists c, versionCtx (doc foo_bar_edited) = Some c /\
            Done (ctxs foo_bar_edited) c = Done (ctxs foo_bar_edited) Background /\
            (Background = Background -> Done (ctxs foo_bar_edited) c = false).
Proof.
  assert (Hwf : ctxs_wf (ctxs foo_bar)).
  { intros [|i] e H; vm_compute in H; [|destruct i; discriminate].
    injection H as <-. exact I. }
  assert (Hset : SetContent 100 (current_handle foo_bar) Background (bytes "foo") 2%float
                   false foo_bar = Returns None foo_bar_edited)
    by (vm_compute; reflexivity).
  split; [split; [exact Hwf|exact Hset]|].
  exact (SetContent_version_context 100 (current_handle foo_bar) Background (bytes "foo")
           2%float false foo_bar foo_bar_edited Hwf I Hset).
Defined.

Lemma SetContent_keeps_identity_witness :
  SetContent 100 (current_handle foo_bar) Background (bytes "foo") 2%float false foo_bar
  = Returns None foo_bar_edited /\
  GetURI (current_handle foo_bar) foo_bar_edited
  = Returns (uri (doc foo_bar)) foo_bar_edited /\
  GetLanguageID (current_handle foo_bar) foo_bar_edited
  = Returns (languageID (doc foo_bar)) foo_bar_edited /\
  token.Base (posData (doc foo_bar_edited)) = token.Base (posData (doc foo_bar)) /\
  token.size (posData (doc foo_bar_edited)) = token.size (posData (doc foo_bar)).
Proof.
  assert (Hset : SetContent 100 (current_handle foo_bar) Background (bytes "foo") 2%float
                   false foo_bar = Returns None foo_bar_edited)
    by (vm_compute; reflexivity).
  split; [exact Hset|].
  exact (SetContent_keeps_identity 100 (current_handle foo_bar) (current_handle foo_bar)
           Background (bytes "foo") 2%float false None foo_bar foo_bar_edited Hset).
Defined.

Lemma SetContent_version_advances_witness :
  SetContent 100 (current_handle foo_bar) Background (bytes "foo") 2%float false foo_bar
  = Returns None foo_bar_edited /\
  ((@None error <> None /\ foo_bar_edited = foo_bar) \/
   (@None error = None /\ version (doc foo_bar_edited) = 2%float /\
    PrimFloat.leb (version (doc foo_bar_edited)) (version (doc foo_bar)) = false)).
Proof.
  assert (Hset : SetContent 100 (current_handle foo_bar) Background (bytes "foo") 2%float
                   false foo_bar = Returns None foo_bar_edited)
    by (vm_compute; reflexivity).
  split; [exact Hset|].
  exact (SetContent_version_advances 100 (current_handle foo_bar) Background (bytes "foo")
           2%float None foo_bar foo_bar_edited Hset).
Defined.

Lemma SetContent_never_revives_witness :
  (Done (ctxs foo_bar_edited) (ctx (current_handle foo_bar)) = true /\
   SetContent 100 (current_handle foo_bar_edited) Background (bytes "foobar") 3%float false
     foo_bar_edited
   = Returns None
       (updated Background (bytes "foobar") 3%float (cancel 1 (ctxs foo_bar_edited))
          (doc foo_bar_edited))) /\
  GetContent (current_handle foo_bar)
    (updated Background (bytes "foobar") 3%float (cancel 1 (ctxs foo_bar_edited))
       (doc foo_bar_edited))
  = Returns ([], Some context_Canceled)
      (updated Background (bytes "foobar") 3%float (cancel 1 (ctxs foo_bar_edited))
         (doc foo_bar_edited)).
Proof.
  assert (Hd : Done (ctxs foo_bar_edited) (ctx (current_handle foo_bar)) = true)
    by (vm_compute; reflexivity).
  assert (Hset : SetContent 100 (current_handle foo_bar_edited) Background (bytes "foobar")
                   3%float false foo_bar_edited
                 = Returns None
                     (updated Background (bytes "foobar") 3%float
                        (cancel 1 (ctxs foo_bar_edited)) (doc foo_bar_edited)))
    by (vm_compute; reflexivity).
  split; [split; [exact Hd|exact Hset]|].
  exact (proj1 (proj2 (SetContent_never_revives 100 (current_handle foo_bar_edited)
                         (current_handle foo_bar) Background (bytes "foobar") 3%float false
                         None foo_bar_edited _ Hd Hset))).
Defined.

Lemma token_pos_round_trip_witness :
  (indexed foo_bar /\ file_in_range foo_bar /\
   writer (mu (doc foo_bar)) = false /\
   Done (ctxs foo_bar) (ctx (current_handle foo_bar)) = false /\
   token.base (posData (doc foo_bar)) <= 6
     <= token.base (posData (doc foo_bar)) + token.size (posData (doc foo_bar)) /\
   6 <> token.NoPos) /\
  exists p,
    TokenPosToTokenPosition (current_handle foo_bar) 6 foo_bar = Returns (p, None) foo_bar /\
    1 <= token.Line p <= len (token.lines (posData (doc foo_bar))) /\
    1 <= token.Column p /\
    token.Offset p = 6 - token.base (posData (doc foo_bar)) /\
    YamlPositionToTokenPos (current_handle foo_bar) (token.Line p) (token.Column p) 0 foo_bar
    = Returns (6, None) foo_bar.
Proof.
  assert (Hidx : indexed foo_bar) by (vm_compute; reflexivity).
  assert (Hfile : file_in_range foo_bar) by (repeat apply conj; by_evaluation).
  assert (Hpos : token.base (posData (doc foo_bar)) <= 6
                 <= token.base (posData (doc foo_bar)) + token.size (posData (doc foo_bar)))
    by (split; by_evaluation).
  assert (Hnp : 6 <> token.NoPos) by by_evaluation.
  split; [repeat apply conj; try assumption; try reflexivity; apply Hpos|].
  exact (token_pos_round_trip (current_handle foo_bar) 6 foo_bar Hidx Hfile eq_refl eq_refl
           Hpos Hnp).
Defined.

Lemma line_column_round_trip_witness :
  (indexed foo_bar /\ file_in_range foo_bar /\
   writer (mu (doc foo_bar)) = false /\
   Done (ctxs foo_bar) (ctx (current_handle foo_bar)) = false /\
   (1 < length (token.lines (posData (doc foo_bar))))%nat /\
   1 <= 2 /\
   (forall next, token.lines (posData (doc foo_bar)) !! 2%nat = Some next ->
                 nth 1 (token.lines (posData (doc foo_bar))) 0 + 2 - 1 < next) /\
   nth 1 (token.lines (posData (doc foo_bar))) 0 + 2 - 1
     <= token.size (posData (doc foo_bar)) /\
   token.base (posData (doc foo_bar)) + nth 1 (token.lines (posData (doc foo_bar))) 0 + 2 - 1
     <> token.NoPos) /\
  YamlPositionToTokenPos (current_handle foo_bar) 2 2 0 foo_bar
  = Returns (6, None) foo_bar /\
  TokenPosToTokenPosition (current_handle foo_bar) 6 foo_bar
  = Returns (position 2 2 5, None) foo_bar.
Proof.
  assert (Hidx : indexed foo_bar) by (vm_compute; reflexivity).
  assert (Hfile : file_in_range foo_bar) by (repeat apply conj; by_evaluation).
  assert (Hn : (1 < length (token.lines (posData (doc foo_bar))))%nat) by by_evaluation.
  assert (Hc : 1 <= 2) by lia.
  assert (Hnext : forall next, token.lines (posData (doc foo_bar)) !! 2%nat = Some next ->
                    nth 1 (token.lines (posData (doc foo_bar))) 0 + 2 - 1 < next).
  { intros next H. vm_compute in H. discriminate. }
  assert (Hsize : nth 1 (token.lines (posData (doc foo_bar))) 0 + 2 - 1
                  <= token.size (posData (doc foo_bar))) by by_evaluation.
  assert (Hnp : token.base (posData (doc foo_bar))
                + nth 1 (token.lines (posData (doc foo_bar))) 0 + 2 - 1 <> token.NoPos)
    by by_evaluation.
  split; [repeat apply conj; try assumption; reflexivity|].
  exact (line_column_round_trip (current_handle foo_bar) 1 2 foo_bar Hidx Hfile eq_refl
           eq_refl Hn Hc Hnext Hsize Hnp).
Defined.

Lemma LineStartSafe_indexed_witness :
  (indexed foo_bar /\ 1 <= 2 <= len (token.lines (posData (doc foo_bar)))) /\
  exists pos,
    LineStartSafe (current_handle foo_bar) 2 foo_bar = Returns (pos, None) foo_bar /\
    token.base (posData (doc foo_bar)) <= pos
      <= token.base (posData (doc foo_bar)) + len (content (doc foo_bar)) /\
    (2 = 1 -> pos = token.base (posData (doc foo_bar))).
Proof.
  assert (Hidx : indexed foo_bar) by (vm_compute; reflexivity).
  assert (Hline : 1 <= 2 <= len (token.lines (posData (doc foo_bar))))
    by (split; by_evaluation).
  split; [split; assumption|].
  exact (LineStartSafe_indexed (current_handle foo_bar) 2 foo_bar Hidx Hline).
Defined.

Lemma GetSubstring_bounds_witness :
  (writer (mu (doc foo_bar)) = false /\
   Done (ctxs foo_bar) (ctx (current_handle foo_bar)) = false /\
   - 2 ^ 63 <= 5 - token.base (posData (doc foo_bar)) < 2 ^ 63 /\
   - 2 ^ 63 <= 8 - token.base (posData (doc foo_bar)) < 2 ^ 63 /\
   - 2 ^ 63 <= 9 - token.base (posData (doc foo_bar)) < 2 ^ 63) /\
  (exists before r after,
      content (doc foo_bar) = before ++ r ++ after /\
      len before = 5 - token.base (posData (doc foo_bar)) /\
      len r = 8 - 5 /\
      GetSubstring (current_handle foo_bar) 5 8 foo_bar = Returns (r, None) foo_bar) /\
  GetSubstring (current_handle foo_bar) 5 9 foo_bar
  = Returns ([], Some ErrInvalidRange) foo_bar.
Proof.
  assert (H5 : - 2 ^ 63 <= 5 - token.base (posData (doc foo_bar)) < 2 ^ 63)
    by (split; by_evaluation).
  assert (H8 : - 2 ^ 63 <= 8 - token.base (posData (doc foo_bar)) < 2 ^ 63)
    by (split; by_evaluation).
  assert (H9 : - 2 ^ 63 <= 9 - token.base (posData (doc foo_bar)) < 2 ^ 63)
    by (split; by_evaluation).
  split; [repeat apply conj; try reflexivity; first [apply H5|apply H8|apply H9]|].
  split.
  - apply (proj1 (GetSubstring_bounds (current_handle foo_bar) 5 8 foo_bar eq_refl eq_refl
                    H5 H8)).
    repeat apply conj; by_evaluation.
  - apply (proj2 (GetSubstring_bounds (current_handle foo_bar) 5 9 foo_bar eq_refl eq_refl
                    H5 H9)).
    intros [_ H]. vm_compute in H. apply H. reflexivity.
Defined.

Lemma GetSubstring_concat_witness :
  (writer (mu (doc foo_bar)) = false /\
   Done (ctxs foo_bar) (ctx (current_handle foo_bar)) = false /\
   0 <= token.base (posData (doc foo_bar)) /\
   token.base (posData (doc foo_bar)) + len (content (doc foo_bar)) < 2 ^ 63 /\
   token.base (posData (doc foo_bar)) <= 1 <= 4 /\
   4 <= 8 <= token.base (posData (doc foo_bar)) + len (content (doc foo_bar))) /\
  (exists r1 r2,
      GetSubstring (current_handle foo_bar) 1 4 foo_bar = Returns (r1, None) foo_bar /\
      GetSubstring (current_handle foo_bar) 4 8 foo_bar = Returns (r2, None) foo_bar /\
      GetSubstring (current_handle foo_bar) 1 8 foo_bar = Returns (r1 ++ r2, None) foo_bar) /\
  GetSubstring (current_handle foo_bar) (token.base (posData (doc foo_bar)))
    (token.base (posData (doc foo_bar)) + len (content (doc foo_bar))) foo_bar
  = GetContent (current_handle foo_bar) foo_bar.
Proof.
  assert (Hb : 0 <= token.base (posData (doc foo_bar))) by by_evaluation.
  assert (Hmax : token.base (posData (doc foo_bar)) + len (content (doc foo_bar)) < 2 ^ 63)
    by by_evaluation.
  assert (Hab : token.base (posData (doc foo_bar)) <= 1 <= 4) by (split; by_evaluation).
  assert (Hbc : 4 <= 8 <= token.base (posData (doc foo_bar)) + len (content (doc foo_bar)))
    by (split; by_evaluation).
  split; [repeat apply conj; try reflexivity; first [apply Hb|apply Hmax|apply Hab|apply Hbc]|].
  exact (GetSubstring_concat (current_handle foo_bar) 1 4 8 foo_bar eq_refl eq_refl
           Hb Hmax Hab Hbc).
Defined.

Lemma ApplyIncrementalChanges_stale_version_witness :
  (writer (mu (doc foo_bar)) = false /\
   PrimFloat.leb 1%float (version (doc foo_bar)) = true) /\
  ApplyIncrementalChanges mapper_RangeSpan (current_handle foo_bar)
    [whole_document_edit (bytes "baz")] 1%float foo_bar
  = Returns ([], Some ErrVersionNotIncreasing) foo_bar.
Proof.
  split; [split; reflexivity|].
  exact (ApplyIncrementalChanges_stale_version mapper_RangeSpan (current_handle foo_bar)
           [whole_document_edit (bytes "baz")] 1%float foo_bar eq_refl eq_refl).
Defined.

Lemma ApplyIncrementalChanges_batch_split_witness :
  (writer (mu (doc foo_bar)) = false /\
   ApplyIncrementalChanges mapper_RangeSpan (current_handle foo_bar)
     [range_edit 1 0 3 (bytes "baz")] 2%float foo_bar
   = Returns (bytes "foo" ++ [x0a] ++ bytes "baz", None) foo_bar) /\
  same_result
    (ApplyIncrementalChanges mapper_RangeSpan (current_handle foo_bar)
       ([range_edit 1 0 3 (bytes "baz")] ++ [range_edit 0 0 3 (bytes "qux")]) 2%float
       foo_bar)
    (ApplyIncrementalChanges mapper_RangeSpan (current_handle foo_bar)
       [range_edit 0 0 3 (bytes "qux")] 2%float
       (with_stored_content (bytes "foo" ++ [x0a] ++ bytes "baz") foo_bar)).
Proof.
  assert (Ha : ApplyIncrementalChanges mapper_RangeSpan (current_handle foo_bar)
                 [range_edit 1 0 3 (bytes "baz")] 2%float foo_bar
               = Returns (bytes "foo" ++ [x0a] ++ bytes "baz", None) foo_bar)
    by (vm_compute; reflexivity).
  split; [split; [reflexivity|exact Ha]|].
  exact (ApplyIncrementalChanges_batch_split mapper_RangeSpan (current_handle foo_bar)
           [range_edit 1 0 3 (bytes "baz")] [range_edit 0 0 3 (bytes "qux")] 2%float
           (bytes "foo" ++ [x0a] ++ bytes "baz") foo_bar eq_refl Ha).
Defined.

Lemma ApplyIncrementalChanges_splice_witness :
  (writer (mu (doc foo_bar)) = false /\
   PrimFloat.leb 2%float (version (doc foo_bar)) = false /\
   mapper_RangeSpan (uri (doc foo_bar)) (content (doc foo_bar))
     {| protocol.Start := protocol_position 1 0; protocol.End_ := protocol_position 1 3 |}
   = ({| span.URI := uri (doc foo_bar);
         span.Start := {| span.Line := 2; span.Column := 1; span.Offset := 4 |};
         span.End_ := {| span.Line := 2; span.Column := 4; span.Offset := 7 |} |}, None) /\
   0 <= 4 <= 7 /\
   7 <= len (content (doc foo_bar))) /\
  exists before old after,
    content (doc foo_bar) = before ++ old ++ after /\
    len before = 4 /\
    len old = 7 - 4 /\
    ApplyIncrementalChanges mapper_RangeSpan (current_handle foo_bar)
      [{| protocol.Range_ :=
            Some {| protocol.Start := protocol_position 1 0;
                    protocol.End_ := protocol_position 1 3 |};
          protocol.Text := bytes "baz" |}] 2%float foo_bar
    = Returns (before ++ bytes "baz" ++ after, None) foo_bar.
Proof.
  assert (Hspan : mapper_RangeSpan (uri (doc foo_bar)) (content (doc foo_bar))
                    {| protocol.Start := protocol_position 1 0;
                       protocol.End_ := protocol_position 1 3 |}
                  = ({| span.URI := uri (doc foo_bar);
                        span.Start := {| span.Line := 2; span.Column := 1; span.Offset := 4 |};
                        span.End_ := {| span.Line := 2; span.Column := 4; span.Offset := 7 |} |},
                     None))
    by (vm_compute; reflexivity).
  assert (Hoff : 0 <= 4 <= 7) by lia.
  assert (Hlen : 7 <= len (content (doc foo_bar))) by by_evaluation.
  split; [repeat apply conj; try reflexivity; first [exact Hspan|apply Hoff|exact Hlen]|].
  exact (ApplyIncrementalChanges_splice mapper_RangeSpan (current_handle foo_bar)
           {| protocol.Start := protocol_position 1 0; protocol.End_ := protocol_position 1 3 |}
           (bytes "baz") 2%float _ foo_bar eq_refl eq_refl Hspan Hoff Hlen).
Defined.

Lemma edits_then_SetContent_witness :
  (lock_free foo_bar = true /\
   obsoleteVersion (doc foo_bar) = Some O /\
   ApplyIncrementalChanges mapper_RangeSpan (current_handle foo_bar)
     [range_edit 1 0 3 (bytes "baz")] 2%float foo_bar
   = Returns (bytes "foo" ++ [x0a] ++ bytes "baz", None) foo_bar /\
   len (bytes "foo" ++ [x0a] ++ bytes "baz") <= 100) /\
  SetContent 100 (current_handle foo_bar) Background (bytes "foo" ++ [x0a] ++ bytes "baz")
    2%float false foo_bar
  = Returns None
      (updated Background (bytes "foo" ++ [x0a] ++ bytes "baz") 2%float
         (cancel 0 (ctxs foo_bar)) (doc foo_bar)).
Proof.
  assert (Ha : ApplyIncrementalChanges mapper_RangeSpan (current_handle foo_bar)
                 [range_edit 1 0 3 (bytes "baz")] 2%float foo_bar
               = Returns (bytes "foo" ++ [x0a] ++ bytes "baz", None) foo_bar)
    by (vm_compute; reflexivity).
  assert (Hsize : len (bytes "foo" ++ [x0a] ++ bytes "baz") <= 100) by by_evaluation.
  split; [repeat apply conj; try reflexivity; first [exact Ha|exact Hsize]|].
  exact (proj1 (proj2 (edits_then_SetContent 100 mapper_RangeSpan (current_handle foo_bar)
                         Background [range_edit 1 0 3 (bytes "baz")] 2%float
                         (bytes "foo" ++ [x0a] ++ bytes "baz") O foo_bar foo_bar
                         eq_refl eq_refl Ha Hsize))).
Defined.

Lemma legacy_stale_version_keeps_read_lock_witness :
  (writer (mu (doc foo_bar)) = false /\
   PrimFloat.leb 1%float (version (doc foo_bar)) = true) /\
  legacy.ApplyIncrementalChanges mapper_RangeSpan [range_edit 1 0 3 (bytes "baz")] 1%float
    foo_bar
  = Returns ([], Some ErrVersionNotIncreasing) (rlocked foo_bar) /\
  legacy.SetContent 100 (bytes "foo") 2%float false (rlocked foo_bar) = Blocks.
Proof.
  split; [split; reflexivity|].
  pose proof (legacy_stale_version_keeps_read_lock 100 mapper_RangeSpan
                [range_edit 1 0 3 (bytes "baz")] 1%float foo_bar eq_refl eq_refl)
    as (Hleak & _ & Hblocks).
  split; [exact Hleak|exact (Hblocks (bytes "foo") 2%float false)].
Defined.

Lemma legacy_ApplyIncrementalChanges_agrees_witness :
  PrimFloat.leb 2%float (version (doc foo_bar)) = false /\
  legacy.ApplyIncrementalChanges mapper_RangeSpan [range_edit 1 0 3 (bytes "baz")] 2%float
    foo_bar
  = ApplyIncrementalChanges mapper_RangeSpan (current_handle foo_bar)
      [range_edit 1 0 3 (bytes "baz")] 2%float foo_bar.
Proof.
  split; [reflexivity|].
  exact (legacy_ApplyIncrementalChanges_agrees mapper_RangeSpan (current_handle foo_bar)
           [range_edit 1 0 3 (bytes "baz")] 2%float foo_bar eq_refl).
Defined.

Lemma YamlPositionToTokenPos_succeeds_iff_witness :
  (writer (mu (doc foo_bar)) = false /\
   Done (ctxs foo_bar) (ctx (current_handle foo_bar)) = false) /\
  YamlPositionToTokenPos (current_handle foo_bar) 1 2 1 foo_bar = Returns (6, None) foo_bar /\
  returns_error (YamlPositionToTokenPos (current_handle foo_bar) 1 0 1 foo_bar) foo_bar /\
  returns_error (YamlPositionToTokenPos (current_handle foo_bar) 2 2 1 foo_bar) foo_bar.
Proof.
  split; [split; reflexivity|].
  split; [|split].
  - apply (proj1 (YamlPositionToTokenPos_succeeds_iff (current_handle foo_bar) 1 2 1 foo_bar
                    eq_refl eq_refl)).
    repeat apply conj; by_evaluation.
  - apply (proj2 (YamlPositionToTokenPos_succeeds_iff (current_handle foo_bar) 1 0 1 foo_bar
                    eq_refl eq_refl)).
    intros [H _]. lia.
  - apply (proj2 (YamlPositionToTokenPos_succeeds_iff (current_handle foo_bar) 2 2 1 foo_bar
                    eq_refl eq_refl)).
    intros [_ [_ H]]. vm_compute in H. apply H. reflexivity.
Defined.

Lemma position_lookup_not_guarded_witness :
  (writer (mu (doc foo_bar)) = false /\
   Done (ctxs foo_bar) (ctx (current_handle foo_bar)) = false /\
   token.PositionOf (posData (doc foo_bar)) (-1) = Panic (panic_string "illegal Pos value")) /\
  TokenPosToTokenPosition (current_handle foo_bar) (-1) foo_bar
  = Panics (panic_string "illegal Pos value") foo_bar /\
  PosToProtocolPosition (current_handle foo_bar) (-1) foo_bar
  = Panics (panic_string "illegal Pos value") foo_bar /\
  TokenPosToTokenPosition (current_handle foo_bar) token.NoPos foo_bar
  = Returns (zero_token_Position, None) foo_bar /\
  PosToProtocolPosition (current_handle foo_bar) token.NoPos foo_bar
  = Returns (zero_Position, None) foo_bar.
Proof.
  assert (Hp : token.PositionOf (posData (doc foo_bar)) (-1)
               = Panic (panic_string "illegal Pos value"))
    by (vm_compute; reflexivity).
  split; [split; [reflexivity|split; [reflexivity|exact Hp]]|].
  exact (position_lookup_not_guarded (current_handle foo_bar) (-1)
           (panic_string "illegal Pos value") foo_bar eq_refl eq_refl Hp).
Defined.


Lemma SetContent_exclusive_witness :
  lock_free (rlocked foo_bar) = false /\
  SetContent 100 (current_handle foo_bar) Background (bytes "foo") 2%float false
    (rlocked foo_bar) = Blocks.
Proof.
  split; [reflexivity|].
  exact (proj1 (proj1 (SetContent_exclusive 100 (current_handle foo_bar) Background
                         (bytes "foo") 2%float false (rlocked foo_bar))) eq_refl).
Defined.

Lemma SetContent_without_cancel_function_witness :
  (lock_free unopened_document = true /\
   obsoleteVersion (doc unopened_document) = None /\
   PrimFloat.leb 1%float (version (doc unopened_document)) = false /\
   len (bytes "foo") <= 100) /\
  SetContent 100 (current_handle unopened_document) Background (bytes "foo") 1%float false
    unopened_document
  = Panics nil_dereference unopened_document.
Proof.
  assert (Hsize : len (bytes "foo") <= 100) by by_evaluation.
  split; [repeat apply conj; try reflexivity; exact Hsize|].
  exact (proj1 (SetContent_without_cancel_function 100 (current_handle unopened_document)
                  Background (bytes "foo") 1%float unopened_document eq_refl eq_refl eq_refl
                  Hsize)).
Defined.

Lemma ApplyIncrementalChanges_stops_at_failure_witness :
  (writer (mu (doc foo_bar)) = false /\
   ApplyIncrementalChanges mapper_RangeSpan (current_handle foo_bar)
     [whole_document_edit (bytes "baz")] 2%float foo_bar
   = Panics nil_dereference foo_bar) /\
  ApplyIncrementalChanges mapper_RangeSpan (current_handle foo_bar)
    ([whole_document_edit (bytes "baz")] ++ [range_edit 1 0 3 (bytes "baz")]) 2%float foo_bar
  = Panics nil_dereference foo_bar.
Proof.
  assert (Ha : ApplyIncrementalChanges mapper_RangeSpan (current_handle foo_bar)
                 [whole_document_edit (bytes "baz")] 2%float foo_bar
               = Panics nil_dereference foo_bar)
    by (vm_compute; reflexivity).
  split; [split; [reflexivity|exact Ha]|].
  exact (proj2 (ApplyIncrementalChanges_stops_at_failure mapper_RangeSpan
                  (current_handle foo_bar) [whole_document_edit (bytes "baz")]
                  [range_edit 1 0 3 (bytes "baz")] 2%float foo_bar eq_refl)
               nil_dereference Ha).
Defined.

Lemma position_round_trip_first_column_witness :
  (indexed foo_bar /\ file_in_range foo_bar /\
   writer (mu (doc foo_bar)) = false /\
   Done (ctxs foo_bar) (ctx (current_handle foo_bar)) = false /\
   1 <= token.Line (position 2 1 4) <= len (token.lines (posData (doc foo_bar))) /\
   token.Column (position 2 1 4) = 1 /\
   int_of_float64 (float64_of_int (token.Line (position 2 1 4) - 1))
   = token.Line (position 2 1 4) - 1) /\
  PositionToProtocolPosition (current_handle foo_bar) (position 2 1 4) foo_bar
  = Returns (protocol_position 1 0, None) foo_bar /\
  ProtocolPositionToTokenPos (current_handle foo_bar) (protocol_position 1 0) foo_bar
  = Returns (6, None) foo_bar.
Proof.
  assert (Hidx : indexed foo_bar) by (vm_compute; reflexivity).
  assert (Hfile : file_in_range foo_bar) by (repeat apply conj; by_evaluation).
  assert (Hline : 1 <= token.Line (position 2 1 4)
                  <= len (token.lines (posData (doc foo_bar))))
    by (split; by_evaluation).
  assert (Hfloat : int_of_float64 (float64_of_int (token.Line (position 2 1 4) - 1))
                   = token.Line (position 2 1 4) - 1)
    by (vm_compute; reflexivity).
  split; [repeat apply conj; try assumption; try reflexivity; apply Hline|].
  exact (position_round_trip_first_column (current_handle foo_bar) (position 2 1 4) foo_bar
           Hidx Hfile eq_refl eq_refl Hline eq_refl Hfloat).
Defined.

Lemma position_round_trip_ascii_witness :
  (writer (mu (doc foo_bar)) = false /\
   Done (ctxs foo_bar) (ctx (current_handle foo_bar)) = false /\
   1 <= token.Line (position 2 3 6) <= len (token.lines (posData (doc foo_bar))) /\
   content (doc foo_bar) = (bytes "foo" ++ [x0a]) ++ bytes "ba" ++ bytes "r" /\
   nth (Z.to_nat (token.Line (position 2 3 6) - 1)) (token.lines (posData (doc foo_bar))) 0
   = len (bytes "foo" ++ [x0a]) /\
   Forall ascii_in_line (bytes "ba") /\
   bytes "ba" <> [] /\
   token.Column (position 2 3 6) = len (bytes "ba") + 1 /\
   int_of_float64 (float64_of_int (token.Line (position 2 3 6) - 1))
   = token.Line (position 2 3 6) - 1 /\
   int_of_float64 (float64_of_int (len (bytes "ba"))) = len (bytes "ba")) /\
  PositionToProtocolPosition (current_handle foo_bar) (position 2 3 6) foo_bar
  = Returns (protocol_position 1 2, None) foo_bar /\
  ProtocolPositionToTokenPos (current_handle foo_bar) (protocol_position 1 2) foo_bar
  = Returns (7, None) foo_bar.
Proof.
  assert (Hline : 1 <= token.Line (position 2 3 6)
                  <= len (token.lines (posData (doc foo_bar))))
    by (split; by_evaluation).
  assert (Hseg : Forall ascii_in_line (bytes "ba")).
  { repeat constructor; by_evaluation. }
  assert (Hne : bytes "ba" <> []) by discriminate.
  assert (Hfl : int_of_float64 (float64_of_int (token.Line (position 2 3 6) - 1))
                = token.Line (position 2 3 6) - 1)
    by (vm_compute; reflexivity).
  assert (Hfc : int_of_float64 (float64_of_int (len (bytes "ba"))) = len (bytes "ba"))
    by (vm_compute; reflexivity).
  assert (Hlo : token.Line (position 2 3 6) = 1 \/ 0 < len (bytes "foo" ++ [x0a]))
    by (right; by_evaluation).
  assert (Hb0 : 0 <= token.base (posData (doc foo_bar))) by by_evaluation.
  assert (Hmax : token.base (posData (doc foo_bar)) + len (bytes "foo" ++ [x0a])
                 + len (bytes "ba") + 1 < 2 ^ 63) by by_evaluation.
  assert (Hlmax : token.Line (position 2 3 6) < 2 ^ 63) by by_evaluation.
  split; [repeat apply conj; try assumption; try reflexivity; apply Hline|].
  exact (position_round_trip_ascii (current_handle foo_bar) (position 2 3 6) foo_bar
           (bytes "foo" ++ [x0a]) (bytes "ba") (bytes "r")
           eq_refl eq_refl Hline eq_refl eq_refl Hlo Hb0 Hmax Hlmax Hseg Hne eq_refl
           Hfl Hfc).
Defined.
